(** * SchedulingAgent: a shallow embedding of the scheduling core

    The development follows the two source files of the repository:

    - [src/api_modified_new.py]: [parse_user_query], [get_multi_user_events],
      [find_conflict_free_slot], [create_meeting], [cancel_meeting],
      [reschedule_meeting], [router], [agent_node];
    - [src/langchain_scheduler.py]: [get_combined_events],
      [parse_event_time], [find_common_free_slot].

    Modules of definitions: [FreeBusy] (the sort and the sweep), [Str] and
    [Re] (Python strings and the fragment of [re] in use), [Parser]
    ([parse_user_query]), [DateTime] (the day-of-week correction), [Actions]
    (the three actions over a calendar gateway), [Samples] (the claims in the
    words of the specification, and concrete inputs), [ReSpec] and
    [ActionsSpec] (vocabulary of the later statements), [Listing] (the two
    listings of events) and [Agent] (the two nodes of the workflow).  The
    theorems follow, in [FreeBusyFacts], [ParserFacts], [MatcherFacts],
    [DateTimeFacts] and [ActionsFacts], then in [ReFacts], [ParserMore],
    [FreeBusyMore], [DateTimeMore], [ActionsMore], [ListingFacts] and
    [AgentFacts].

    Conventions of the embedding.

    - An instant is an integer number of microseconds (the resolution of
      Python's [datetime]); [timedelta.total_seconds() >= 3600] is the
      comparison of the microsecond difference with [3600 * 10^6].
    - A datetime the gateway gives is held by its instant where the code
      reads aware datetimes only, and by a [datetime], aware or naive, where
      the code tells them apart ([parse_event_time]) or fails on their mix.
    - Python exceptions are values of [exn]; a computation that may raise has
      type [result A].  The actions catch [Exception] and return a string.
    - Strings are [string]s of ASCII characters; [str.lower], [str.strip] and
      the character classes of [re] are modelled on the ASCII range.
    - What lies outside the program (the clock, [dateutil.parser], the
      calendar gateway) is an argument of the functions that use it. *)

From Stdlib Require Import ZArith List Bool Lia String Ascii Sorted.
From Stdlib Require Import Permutation.
Import ListNotations.
Open Scope Z_scope.

(** ** Exceptions *)

Inductive exn : Type :=
| TypeError (msg : string)
| ValueError (msg : string)
| NameError (msg : string)
| IndexError (msg : string)
| KeyError (msg : string)
| OverflowError (msg : string)
| HttpError (msg : string).

Inductive result (A : Type) : Type :=
| Ok (a : A)
| Raise (e : exn).
Arguments Ok {A} a.
Arguments Raise {A} e.

Definition bind {A B} (m : result A) (f : A -> result B) : result B :=
  match m with
  | Ok a => f a
  | Raise e => Raise e
  end.

Notation "x <- m ;; k" := (bind m (fun x => k))
  (at level 61, m at next level, right associativity).

(** [str(e)] of an exception: its message. *)
Definition str_exn (e : exn) : string :=
  match e with
  | TypeError m | ValueError m | NameError m | IndexError m
  | KeyError m | OverflowError m | HttpError m => m
  end.

(** ** Durations, in microseconds *)

Definition SECOND : Z := 1000000.
Definition MINUTE : Z := 60 * SECOND.
Definition HOUR : Z := 60 * MINUTE.
Definition DAY : Z := 24 * HOUR.

(** * The free/busy sweep *)

Module FreeBusy.

(** A busy interval or a free slot: the tuple [(start, end)] of instants. *)
Definition interval : Type := (Z * Z)%type.

(** ** [busy.sort()]

    Python orders tuples lexicographically; the order is total and
    antisymmetric on pairs of instants, so the sorted list is unique and any
    stable sort computes it.  Insertion from the right keeps equal keys in
    their original order. *)

Definition tuple_le (a b : interval) : bool :=
  (fst a <? fst b) || ((fst a =? fst b) && (snd a <=? snd b)).

Fixpoint insert (x : interval) (l : list interval) : list interval :=
  match l with
  | [] => [x]
  | y :: l' => if tuple_le x y then x :: l else y :: insert x l'
  end.

Definition sort (l : list interval) : list interval :=
  fold_right insert [] l.

(** ** The loop

    <<
    pointer = now
    free = []
    for s, e in busy:
        if (s - pointer).total_seconds() >= 3600:
            free.append((pointer, s))
        pointer = max(pointer, e)
    if (end - pointer).total_seconds() >= 3600:
        free.append((pointer, end))
    >>

    The state of the loop is the pair of its two variables. *)

Record sweep_state : Type := mk_state { pointer : Z; free : list interval }.

Definition sweep_step (min_duration : Z) (st : sweep_state) (b : interval)
  : sweep_state :=
  let '(s, e) := b in
  {| free := if min_duration <=? s - pointer st
             then free st ++ [(pointer st, s)] else free st;
     pointer := Z.max (pointer st) e |}.

Definition sweep_loop (min_duration now : Z) (busy : list interval)
  : sweep_state :=
  fold_left (sweep_step min_duration) busy {| pointer := now; free := [] |}.

Definition sweep (min_duration now end_ : Z) (busy : list interval)
  : list interval :=
  let st := sweep_loop min_duration now busy in
  if min_duration <=? end_ - pointer st
  then free st ++ [(pointer st, end_)] else free st.

(** The sort followed by the loop: the list [free] of both functions. *)
Definition free_slots (min_duration now end_ : Z) (busy : list interval)
  : list interval :=
  sweep min_duration now end_ (sort busy).

(** ** What the two functions return

    [find_conflict_free_slot] returns ["Suggested: <a> to <b>"] or
    ["No free slot."]; [find_common_free_slot] returns
    ["Suggested free slot: <a> to <b>"] or ["No common slot found."].  The
    rendering of the two instants is kept symbolic. *)

Inductive report : Type :=
| Suggested (a b : Z)
| NoSlot.

Definition report_of (free_list : list interval) : report :=
  match free_list with
  | (a, b) :: _ => Suggested a b
  | [] => NoSlot
  end.

(** An event of a calendar as the sweep reads it: the parsed [dateTime] of
    its [start] and [end], absent for an all-day event (then
    [parser.parse(None)] raises [TypeError]). *)
Record cal_event : Type :=
  mk_cal_event { start_dateTime : option Z; end_dateTime : option Z }.

Definition parse_dateTime (d : option Z) : result Z :=
  match d with
  | Some t => Ok t
  | None => Raise (TypeError "Parser must be a string or character stream, not NoneType")
  end.

(** The inner [for e in events] of one user, appending to [busy]; on an
    exception the intervals appended so far stay in [busy]. *)
Fixpoint append_events (events : list cal_event) (busy : list interval)
  : list interval * option exn :=
  match events with
  | [] => (busy, None)
  | ev :: rest =>
      match parse_dateTime (start_dateTime ev) with
      | Raise x => (busy, Some x)
      | Ok s =>
          match parse_dateTime (end_dateTime ev) with
          | Raise x => (busy, Some x)
          | Ok e => append_events rest (busy ++ [(s, e)])
          end
      end
  end.

(** What the gateway gives for one user: [get_user_service] may raise, the
    [list] call may raise, or the events come back. *)
Inductive answer : Type :=
| NoService (e : exn)
| ListFailed (e : exn)
| Listed (events : list cal_event).

(** [src/api_modified_new.py]: [get_user_service] is called outside the
    [try]; a failing [list] call or a failing parse is caught per user and
    logged, and the scan goes on with the next user. *)
Fixpoint collect_busy (calendars : list answer) (busy : list interval)
  : result (list interval) :=
  match calendars with
  | [] => Ok busy
  | NoService e :: _ => Raise e
  | ListFailed _ :: rest => collect_busy rest busy
  | Listed events :: rest =>
      collect_busy rest (fst (append_events events busy))
  end.

(** [calendars] holds the answers of the gateway for ["user1"] and
    ["user2"], in this order; [now] is [datetime.now(tz.UTC)], the clock,
    far from [datetime.max]. *)
Definition find_conflict_free_slot (now : Z) (calendars : list answer)
  : result report :=
  let end_ := now + 7 * DAY in
  busy <- collect_busy calendars [] ;;
  Ok (report_of (free_slots (3600 * SECOND) now end_ busy)).

(** ** Datetimes with and without a time zone

    [parser.parse] returns an aware datetime for a text with an offset, as
    the RFC 3339 texts of the Calendar API are, and a naive datetime for a
    text without one.  [cal_event] above holds aware datetimes, by their
    instant; a [raw_event] holds datetimes of either kind, a naive one by the
    instant its wall clock has in UTC.  Python refuses to subtract and to
    order a naive and an aware datetime, and finds them unequal. *)

Inductive datetime : Type :=
| Aware (t : Z)
| Naive (t : Z).

Definition instant (d : datetime) : Z :=
  match d with Aware t | Naive t => t end.

Definition is_aware (d : datetime) : bool :=
  match d with Aware _ => true | Naive _ => false end.

(** One of the two is naive and the other aware. *)
Definition naive_aware (a b : datetime) : bool :=
  negb (Bool.eqb (is_aware a) (is_aware b)).

(** [a - b], in microseconds *)
Definition dt_sub (a b : datetime) : result Z :=
  if naive_aware a b
  then Raise (TypeError "can't subtract offset-naive and offset-aware datetimes")
  else Ok (instant a - instant b).

(** [max(a, b)]: [b] when [b > a], else [a] *)
Definition dt_max (a b : datetime) : result datetime :=
  if naive_aware a b
  then Raise (TypeError "can't compare offset-naive and offset-aware datetimes")
  else Ok (if instant a <? instant b then b else a).

(** An event as the gateway lists it, with what [parser.parse] makes of the
    [dateTime] of its [start] and [end]; [None] for an all-day event, which
    has no [dateTime]. *)
Record raw_event : Type :=
  mk_raw_event { start_parsed : option datetime; end_parsed : option datetime }.

Inductive raw_answer : Type :=
| RawNoService (e : exn)
| RawListFailed (e : exn)
| RawListed (events : list raw_event).

(** [parser.parse(e['start'].get('dateTime'))] *)
Definition parser_parse (d : option datetime) : result datetime :=
  match d with
  | Some dt => Ok dt
  | None => Raise (TypeError "Parser must be a string or character stream, not NoneType")
  end.

(** ** [find_common_free_slot] of [src/langchain_scheduler.py] *)

(** [parse_event_time]:
    <<
    dt = parser.parse(dt_str)
    if dt.tzinfo is None:
        dt = dt.replace(tzinfo=timezone.utc)
    return dt
    >>
    The datetime returned is aware; it is held by its instant. *)
Definition parse_event_time (dt_str : option datetime) : result Z :=
  dt <- parser_parse dt_str ;;
  let dt := if is_aware dt then dt else Aware (instant dt) in
  Ok (instant dt).

(** The inner [for e in events]; nothing is caught. *)
Fixpoint append_event_times (events : list raw_event)
  (busy_slots : list interval) : result (list interval) :=
  match events with
  | [] => Ok busy_slots
  | ev :: rest =>
      start <- parse_event_time (start_parsed ev) ;;
      end_ <- parse_event_time (end_parsed ev) ;;
      append_event_times rest (busy_slots ++ [(start, end_)])
  end.

(** The loop over the users: the first exception leaves the function. *)
Fixpoint collect_busy_strict (calendars : list raw_answer)
  (busy_slots : list interval) : result (list interval) :=
  match calendars with
  | [] => Ok busy_slots
  | RawNoService e :: _ | RawListFailed e :: _ => Raise e
  | RawListed events :: rest =>
      busy_slots <- append_event_times events busy_slots ;;
      collect_busy_strict rest busy_slots
  end.

(** Every datetime of [busy_slots] is aware, and so are [now] and [day_end]:
    the sort and the loop are those of instants. *)
Definition find_common_free_slot (now : Z) (calendars : list raw_answer)
  (duration_minutes days_ahead : Z) : result report :=
  let day_end := now + days_ahead * DAY in
  busy_slots <- collect_busy_strict calendars [] ;;
  Ok (report_of (free_slots (duration_minutes * 60 * SECOND) now day_end busy_slots)).

(** The only call of the repository, in the tool [FindConflictFreeSlot]:
    [find_common_free_slot(["user1", "user2"])], with the defaults
    [duration_minutes=60, days_ahead=7]. *)
Definition FindConflictFreeSlot (now : Z) (calendars : list raw_answer)
  : result report :=
  find_common_free_slot now calendars 60 7.

(** ** [find_conflict_free_slot] on datetimes of either kind

    [find_conflict_free_slot] keeps the datetimes as [parser.parse] returns
    them.  On aware datetimes it is the function of that name above; a naive
    datetime makes the sort or the loop raise, and nothing catches it. *)

Definition dt_interval : Type := (datetime * datetime)%type.

Definition instants (b : dt_interval) : interval :=
  (instant (fst b), instant (snd b)).

(** The inner [for e in events] of one user, under its [try]. *)
Fixpoint append_parsed (events : list raw_event) (busy : list dt_interval)
  : list dt_interval * option exn :=
  match events with
  | [] => (busy, None)
  | ev :: rest =>
      match parser_parse (start_parsed ev) with
      | Raise x => (busy, Some x)
      | Ok s =>
          match parser_parse (end_parsed ev) with
          | Raise x => (busy, Some x)
          | Ok e => append_parsed rest (busy ++ [(s, e)])
          end
      end
  end.

Fixpoint collect_parsed (calendars : list raw_answer) (busy : list dt_interval)
  : result (list dt_interval) :=
  match calendars with
  | [] => Ok busy
  | RawNoService e :: _ => Raise e
  | RawListFailed _ :: rest => collect_parsed rest busy
  | RawListed events :: rest =>
      collect_parsed rest (fst (append_parsed events busy))
  end.

(** [busy.sort()] on tuples of datetimes.  Python compares two tuples at
    their first components that are not equal.  The comparison of [x] and
    [y] raises when their starts are a naive and an aware datetime, or when
    their starts are equal and their ends are a naive and an aware
    datetime. *)
Definition tuple_clash (x y : dt_interval) : bool :=
  if naive_aware (fst x) (fst y) then true
  else (instant (fst x) =? instant (fst y)) && naive_aware (snd x) (snd y).

(** Some two tuples of the list cannot be compared. *)
Fixpoint clashing (l : list dt_interval) : bool :=
  match l with
  | [] => false
  | x :: l' => existsb (tuple_clash x) l' || clashing l'
  end.

Fixpoint dt_insert (x : dt_interval) (l : list dt_interval)
  : list dt_interval :=
  match l with
  | [] => [x]
  | y :: l' =>
      if tuple_le (instants x) (instants y) then x :: l else y :: dt_insert x l'
  end.

(** A sort settles the order of any two tuples that are not equal by
    comparisons among tuples that lie between them, the first of which
    raises when the two cannot be compared: then the sort raises.  When any
    two tuples can be compared, their order is that of their instants. *)
Definition dt_sort (l : list dt_interval) : result (list dt_interval) :=
  if clashing l
  then Raise (TypeError "can't compare offset-naive and offset-aware datetimes")
  else Ok (fold_right dt_insert [] l).

Record dt_state : Type :=
  mk_dt_state { dt_pointer : datetime; dt_free : list dt_interval }.

(** The loop [for s, e in busy], from the state [st]. *)
Fixpoint dt_loop (busy : list dt_interval) (st : dt_state)
  : result dt_state :=
  match busy with
  | [] => Ok st
  | (s, e) :: rest =>
      d <- dt_sub s (dt_pointer st) ;;
      let free := if 3600 * SECOND <=? d
                  then dt_free st ++ [(dt_pointer st, s)] else dt_free st in
      p <- dt_max (dt_pointer st) e ;;
      dt_loop rest {| dt_pointer := p; dt_free := free |}
  end.

(** The sort and the sweep; [now] and [end] are aware. *)
Definition dt_sweep (now : Z) (busy : list dt_interval) : result report :=
  let end_ := Aware (now + 7 * DAY) in
  busy <- dt_sort busy ;;
  st <- dt_loop busy {| dt_pointer := Aware now; dt_free := [] |} ;;
  d <- dt_sub end_ (dt_pointer st) ;;
  let free := if 3600 * SECOND <=? d
              then dt_free st ++ [(dt_pointer st, end_)] else dt_free st in
  Ok (report_of (map instants free)).

Definition find_conflict_free_slot_tz (now : Z) (calendars : list raw_answer)
  : result report :=
  busy <- collect_parsed calendars [] ;;
  dt_sweep now busy.

(** An event and an answer of the gateway whose datetimes are aware, among
    those of either kind. *)
Definition raw_of_event (ev : cal_event) : raw_event :=
  {| start_parsed := option_map Aware (start_dateTime ev);
     end_parsed := option_map Aware (end_dateTime ev) |}.

Definition raw_of (a : answer) : raw_answer :=
  match a with
  | NoService e => RawNoService e
  | ListFailed e => RawListFailed e
  | Listed events => RawListed (map raw_of_event events)
  end.

(** The tuple of aware datetimes of an interval of instants. *)
Definition aware_pair (iv : interval) : dt_interval :=
  (Aware (fst iv), Aware (snd iv)).

Definition both_aware (b : dt_interval) : bool :=
  is_aware (fst b) && is_aware (snd b).

(** The [dateTime] is absent or has an offset. *)
Definition with_offset (d : option datetime) : bool :=
  match d with
  | Some (Naive _) => false
  | _ => true
  end.

(** Every [dateTime] the gateway listed has an offset. *)
Definition all_with_offset (calendars : list raw_answer) : bool :=
  forallb (fun c => match c with
                    | RawListed events =>
                        forallb (fun ev => with_offset (start_parsed ev)
                                           && with_offset (end_parsed ev))
                                events
                    | _ => true
                    end)
          calendars.

(** ** Vocabulary of the statements *)

(** The instant [t] lies in the half-open interval [iv]. *)
Definition inside (t : Z) (iv : interval) : Prop := fst iv <= t < snd iv.

(** The instant [t] is covered by some interval of [l]. *)
Definition covered (t : Z) (l : list interval) : Prop :=
  exists iv, In iv l /\ inside t iv.

Definition overlap (a b : interval) : Prop :=
  exists t, inside t a /\ inside t b.

Definition duration (iv : interval) : Z := snd iv - fst iv.

Definition sorted_by_start (l : list interval) : Prop :=
  Sorted (fun a b => fst a <= fst b) l.

Definition well_formed (l : list interval) : Prop :=
  Forall (fun iv => fst iv < snd iv) l.

Definition non_overlapping (l : list interval) : Prop :=
  ForallOrdPairs (fun a b => ~ overlap a b) l.

Definition within (now end_ : Z) (l : list interval) : Prop :=
  Forall (fun iv => now <= fst iv /\ snd iv <= end_) l.

(** The busy interval [iv] leaves the slot [g] clear: it ends by the start
    of [g], or starts at the end of [g] or later.  For a slot and a busy
    interval that last some time, this is to say that they do not overlap. *)
Definition clear_of (g iv : interval) : Prop :=
  snd iv <= fst g \/ snd g <= fst iv.

(** A free slot: it starts at [now] or later, lasts at least [min_duration]
    and is clear of every busy interval. *)
Definition free_slot (min_duration now : Z) (busy : list interval)
  (g : interval) : Prop :=
  now <= fst g /\ min_duration <= duration g
  /\ forall iv, In iv busy -> clear_of g iv.


(** ** Vocabulary of the proofs *)

(** The loop as a recursion over the remaining busy intervals: what is
    appended to [free] from a pointer [p] on. *)
Fixpoint emitted (min_duration p end_ : Z) (busy : list interval)
  : list interval :=
  match busy with
  | [] => if min_duration <=? end_ - p then [(p, end_)] else []
  | (s, e) :: rest =>
      (if min_duration <=? s - p then [(p, s)] else [])
        ++ emitted min_duration (Z.max p e) end_ rest
  end.

(** [chain p busy end_]: the intervals of [busy] follow one another from [p]
    on without meeting, each non-empty, and end by [end_]. *)
Fixpoint chain (p : Z) (busy : list interval) (end_ : Z) : Prop :=
  match busy with
  | [] => p <= end_
  | (s, e) :: rest => p <= s /\ s < e /\ chain e rest end_
  end.

(** A gap the sweep passes over without emitting it: it runs from [now] or
    the end of a busy interval to the start of a busy interval or [end_], and
    is shorter than the minimum duration. *)
Definition in_short_gap (min_duration now end_ : Z) (busy : list interval)
  (t : Z) : Prop :=
  exists g h,
    g <= t < h /\ h - g < min_duration
    /\ (g = now \/ exists b, In b busy /\ snd b = g)
    /\ (h = end_ \/ exists b, In b busy /\ fst b = h).

(** C1 in the words of the specification: the free slots and the busy
    intervals together cover the window, and nothing else. *)
Definition spans_window (min_duration now end_ : Z) (busy : list interval)
  : Prop :=
  forall t, now <= t < end_ <->
    covered t busy \/ covered t (free_slots min_duration now end_ busy).

End FreeBusy.

(** * Strings *)

Module Str.
Open Scope string_scope.

Definition code (c : ascii) : N := N_of_ascii c.

Definition between (lo hi : N) (c : ascii) : bool :=
  ((lo <=? code c) && (code c <=? hi))%N.

Definition is_upper : ascii -> bool := between 65 90.
Definition is_lower : ascii -> bool := between 97 122.
Definition is_digit : ascii -> bool := between 48 57.
Definition is_alpha (c : ascii) : bool := is_upper c || is_lower c.
Definition is_alnum (c : ascii) : bool := is_alpha c || is_digit c.

(** [str.isspace] on the ASCII range: tab to carriage return, the four
    separators 28 to 31, and the space. *)
Definition is_space (c : ascii) : bool :=
  between 9 13 c || between 28 31 c || (code c =? 32)%N.

(** [\w] on the ASCII range. *)
Definition is_word (c : ascii) : bool := is_alnum c || (code c =? 95)%N.

Definition lower_char (c : ascii) : ascii :=
  if is_upper c then ascii_of_N (code c + 32) else c.

(** [s.lower()] *)
Fixpoint lower (s : string) : string :=
  match s with
  | EmptyString => EmptyString
  | String c s' => String (lower_char c) (lower s')
  end.

(** [sub in s] *)
Fixpoint contains (sub s : string) : bool :=
  prefix sub s
  || match s with
     | EmptyString => false
     | String _ s' => contains sub s'
     end.

Fixpoint lstrip (s : string) : string :=
  match s with
  | String c s' => if is_space c then lstrip s' else s
  | EmptyString => EmptyString
  end.

Fixpoint rstrip (s : string) : string :=
  match s with
  | EmptyString => EmptyString
  | String c s' =>
      match rstrip s' with
      | EmptyString => if is_space c then EmptyString else String c EmptyString
      | t => String c t
      end
  end.

(** [s.strip()] *)
Definition strip (s : string) : string := rstrip (lstrip s).

(** [sep.join(l)] *)
Fixpoint join (sep : string) (l : list string) : string :=
  match l with
  | [] => ""
  | [x] => x
  | x :: rest => x ++ sep ++ join sep rest
  end.

(** The first [String.length s - String.length rest] characters of [s]: the
    text consumed between two positions of a scan. *)
Definition consumed (s rest : string) : string :=
  substring 0 (String.length s - String.length rest) s.

End Str.

(** * Regular expressions

    The fragment of Python's [re] the source uses, with the semantics of its
    backtracking matcher: alternatives are tried from left to right, a greedy
    quantifier tries one more iteration before it tries the rest of the
    pattern, a lazy one the other way round, and the first complete match
    found is the match.  Matching is written in continuation-passing style:
    the continuation is the rest of the pattern, and backtracking is the
    [None] it returns. *)

Module Re.
Import Str.
Open Scope string_scope.

Inductive regex : Type :=
| Eps
| Chr (p : ascii -> bool)              (* one character of a class *)
| Seq (r1 r2 : regex)
| Alt (r1 r2 : regex)                  (* r1|r2 *)
| Star (greedy : bool) (r : regex)     (* r* and r*? *)
| Group (name : string) (r : regex)    (* (?P<name>r), or (r) numbered *)
| Eol                                  (* $ *)
| WordBoundary.                        (* \b *)

(** The groups that took part in a match, most recent first. *)
Definition captures : Type := list (string * string).

Fixpoint lookup (name : string) (c : captures) : option string :=
  match c with
  | [] => None
  | (n, v) :: rest => if String.eqb n name then Some v else lookup name rest
  end.

Definition word_before (prev : option ascii) : bool :=
  match prev with Some c => is_word c | None => false end.

Definition word_after (s : string) : bool :=
  match s with String c _ => is_word c | EmptyString => false end.

Definition newline : ascii := ascii_of_N 10.

Section Matcher.
Context {R : Type}.

(** [rmatch r prev s c k]: match [r] at the front of [s], where [prev] is the
    character before [s] in the subject; on success hand the new position and
    captures to [k].  An iteration of a star that consumes nothing is
    refused, so [S (length s)] iterations are never exhausted. *)
Fixpoint rmatch (r : regex) (prev : option ascii) (s : string) (c : captures)
  (k : option ascii -> string -> captures -> option R) {struct r} : option R :=
  match r with
  | Eps => k prev s c
  | Chr p =>
      match s with
      | String a s' => if p a then k (Some a) s' c else None
      | EmptyString => None
      end
  | Seq r1 r2 =>
      rmatch r1 prev s c (fun prev' s' c' => rmatch r2 prev' s' c' k)
  | Alt r1 r2 =>
      match rmatch r1 prev s c k with
      | Some x => Some x
      | None => rmatch r2 prev s c k
      end
  | Star greedy r1 =>
      (fix loop (fuel : nat) (prev : option ascii) (s : string) (c : captures)
         {struct fuel} : option R :=
         match fuel with
         | O => k prev s c
         | S fuel' =>
             let again (_ : unit) :=
               rmatch r1 prev s c
                 (fun prev' s' c' =>
                    if (String.length s' <? String.length s)%nat
                    then loop fuel' prev' s' c' else None) in
             if greedy
             then match again tt with
                  | Some x => Some x
                  | None => k prev s c
                  end
             else match k prev s c with
                  | Some x => Some x
                  | None => again tt
                  end
         end) (S (String.length s)) prev s c
  | Group name r1 =>
      rmatch r1 prev s c
        (fun prev' s' c' => k prev' s' ((name, consumed s s') :: c'))
  | Eol =>
      match s with
      | EmptyString => k prev s c
      | String a EmptyString => if Ascii.eqb a newline then k prev s c else None
      | _ => None
      end
  | WordBoundary =>
      if xorb (word_before prev) (word_after s) then k prev s c else None
  end.

End Matcher.

(** A match: the captures, the matched text and what follows it. *)
Record matched : Type :=
  mk_matched { groups : captures; text : string; rest : string }.

Definition match_at (r : regex) (prev : option ascii) (s : string)
  : option matched :=
  rmatch r prev s []
    (fun _ s' c => Some {| groups := c; text := consumed s s'; rest := s' |}).

(** [re.match(r, s)]: a match at the start of [s]. *)
Definition re_match (r : regex) (s : string) : option matched :=
  match_at r None s.

(** The leftmost match at or after the current position, with the text
    skipped before it. *)
Fixpoint search_from (r : regex) (prev : option ascii) (s : string)
  : option (string * matched) :=
  match match_at r prev s with
  | Some m => Some ("", m)
  | None =>
      match s with
      | EmptyString => None
      | String a s' =>
          match search_from r (Some a) s' with
          | Some (skipped, m) => Some (String a skipped, m)
          | None => None
          end
      end
  end.

(** [re.search(r, s)] *)
Definition re_search (r : regex) (s : string) : option matched :=
  match search_from r None s with
  | Some (_, m) => Some m
  | None => None
  end.

Definition last_char (prev : option ascii) (s : string) : option ascii :=
  match get (String.length s - 1) s with
  | Some a => Some a
  | None => prev
  end.

(** [re.findall(r, s)] for a pattern without groups: the texts of the
    successive non-overlapping matches.  After an empty match the scan moves
    one character on. *)
Fixpoint findall_from (fuel : nat) (r : regex) (prev : option ascii)
  (s : string) : list string :=
  match fuel with
  | O => []
  | S fuel' =>
      match search_from r prev s with
      | None => []
      | Some (skipped, m) =>
          match text m, rest m with
          | EmptyString, EmptyString => [""]
          | EmptyString, String a s' =>
              "" :: findall_from fuel' r (Some a) s'
          | t, s' =>
              t :: findall_from fuel' r (last_char prev (skipped ++ t)) s'
          end
      end
  end.

Definition re_findall (r : regex) (s : string) : list string :=
  findall_from (S (String.length s)) r None s.

(** [re.split(r, s)] for a pattern without groups whose matches are never
    empty: the texts between the successive matches. *)
Fixpoint split_from (fuel : nat) (r : regex) (prev : option ascii)
  (s : string) : list string :=
  match fuel with
  | O => [s]
  | S fuel' =>
      match search_from r prev s with
      | None => [s]
      | Some (skipped, m) =>
          match text m with
          | EmptyString => [s]
          | t => skipped :: split_from fuel' r (last_char prev (skipped ++ t)) (rest m)
          end
      end
  end.

Definition re_split (r : regex) (s : string) : list string :=
  split_from (S (String.length s)) r None s.

(** The names of the groups of a pattern, for [groupdict()]. *)
Fixpoint group_names (r : regex) : list string :=
  match r with
  | Eps | Chr _ | Eol | WordBoundary => []
  | Seq r1 r2 | Alt r1 r2 => group_names r1 ++ group_names r2
  | Star _ r1 => group_names r1
  | Group name r1 => name :: group_names r1
  end.

(** [m.groupdict()]: every named group, [None] when it took no part. *)
Definition groupdict (r : regex) (m : matched) : list (string * option string) :=
  map (fun name => (name, lookup name (groups m))) (group_names r).

(** *** Pattern syntax *)

(** A literal character under [re.IGNORECASE]. *)
Definition ichar (a : ascii) : regex :=
  Chr (fun x => Ascii.eqb (lower_char x) (lower_char a)).

(** A literal character, case-sensitive. *)
Definition char (a : ascii) : regex := Chr (Ascii.eqb a).

(** A literal word under [re.IGNORECASE]. *)
Fixpoint ilit (s : string) : regex :=
  match s with
  | EmptyString => Eps
  | String a EmptyString => ichar a
  | String a s' => Seq (ichar a) (ilit s')
  end.

Fixpoint seq (l : list regex) : regex :=
  match l with
  | [] => Eps
  | [r] => r
  | r :: rest => Seq r (seq rest)
  end.

Definition opt (r : regex) : regex := Alt r Eps.          (* r? *)
Definition plus (r : regex) : regex := Seq r (Star true r).       (* r+ *)
Definition plus_lazy (r : regex) : regex := Seq r (Star false r). (* r+? *)
Definition star (r : regex) : regex := Star true r.               (* r* *)
Definition dot : regex := Chr (fun x => negb (Ascii.eqb x newline)).  (* . *)
Definition ws : regex := Chr is_space.                    (* \s *)
Definition word : regex := Chr is_word.                   (* \w *)
Definition digit : regex := Chr is_digit.                 (* \d *)

End Re.

(** * The intent parser: [parse_user_query] *)

Module Parser.
Import Str Re.
Open Scope string_scope.

(** ** The five patterns, in the order of the list [patterns] *)

(** [(?:create|schedule)\s+a?\s+meeting\s+(?:with\s+)?(?P<attendees>.+?)(?:\s+at\s+(?P<time>.+?))(?:\s+(?P<summary>.+))?$] *)
Definition create_pattern : regex :=
  seq [ Alt (ilit "create") (ilit "schedule"); plus ws; opt (ichar "a");
        plus ws; ilit "meeting"; plus ws; opt (seq [ilit "with"; plus ws]);
        Group "attendees" (plus_lazy dot);
        seq [plus ws; ilit "at"; plus ws; Group "time" (plus_lazy dot)];
        opt (seq [plus ws; Group "summary" (plus dot)]); Eol ].

(** [reschedule\s+(?:a\s+)?(?:first\s+)?meeting\s+(?:with\s+)?(?P<attendees>.+?)(?:\s+(?P<old_time>.+?))?\s+to\s+(?P<time>.+?)(?:\s+(?P<summary>.+))?$] *)
Definition reschedule_pattern : regex :=
  seq [ ilit "reschedule"; plus ws; opt (seq [ichar "a"; plus ws]);
        opt (seq [ilit "first"; plus ws]); ilit "meeting"; plus ws;
        opt (seq [ilit "with"; plus ws]);
        Group "attendees" (plus_lazy dot);
        opt (seq [plus ws; Group "old_time" (plus_lazy dot)]);
        plus ws; ilit "to"; plus ws; Group "time" (plus_lazy dot);
        opt (seq [plus ws; Group "summary" (plus dot)]); Eol ].

(** [cancel\s+(?:a\s+)?meeting\s+(?:with\s+)?(?P<attendees>.+?)(?:\s+(?P<summary>.+))?$] *)
Definition cancel_pattern : regex :=
  seq [ ilit "cancel"; plus ws; opt (seq [ichar "a"; plus ws]);
        ilit "meeting"; plus ws; opt (seq [ilit "with"; plus ws]);
        Group "attendees" (plus_lazy dot);
        opt (seq [plus ws; Group "summary" (plus dot)]); Eol ].

(** [(?P<summary>.+?)\s+with\s+(?P<attendees>.+?)\s+at\s+(?P<time>.+)] *)
Definition generic_pattern : regex :=
  seq [ Group "summary" (plus_lazy dot); plus ws; ilit "with"; plus ws;
        Group "attendees" (plus_lazy dot); plus ws; ilit "at"; plus ws;
        Group "time" (plus dot) ].

(** [reschedule\s+the\s+first\s+meeting\s+(?P<old_time>.+?)\s+to\s+(?P<time>.+?)(?:\s+(?P<summary>.+))?$] *)
Definition first_meeting_pattern : regex :=
  seq [ ilit "reschedule"; plus ws; ilit "the"; plus ws; ilit "first";
        plus ws; ilit "meeting"; plus ws;
        Group "old_time" (plus_lazy dot); plus ws; ilit "to"; plus ws;
        Group "time" (plus_lazy dot);
        opt (seq [plus ws; Group "summary" (plus dot)]); Eol ].

Definition patterns : list regex :=
  [ create_pattern; reschedule_pattern; cancel_pattern; generic_pattern;
    first_meeting_pattern ].

(** [[a-zA-Z0-9._%+-]+@[a-zA-Z0-9.-]+\.[a-zA-Z]{2,}], case-sensitive *)
Definition one_of (chars : string) (c : ascii) : bool :=
  contains (String c EmptyString) chars.

Definition email_pattern : regex :=
  seq [ plus (Chr (fun c => is_alnum c || one_of "._%+-" c)); char "@";
        plus (Chr (fun c => is_alnum c || one_of ".-" c)); char ".";
        Chr is_alpha; Chr is_alpha; star (Chr is_alpha) ].

(** [,|\band\b], under [re.IGNORECASE] *)
Definition separator_pattern : regex :=
  Alt (char ",") (seq [WordBoundary; ilit "and"; WordBoundary]).

(** ** The dictionary [result]

    The value under ["attendees"] is the empty list of the initial
    dictionary until a pattern with an [attendees] group overwrites it with
    the text of the group. *)

Inductive attendees_value : Type :=
| EmptyList
| Text (s : string)
| NoText.

Record query_dict : Type := mk_dict {
  summary : option string;
  time : option string;
  old_time : option string;
  attendees : attendees_value;
  is_first : bool
}.

Definition initial : query_dict :=
  {| summary := Some "Meeting"; time := None; old_time := None;
     attendees := EmptyList; is_first := false |}.

Definition set_key (kv : string * option string) (d : query_dict) : query_dict :=
  let '(key, v) := kv in
  if String.eqb key "summary" then
    mk_dict v (time d) (old_time d) (attendees d) (is_first d)
  else if String.eqb key "time" then
    mk_dict (summary d) v (old_time d) (attendees d) (is_first d)
  else if String.eqb key "old_time" then
    mk_dict (summary d) (time d) v (attendees d) (is_first d)
  else if String.eqb key "attendees" then
    mk_dict (summary d) (time d) (old_time d)
      (match v with Some s => Text s | None => NoText end) (is_first d)
  else d.

(** [result.update(match.groupdict())] *)
Definition update (d : query_dict) (gd : list (string * option string))
  : query_dict :=
  fold_left (fun d kv => set_key kv d) gd d.

Definition set_is_first (d : query_dict) : query_dict :=
  mk_dict (summary d) (time d) (old_time d) (attendees d) true.

(** The first pattern of the list that matches at the start of [query]. *)
Fixpoint first_match (ps : list regex) (query : string)
  : option (regex * matched) :=
  match ps with
  | [] => None
  | p :: rest =>
      match re_match p query with
      | Some m => Some (p, m)
      | None => first_match rest query
      end
  end.

(** The [for pattern in patterns] loop with its [else]: the dictionary after
    it. *)
Definition apply_patterns (query : string) : query_dict :=
  match first_match patterns query with
  | Some (p, m) =>
      let d := update initial (groupdict p m) in
      if contains "first" (lower query) then set_is_first d else d
  | None => initial
  end.

(** ** The attendees *)

Definition email_mapping : list (string * string) :=
  [ ("akash", "akashmehta556@gmail.com");
    ("eliana", "eliana@gocadre.ai");
    ("srilak", "srilakp@pdx.edu");
    ("faraz", "gurramkondafaraz@gmail.com");
    ("vlds", "vlds@umich.edu");
    ("odell", "odelllaxx@gmail.com") ].

Fixpoint mapped (key : string) (table : list (string * string))
  : option string :=
  match table with
  | [] => None
  | (k, v) :: rest => if String.eqb k key then Some v else mapped key rest
  end.

(** The [for name in parts] loop: the addresses appended. *)
Fixpoint map_names (parts : list string) : list string :=
  match parts with
  | [] => []
  | name :: rest =>
      let name := strip name in
      if String.eqb name "" then map_names rest
      else match mapped (lower name) email_mapping with
           | Some address => address :: map_names rest
           | None => map_names rest
           end
  end.

(** The attendee addresses from the value under ["attendees"], each standing
    for one dictionary [{"email": address}].  [re.findall(email_pattern, raw)]
    accepts only a string; when it finds addresses they are the attendees,
    otherwise the text is split on [,] and [and] and the names are mapped. *)
Definition resolve (raw : attendees_value) : result (list string) :=
  match raw with
  | Text s =>
      match re_findall email_pattern s with
      | [] => Ok (map_names (re_split separator_pattern s))
      | found_emails => Ok found_emails
      end
  | EmptyList =>
      Raise (TypeError "expected string or bytes-like object, got 'list'")
  | NoText =>
      Raise (TypeError "expected string or bytes-like object, got 'NoneType'")
  end.

(** ** The parsed query *)

Record parsed_query : Type := mk_parsed {
  p_summary : string;
  p_time : option string;
  p_old_time : option string;
  p_attendees : list string;
  p_is_first : bool
}.

(** [not x] for a value that is [None] or a string. *)
Definition falsy (x : option string) : bool :=
  match x with
  | None => true
  | Some s => String.eqb s ""
  end.

Definition parse_user_query (query : string) : result parsed_query :=
  let d := apply_patterns query in
  addresses <- resolve (attendees d) ;;
  Ok {| p_summary := match summary d with
                     | Some s => if String.eqb s "" then "Meeting" else s
                     | None => "Meeting"
                     end;
        p_time := time d;
        p_old_time := old_time d;
        p_attendees := addresses;
        p_is_first := is_first d |}.

End Parser.

(** * Date and time

    A [datetime] whose [tzinfo] is UTC is its wall clock: the number of
    microseconds since 0001-01-01T00:00:00, the first day of the proleptic
    Gregorian calendar, a Monday. *)

Module DateTime.
Import Str.
Open Scope string_scope.
Open Scope Z_scope.

(** One past [datetime.max]: 9999-12-31T23:59:59.999999 is the last
    microsecond of day 3652059. *)
Definition MAX : Z := 3652059 * DAY.

(** [dt.weekday()], Monday is 0. *)
Definition weekday (dt : Z) : Z := (dt / DAY) mod 7.
Definition hour (dt : Z) : Z := (dt / HOUR) mod 24.
Definition minute (dt : Z) : Z := (dt / MINUTE) mod 60.
Definition second (dt : Z) : Z := (dt / SECOND) mod 60.
Definition microsecond (dt : Z) : Z := dt mod SECOND.

(** [dt.date()], as a day number. *)
Definition date (dt : Z) : Z := dt / DAY.

(** The time of day, in microseconds since midnight. *)
Definition time_of_day (dt : Z) : Z := dt mod DAY.

(** [dt + timedelta(microseconds=d)] *)
Definition add_timedelta (dt d : Z) : result Z :=
  let r := dt + d in
  if (0 <=? r) && (r <? MAX) then Ok r
  else Raise (OverflowError "date value out of range").

(** [dt.replace(hour=dt.hour, minute=dt.minute, second=0, microsecond=0)] *)
Definition replace_second_microsecond (dt : Z) : Z := dt - dt mod MINUTE.

(** [dt.replace(hour=0, minute=0, second=0, microsecond=0)] *)
Definition replace_midnight (dt : Z) : Z := dt - dt mod DAY.

Definition day_names : list string :=
  ["monday"; "tuesday"; "wednesday"; "thursday"; "friday"; "saturday";
   "sunday"].

Definition Day_names : list string :=
  ["Monday"; "Tuesday"; "Wednesday"; "Thursday"; "Friday"; "Saturday";
   "Sunday"].

(** [dt.strftime("%A")] *)
Definition strftime_A (dt : Z) : string :=
  nth (Z.to_nat (weekday dt)) Day_names "".

Definition digit_char (n : Z) : string :=
  String (ascii_of_N (48 + Z.to_N n)) EmptyString.

Definition two_digits (n : Z) : string :=
  digit_char (n / 10) ++ digit_char (n mod 10).

(** [dt.strftime("%I:%M %p")] *)
Definition strftime_IMp (dt : Z) : string :=
  let h := hour dt in
  let h12 := if h mod 12 =? 0 then 12 else h mod 12 in
  two_digits h12 ++ ":" ++ two_digits (minute dt) ++ " "
    ++ (if h <? 12 then "AM" else "PM").

(** [enumerate(l)] *)
Fixpoint enumerate_from {A} (i : Z) (l : list A) : list (Z * A) :=
  match l with
  | [] => []
  | x :: rest => (i, x) :: enumerate_from (i + 1) rest
  end.

Definition enumerate {A} (l : list A) : list (Z * A) := enumerate_from 0 l.

(** ** The day-of-week correction of [create_meeting]

    <<
    for i, day in enumerate(day_names):
        if day in query_lower and start.weekday() != i:
            current_weekday = start.weekday()
            days_ahead = (i - current_weekday + 7) % 7
            if days_ahead == 0:
                days_ahead = 7
            start = start + timedelta(days=days_ahead)
            start = start.replace(hour=start.hour, minute=start.minute,
                                  second=0, microsecond=0)
    >> *)

Definition correct_day (query_lower : string) (start : Z) (iday : Z * string)
  : result Z :=
  let '(i, day) := iday in
  if contains day query_lower && negb (weekday start =? i) then
    let current_weekday := weekday start in
    let days_ahead := (i - current_weekday + 7) mod 7 in
    let days_ahead := if days_ahead =? 0 then 7 else days_ahead in
    start <- add_timedelta start (days_ahead * DAY) ;;
    Ok (replace_second_microsecond start)
  else Ok start.

Fixpoint correct_days (query_lower : string) (start : Z)
  (days : list (Z * string)) : result Z :=
  match days with
  | [] => Ok start
  | iday :: rest =>
      start <- correct_day query_lower start iday ;;
      correct_days query_lower start rest
  end.

Definition day_of_week_correction (query : string) (start : Z) : result Z :=
  correct_days (lower query) start (enumerate day_names).

End DateTime.

(** * The scheduling actions *)

Module Actions.
Import Str Re Parser DateTime.
Open Scope string_scope.
Open Scope Z_scope.

(** ** The calendar gateway *)

(** An event as the gateway returns it: its [id], its [summary] when it has
    one, its [attendees] when it has the key (each with its [email] when it
    has one), and the wall clocks of [start.dateTime] and [end.dateTime],
    absent for an all-day event. *)
Record event : Type := mk_event {
  ev_id : string;
  ev_summary : option string;
  ev_attendees : option (list (option string));
  ev_start : option Z;
  ev_end : option Z
}.

(** The body [create_meeting] inserts; the [conferenceData.createRequest] it
    also carries is constant up to its [requestId]. *)
Record new_event : Type := mk_new_event {
  ne_summary : string;
  ne_start : Z;
  ne_end : Z;
  ne_attendees : list string
}.

(** What [insert] and [update] answer: [htmlLink], the [uri] of each entry
    point of [conferenceData.entryPoints] when both keys are there, and the
    attendees. *)
Record response : Type := mk_response {
  r_htmlLink : option string;
  r_entryPoints : option (list (option string));
  r_attendees : option (list (option string))
}.

(** A write the gateway has applied. *)
Inductive write : Type :=
| Insert (user : string) (body : new_event)
| Update (user : string) (event_id : string) (body : event)
    (new_start new_end : Z)
| Delete (user : string) (event_id : string).

(** Everything outside the program: the clock, [dateutil.parser.parse] (the
    wall clock of its result, for a text and an optional [default]), the
    answers of the gateway, and what calling the tool object
    [find_conflict_free_slot] with no argument gives. *)
Record world : Type := mk_world {
  now : Z;
  dateutil_parse : string -> option Z -> result Z;
  get_user_service : string -> result unit;
  events_list : string -> Z -> Z -> result (list event);
  events_get : string -> string -> result event;
  events_insert : string -> new_event -> result response;
  events_update : string -> string -> event -> Z -> Z -> result response;
  events_delete : string -> string -> result unit;
  find_conflict_free_slot_tool : result string
}.

(** ** Computations that write

    A computation yields the writes the gateway applied while it ran and
    either a value or the exception that ended it.  A gateway call that
    raises applies nothing. *)

Definition M (A : Type) : Type := (list write * result A)%type.

Definition ret {A} (a : A) : M A := ([], Ok a).
Definition raise {A} (e : exn) : M A := ([], Raise e).
Definition lift {A} (r : result A) : M A := ([], r).

Definition mbind {A B} (m : M A) (f : A -> M B) : M B :=
  match m with
  | (ws, Ok a) => let '(ws', r) := f a in ((ws ++ ws')%list, r)
  | (ws, Raise e) => (ws, Raise e)
  end.

Notation "x <~ m ;; k" := (mbind m (fun x => k))
  (at level 61, m at next level, right associativity).

(** [try: m except Exception as e: h e] *)
Definition try_except {A} (m : M A) (h : exn -> M A) : M A :=
  match m with
  | (ws, Ok a) => (ws, Ok a)
  | (ws, Raise e) => let '(ws', r) := h e in ((ws ++ ws')%list, r)
  end.

(** [try: x = m except Exception as e: ...], for a handler that returns:
    the outcome of [m] as a value. *)
Definition attempt {A} (m : M A) : M (result A) :=
  let '(ws, r) := m in (ws, Ok r).

Definition insert (w : world) (user : string) (body : new_event)
  : M response :=
  match events_insert w user body with
  | Ok r => ([Insert user body], Ok r)
  | Raise e => raise e
  end.

Definition update (w : world) (user event_id : string) (body : event)
  (new_start new_end : Z) : M response :=
  match events_update w user event_id body new_start new_end with
  | Ok r => ([Update user event_id body new_start new_end], Ok r)
  | Raise e => raise e
  end.

Definition delete (w : world) (user event_id : string) : M unit :=
  match events_delete w user event_id with
  | Ok r => ([Delete user event_id], Ok r)
  | Raise e => raise e
  end.

(** ** Helpers shared by the actions *)

(** [r.get('conferenceData', {}).get('entryPoints', [{}])[0].get('uri', default)] *)
Definition meet_link (r : response) (default : string) : result string :=
  match r_entryPoints r with
  | None => Ok default
  | Some [] => Raise (IndexError "list index out of range")
  | Some (Some uri :: _) => Ok uri
  | Some (None :: _) => Ok default
  end.

(** [[a['email'] for a in l]] *)
Fixpoint emails (l : list (option string)) : result (list string) :=
  match l with
  | [] => Ok []
  | Some e :: rest => es <- emails rest ;; Ok (e :: es)
  | None :: _ => Raise (KeyError "'email'")
  end.

(** [[a.get('email', '').lower() for a in ev.get('attendees', [])]] *)
Definition lower_emails (ev : event) : list string :=
  map (fun a => lower (match a with Some e => e | None => "" end))
      (match ev_attendees ev with Some l => l | None => [] end).

(** [all(a['email'].lower() in ev_emails for a in attendees)] *)
Definition includes_all (ev_emails attendees : list string) : bool :=
  forallb (fun a => existsb (String.eqb (lower a)) ev_emails) attendees.

Definition get_or (x : option string) (default : string) : string :=
  match x with Some s => s | None => default end.

(** The events of ["user1"] then ["user2"] between [time_min] and
    [time_max], each tagged with its [user_id]; [get_user_service] is called
    outside the [try], a failing [list] is logged and skipped. *)
Fixpoint collect_events (w : world) (time_min time_max : Z)
  (users : list string) (events : list (string * event))
  : result (list (string * event)) :=
  match users with
  | [] => Ok events
  | uid :: rest =>
      _ <- get_user_service w uid ;;
      match events_list w uid time_min time_max with
      | Ok items =>
          collect_events w time_min time_max rest
            (events ++ map (pair uid) items)%list
      | Raise _ => collect_events w time_min time_max rest events
      end
  end.

(** ** [create_meeting] *)

Definition create_body (w : world) (query : string) : M string :=
  parsed <~ lift (parse_user_query query) ;;
  let summary := p_summary parsed in
  let attendees := p_attendees parsed in
  match p_time parsed, attendees with
  | None, _ | Some "", _ =>
      ret "Failed to create event: No valid time specified."
  | Some _, [] =>
      ret "Failed to create event: No valid attendees specified."
  | Some time_str, _ :: _ =>
      match dateutil_parse w time_str None with
      | Raise (ValueError _) =>
          ret ("Failed to create event: Could not parse time '" ++ time_str
               ++ "'. Please use a format like 'Saturday at 3pm' or 'July 16th at 6pm'.")
      | Raise e => raise e
      | Ok start =>
          start <~ lift (day_of_week_correction query start) ;;
          end_ <~ lift (add_timedelta start HOUR) ;;
          let body := {| ne_summary := summary; ne_start := start;
                         ne_end := end_; ne_attendees := attendees |} in
          _ <~ lift (get_user_service w "user1") ;;
          inserted <~ attempt (insert w "user1" body) ;;
          match inserted with
          | Raise e => ret ("Failed to create event: " ++ str_exn e)
          | Ok created =>
              link <~ lift (meet_link created "No Google Meet link generated") ;;
              ret ("The meeting on " ++ strftime_A start ++ " at "
                   ++ strftime_IMp start ++ " with " ++ join ", " attendees
                   ++ " has been created. You can join the meeting using this [Google Meet link]("
                   ++ link ++ ").")
          end
      end
  end.

(** The writes applied and the string returned. *)
Definition create_meeting (w : world) (query : string) : list write * string :=
  match create_body w query with
  | (ws, Ok s) => (ws, s)
  | (ws, Raise e) => (ws, "Failed to create event: " ++ str_exn e)
  end.

(** ** [cancel_meeting] *)

(** [cancel\s+event\s+([A-Za-z0-9_-]+)] *)
Definition cancel_id_pattern : regex :=
  seq [ ilit "cancel"; plus ws; ilit "event"; plus ws;
        Group "1" (plus (Chr (fun c => is_alnum c || one_of "_-" c))) ].

(** [on\s+(\w+)] *)
Definition on_day_pattern : regex :=
  seq [ ilit "on"; plus ws; Group "1" (plus word) ].

(** [at\s+(\d{1,2}(?::\d{2})?\s*(?:am|pm))] *)
Definition at_time_pattern : regex :=
  seq [ ilit "at"; plus ws;
        Group "1" (seq [ digit; opt digit; opt (seq [char ":"; digit; digit]);
                         star ws; Alt (ilit "am") (ilit "pm") ]) ].

Definition group1 (m : matched) : string := get_or (lookup "1" (groups m)) "".

(** [datetime.now(pytz.UTC)]: the module imports [tz] from [dateutil] and
    never [pytz], so evaluating the name raises. *)
Definition datetime_now_pytz : result Z :=
  Raise (NameError "name 'pytz' is not defined").

(** The [for ev in events] loop of [cancel_meeting]: the first event that
    includes every requested attendee and passes the day and time filters. *)
Fixpoint cancel_target (attendees : list string) (day_filter : option string)
  (time_filter : option (Z * Z)) (events : list (string * event))
  : result (option (string * event)) :=
  match events with
  | [] => Ok None
  | (uid, ev) :: rest =>
      if negb (includes_all (lower_emails ev) attendees)
      then cancel_target attendees day_filter time_filter rest
      else
        match ev_start ev with
        | None => Raise (KeyError "'dateTime'")
        | Some ev_dt =>
            let day_differs :=
              match day_filter with
              | Some d => negb (String.eqb (lower (strftime_A ev_dt)) d)
              | None => false
              end in
            let time_differs :=
              match time_filter with
              | Some (h, m) => negb ((hour ev_dt =? h) && (minute ev_dt =? m))
              | None => false
              end in
            if day_differs || time_differs
            then cancel_target attendees day_filter time_filter rest
            else Ok (Some (uid, ev))
        end
  end.

Definition cancel_by_attendees (w : world) (query : string)
  (attendees : list string) (now : Z) : M string :=
  end_ <~ lift (add_timedelta now (7 * DAY)) ;;
  let day_filter :=
    match re_search on_day_pattern query with
    | Some m =>
        let d := lower (group1 m) in
        if existsb (String.eqb d) day_names then Some d else None
    | None => None
    end in
  let time_filter :=
    match re_search at_time_pattern query with
    | Some m =>
        match dateutil_parse w (group1 m) None with
        | Ok tf => Some (hour tf, minute tf)
        | Raise _ => None
        end
    | None => None
    end in
  events <~ lift (collect_events w now end_ ["user1"; "user2"] []) ;;
  target <~ lift (cancel_target attendees day_filter time_filter events) ;;
  match target with
  | None =>
      ret ("Failed to cancel: couldn’t find an event with "
           ++ join ", " attendees ++ ".")
  | Some (uid, ev) =>
      _ <~ lift (get_user_service w uid) ;;
      _ <~ delete w uid (ev_id ev) ;;
      ret ("Event '" ++ get_or (ev_summary ev) "No Title" ++ "' (ID: "
           ++ ev_id ev ++ ") canceled successfully.")
  end.

Definition cancel_body (w : world) (query : string) : M string :=
  match re_search cancel_id_pattern query with
  | Some m_id =>
      let event_id := group1 m_id in
      _ <~ lift (get_user_service w "user1") ;;
      try_except
        (evt <~ lift (events_get w "user1" event_id) ;;
         _ <~ delete w "user1" event_id ;;
         ret ("Event '" ++ get_or (ev_summary evt) "<no title>" ++ "' (ID: "
              ++ event_id ++ ") canceled successfully."))
        (fun e => ret ("Failed to cancel event by ID: " ++ str_exn e))
  | None =>
      parsed <~ lift (parse_user_query query) ;;
      match p_attendees parsed with
      | [] =>
          ret "Failed to cancel event: no attendees or event ID in your request."
      | attendees =>
          now <~ lift datetime_now_pytz ;;
          cancel_by_attendees w query attendees now
      end
  end.

Definition cancel_meeting (w : world) (query : string) : list write * string :=
  match cancel_body w query with
  | (ws, Ok s) => (ws, s)
  | (ws, Raise e) => (ws, "Failed to cancel event: " ++ str_exn e)
  end.

(** ** [reschedule_meeting] *)

(** [ID\s*:\s*(\w+)] *)
Definition reschedule_id_pattern : regex :=
  seq [ ilit "ID"; star ws; char ":"; star ws; Group "1" (plus word) ].

(** [s.split(sep)[0]]: the text before the first [sep]. *)
Fixpoint before (sep s : string) : string :=
  if prefix sep s then ""
  else match s with
       | EmptyString => ""
       | String c s' => String c (before sep s')
       end.

(** [s.replace(old, new)] for a non-empty [old]; [skip] characters of a
    replaced occurrence are still to be passed over. *)
Fixpoint replace_from (skip : nat) (old new s : string) : string :=
  match s with
  | EmptyString => ""
  | String c s' =>
      match skip with
      | S k => replace_from k old new s'
      | O =>
          if prefix old s
          then new ++ replace_from (String.length old - 1) old new s'
          else String c (replace_from O old new s')
      end
  end.

Definition replace (old new s : string) : string := replace_from O old new s.

(** The scan of the branch [else] of [if is_first]:
    <<
    for event in events:
        event_attendees = [...]
        if all(a['email'].lower() in event_attendees for a in attendees):
            if summary is None or event.get('summary', '').lower() == summary.lower():
                target_event = event
                break
        if not target_event:
            summary_lower = event.get('summary', '').lower()
            for a in attendees:
                if a['email'].lower() in summary_lower:
                    target_event = event
                    break
            if target_event:
                break
    >>
    [target_event] is [None] whenever the second [if] is reached, so both
    tests are made on each event in turn. *)

Definition matches_attendees_and_summary (summary : option string)
  (attendees : list string) (ev : event) : bool :=
  includes_all (lower_emails ev) attendees
  && match summary with
     | None => true
     | Some s => String.eqb (lower (get_or (ev_summary ev) "")) (lower s)
     end.

Definition summary_names_attendee (attendees : list string) (ev : event)
  : bool :=
  let summary_lower := lower (get_or (ev_summary ev) "") in
  existsb (fun a => contains (lower a) summary_lower) attendees.

Fixpoint find_target (summary : option string) (attendees : list string)
  (events : list (string * event)) : option (string * event) :=
  match events with
  | [] => None
  | (uid, ev) :: rest =>
      if matches_attendees_and_summary summary attendees ev
      then Some (uid, ev)
      else if summary_names_attendee attendees ev
      then Some (uid, ev)
      else find_target summary attendees rest
  end.

(** The scan of the branch [if is_first]: the first event on the date of
    [old_start]. *)
Fixpoint find_first_on_date (old_start : Z) (events : list (string * event))
  : result (option (string * event)) :=
  match events with
  | [] => Ok None
  | (uid, ev) :: rest =>
      event_start <- match ev_start ev with
                     | Some t => Ok t
                     | None => Raise (TypeError "Parser must be a string or character stream, not NoneType")
                     end ;;
      if date event_start =? date old_start then Ok (Some (uid, ev))
      else find_first_on_date old_start rest
  end.

Definition rescheduled_message (updated : response) (event_id link : string)
  (attendees : list string) : string :=
  "Event rescheduled: " ++ get_or (r_htmlLink updated) "None" ++ " (ID: "
    ++ event_id ++ ", Google Meet: " ++ link ++ ", Attendees: "
    ++ join ", " attendees ++ ")".

Definition reschedule_by_id (w : world) (event_id : string)
  (new_start new_end : Z) : M string :=
  _ <~ lift (get_user_service w "user1") ;;
  try_except
    (ev <~ lift (events_get w "user1" event_id) ;;
     updated <~ update w "user1" event_id ev new_start new_end ;;
     link <~ lift (meet_link updated "No Google Meet link") ;;
     attendees <~ lift (emails (match ev_attendees ev with
                                | Some l => l | None => [] end)) ;;
     ret (rescheduled_message updated event_id link attendees))
    (fun e => ret ("Failed to reschedule event: " ++ str_exn e)).

Definition truthy (x : option string) : bool := negb (falsy x).

Definition no_match_message (attendees : list string) : string :=
  "Failed to reschedule event: No matching event found with attendees "
    ++ join ", " attendees
    ++ ". Try 'show upcoming events' to get the event ID.".

Definition reschedule_by_search (w : world) (parsed : parsed_query)
  (now end_ new_start new_end : Z) : M string :=
  let attendees := p_attendees parsed in
  let old_time_str := p_old_time parsed in
  let summary := Some (p_summary parsed) in
  let parse_old := dateutil_parse w (get_or old_time_str "") (Some now) in
  window <~ lift
    (if truthy old_time_str then
       match parse_old with
       | Ok old_start =>
           time_max <- add_timedelta (replace_midnight old_start) DAY ;;
           Ok (replace_midnight old_start, time_max)
       | Raise (ValueError _) => Ok (now, end_)
       | Raise e => Raise e
       end
     else Ok (now, end_)) ;;
  let '(time_min, time_max) := window in
  events <~ lift (collect_events w time_min time_max ["user1"; "user2"] []) ;;
  let update_target (target : option (string * event)) : M string :=
    match target with
    | None => ret (no_match_message attendees)
    | Some (user_id, target_event) =>
        let event_id := ev_id target_event in
        _ <~ lift (get_user_service w user_id) ;;
        try_except
          (updated <~ update w user_id event_id target_event new_start new_end ;;
           link <~ lift (meet_link updated "No Google Meet link") ;;
           attendees <~ lift (emails (match r_attendees updated with
                                      | Some l => l | None => [] end)) ;;
           ret (rescheduled_message updated event_id link attendees))
          (fun e => ret ("Failed to reschedule event: " ++ str_exn e))
    end in
  if p_is_first parsed then
    if truthy old_time_str then
      match parse_old with
      | Ok old_start =>
          target <~ lift (find_first_on_date old_start events) ;;
          update_target target
      | Raise (ValueError _) =>
          ret "Failed to reschedule event: Could not parse old time for 'first meeting MAGICAL_STRING_FOR_TESTING_ONLY_DO_NOT_USE_IN_PRODUCTION' query."
      | Raise e => raise e
      end
    else
      ret "Failed to reschedule event: Please specify the date for 'first meeting' (e.g., 'tomorrow')."
  else update_target (find_target summary attendees events).

Definition reschedule_at (w : world) (query : string) (parsed : parsed_query)
  (time_str : string) : M string :=
  let now := now w in
  end_ <~ lift (add_timedelta now (7 * DAY)) ;;
  match (default <- add_timedelta now DAY ;;
         new_start <- dateutil_parse w time_str (Some default) ;;
         new_end <- add_timedelta new_start HOUR ;;
         Ok (new_start, new_end)) with
  | Raise (ValueError _) =>
      ret ("Failed to reschedule event: Could not parse new time '" ++ time_str
           ++ "'. Please use a format like 'Thursday at 5pm' or 'July 16th at 6pm'.")
  | Raise e => raise e
  | Ok (new_start, new_end) =>
      match re_search reschedule_id_pattern query with
      | Some m => reschedule_by_id w (group1 m) new_start new_end
      | None => reschedule_by_search w parsed now end_ new_start new_end
      end
  end.

Definition reschedule_body (w : world) (query : string) : M string :=
  parsed <~ lift (parse_user_query query) ;;
  match p_time parsed with
  | None | Some "" =>
      if contains "whenever I'm free" (lower query) then
        free_slot <~ lift (find_conflict_free_slot_tool w) ;;
        if contains "No free slot" free_slot
        then ret "Failed to reschedule event: No free slots available this week."
        else reschedule_at w query parsed
               (strip (replace "Suggested: " "" (before "to" free_slot)))
      else
        ret "Failed to reschedule event: No valid new time specified. Please provide a time like 'Thursday at 5pm'."
  | Some time_str => reschedule_at w query parsed time_str
  end.

Definition reschedule_meeting (w : world) (query : string)
  : list write * string :=
  match reschedule_body w query with
  | (ws, Ok s) => (ws, s)
  | (ws, Raise e) =>
      (ws, "Failed to reschedule event: " ++ str_exn e
           ++ ". Please check the event details or try again.")
  end.

(** ** Vocabulary of the statements *)

(** [pure m]: the computation applies no write. *)
Definition pure {A} (m : M A) : Prop := fst m = [].

(** [single P m]: the computation applies no write, or exactly one, which
    satisfies [P]. *)
Definition single (P : write -> Prop) {A} (m : M A) : Prop :=
  fst m = [] \/ exists wr, fst m = [wr] /\ P wr.

(** An inserted or updated event lasts one hour. *)
Definition one_hour (wr : write) : Prop :=
  match wr with
  | Insert _ body => ne_end body = ne_start body + HOUR
  | Update _ _ _ new_start new_end => new_end = new_start + HOUR
  | Delete _ _ => True
  end.

Definition is_insert (wr : write) : Prop :=
  match wr with Insert _ _ => True | _ => False end.
Definition is_update (wr : write) : Prop :=
  match wr with Update _ _ _ _ _ => True | _ => False end.
Definition is_delete (wr : write) : Prop :=
  match wr with Delete _ _ => True | _ => False end.

End Actions.

(** * The claims in the words of the specification, and sample inputs *)

Module Samples.
Import Str Re Parser DateTime Actions.
Open Scope string_scope.
Open Scope Z_scope.

(** The matcher as the specification words it: the first event that meets
    the primary criterion; when no event of the list meets it, the first
    event whose summary contains the address of an attendee. *)
Definition match_by_priority (summary : option string)
  (attendees : list string) (events : list (string * event))
  : option (string * event) :=
  match find (fun ue => matches_attendees_and_summary summary attendees (snd ue))
             events with
  | Some ue => Some ue
  | None => find (fun ue => summary_names_attendee attendees (snd ue)) events
  end.

(** An event qualifies for the scan of [reschedule_meeting] when it passes
    either test. *)
Definition qualifies (summary : option string) (attendees : list string)
  (ev : event) : bool :=
  matches_attendees_and_summary summary attendees ev
  || summary_names_attendee attendees ev.

(** C4 in the words of the specification, for the weekday of index [i]: the
    start is moved forward to the next occurrence of that weekday (one to six
    whole days ahead) and keeps its time of day. *)
Definition advanced_to_next (query : string) (start i : Z) : Prop :=
  exists days_ahead,
    1 <= days_ahead <= 6
    /\ day_of_week_correction query start = Ok (start + days_ahead * DAY)
    /\ weekday (start + days_ahead * DAY) = i.

(** 2025-07-18, a Friday, is day 739449 after 0001-01-01. *)
Definition friday : Z := 739449 * DAY.

(** Two events of one calendar, in chronological order: a note that quotes
    an address in its title, then a two-hour meeting with that address. *)
Definition note : event :=
  {| ev_id := "e1"; ev_summary := Some "Send agenda to a@x.com";
     ev_attendees := None;
     ev_start := Some (friday + 9 * HOUR);
     ev_end := Some (friday + 10 * HOUR) |}.

Definition meeting : event :=
  {| ev_id := "e2"; ev_summary := Some "Meeting";
     ev_attendees := Some [Some "a@x.com"];
     ev_start := Some (friday + 14 * HOUR);
     ev_end := Some (friday + 16 * HOUR) |}.

Definition plain_response : response :=
  {| r_htmlLink := Some "https://calendar.example/e";
     r_entryPoints := Some [Some "https://meet.example/abc"];
     r_attendees := Some [Some "a@x.com"] |}.

(** A response whose conference data lists no entry point. *)
Definition no_entry_point_response : response :=
  {| r_htmlLink := Some "https://calendar.example/e";
     r_entryPoints := Some [];
     r_attendees := Some [Some "a@x.com"] |}.

(** A world where it is Friday 08:00, every time text parses to Friday
    15:00, the calendar of ["user1"] holds [events], and every gateway call
    succeeds with the answer [r] to a write. *)
Definition world_with (events : list event) (r : response) : world :=
  {| now := friday + 8 * HOUR;
     dateutil_parse := fun _ _ => Ok (friday + 15 * HOUR);
     get_user_service := fun _ => Ok tt;
     events_list := fun uid _ _ =>
       if String.eqb uid "user1" then Ok events else Ok [];
     events_get := fun _ id =>
       match find (fun ev => String.eqb (ev_id ev) id) events with
       | Some ev => Ok ev
       | None => Raise (HttpError "Not Found")
       end;
     events_insert := fun _ _ => Ok r;
     events_update := fun _ _ _ _ _ => Ok r;
     events_delete := fun _ _ => Ok tt;
     find_conflict_free_slot_tool := Raise (TypeError "missing argument") |}.

Definition quiet_world : world := world_with [note; meeting] plain_response.

Definition lossy_world : world :=
  world_with [note; meeting] no_entry_point_response.

End Samples.

(** * What a match says about the matched text *)

Module ReSpec.
Import Str Re.
Open Scope string_scope.

(** The texts made of zero or more pieces that satisfy [P]. *)
Inductive repeated (P : string -> Prop) : string -> Prop :=
| repeated_nil : repeated P ""
| repeated_app (w1 w2 : string) :
    P w1 -> repeated P w2 -> repeated P (w1 ++ w2).

(** The texts a pattern can consume; the anchors [$] and [\b] consume
    nothing. *)
Fixpoint lang (r : regex) (w : string) : Prop :=
  match r with
  | Eps | Eol | WordBoundary => w = ""
  | Chr p => exists a, w = String a "" /\ p a = true
  | Seq r1 r2 => exists w1 w2, w = w1 ++ w2 /\ lang r1 w1 /\ lang r2 w2
  | Alt r1 r2 => lang r1 w \/ lang r2 w
  | Star _ r1 => repeated (lang r1) w
  | Group _ r1 => lang r1 w
  end.

(** A group that takes part in every match of the pattern. *)
Fixpoint mandatory (name : string) (r : regex) : bool :=
  match r with
  | Eps | Chr _ | Eol | WordBoundary | Star _ _ => false
  | Seq r1 r2 => mandatory name r1 || mandatory name r2
  | Alt r1 r2 => mandatory name r1 && mandatory name r2
  | Group n r1 => String.eqb n name || mandatory name r1
  end.

(** The text [v] stands in the text [s]. *)
Definition part_of (v s : string) : Prop := exists a b, s = a ++ v ++ b.

(** The groups of [ext] cover the mandatory groups of [r]. *)
Definition covers (r : regex) (ext : captures) : Prop :=
  forall name, mandatory name r = true -> lookup name ext <> None.

(** The patterns of [parse_user_query] that have a group [attendees]: all
    but the last. *)
Definition attendee_patterns : list regex :=
  [ Parser.create_pattern; Parser.reschedule_pattern; Parser.cancel_pattern;
    Parser.generic_pattern ].

(** The addresses of the static table. *)
Definition table_addresses : list string := map snd Parser.email_mapping.

End ReSpec.

(** * Where a write comes from *)

Module ActionsSpec.
Import Str Re Actions.
Open Scope string_scope.

(** An update of [reschedule_meeting] rewrites an event the gateway gave.
    When the query spells an id ("ID: <id>"), it is the event fetched under
    that id from the calendar of ["user1"]; when it spells none, it is an
    event listed for the user whose calendar is updated, under its own id. *)
Definition updates_what_was_read (w : world) (query : string) (wr : write)
  : Prop :=
  match wr with
  | Update user event_id ev _ _ =>
      (exists m, re_search reschedule_id_pattern query = Some m
                 /\ event_id = group1 m
                 /\ user = "user1"
                 /\ events_get w "user1" event_id = Ok ev)
      \/ (re_search reschedule_id_pattern query = None
          /\ event_id = ev_id ev
          /\ (user = "user1" \/ user = "user2")
          /\ exists time_min time_max items,
               events_list w user time_min time_max = Ok items /\ In ev items)
  | _ => False
  end.

(** The events of [events] are timed and none starts on the date of
    [old_start]. *)
Definition off_date (old_start : Z) (events : list (string * event)) : Prop :=
  Forall (fun ue => exists t, ev_start (snd ue) = Some t
                              /\ DateTime.date t <> DateTime.date old_start)
         events.

(** What the listing of the calendar of [uid] adds to the events collected:
    its events tagged with [uid], nothing when the listing fails. *)
Definition listed (w : world) (time_min time_max : Z) (uid : string)
  : list (string * event) :=
  match events_list w uid time_min time_max with
  | Ok items => map (pair uid) items
  | Raise _ => []
  end.

End ActionsSpec.

(** * The listings of events *)

Module Listing.
Import Str Actions.
Open Scope string_scope.

(** An event as the listings read it: [start.dateTime] is the text the
    gateway gives, absent for an all-day event. *)
Record listed_event : Type := mk_listed {
  le_id : string;
  le_summary : option string;
  le_dateTime : option string;
  le_attendees : option (list (option string))
}.

(** What the gateway gives for one user: [get_user_service] may raise, the
    [list] call may raise, or the events come back. *)
Inductive listing : Type :=
| NoService (e : exn)
| ListFailed (e : exn)
| Listed (events : list listed_event).

(** ["\n"] *)
Definition nl : string := String (ascii_of_N 10) "".

(** ** [get_multi_user_events] of [src/api_modified_new.py] *)

(** [[attendee.get('email', 'Unknown') for attendee in e.get('attendees', [])]] *)
Definition attendee_list (e : listed_event) : list string :=
  map (fun a => get_or a "Unknown")
      (match le_attendees e with Some l => l | None => [] end).

(** The line of one event:
    [f"[{uid}] {e['start'].get('dateTime')} - {e.get('summary','No Title')}
    (ID: {e['id']}, Attendees: {', '.join(attendee_list) if attendee_list else 'None'})"] *)
Definition event_line (uid : string) (e : listed_event) : string :=
  "[" ++ uid ++ "] " ++ get_or (le_dateTime e) "None" ++ " - "
    ++ get_or (le_summary e) "No Title" ++ " (ID: " ++ le_id e
    ++ ", Attendees: "
    ++ match attendee_list e with
       | [] => "None"
       | l => join ", " l
       end
    ++ ")".

(** The loop over the users, each with the answer of the gateway:
    [get_user_service] is called outside the [try] and the function has no
    other handler; a failing [list] call is logged and skipped. *)
Fixpoint multi_user_lines (calendars : list (string * listing))
  (lines : list string) : result (list string) :=
  match calendars with
  | [] => Ok lines
  | (_, NoService e) :: _ => Raise e
  | (_, ListFailed _) :: rest => multi_user_lines rest lines
  | (uid, Listed events) :: rest =>
      multi_user_lines rest (lines ++ map (event_line uid) events)
  end.

(** [calendars] pairs ["user1"] and ["user2"] with their answers. *)
Definition get_multi_user_events (calendars : list (string * listing))
  : result string :=
  lines <- multi_user_lines calendars [] ;;
  Ok (join nl lines).

(** ** [get_combined_events] of [src/langchain_scheduler.py] *)

(** The tuple [(user_id, start, summary)] of one event, with
    [start = e['start'].get('dateTime', '')] and
    [summary = e.get('summary', '')]. *)
Definition entry : Type := (string * string * string)%type.

Definition start_of (x : entry) : string := snd (fst x).

Definition entry_of (user_id : string) (e : listed_event) : entry :=
  (user_id, get_or (le_dateTime e) "", get_or (le_summary e) "").

(** Nothing is caught: the first exception leaves the function. *)
Fixpoint combined_entries (calendars : list (string * listing))
  (all_events : list entry) : result (list entry) :=
  match calendars with
  | [] => Ok all_events
  | (_, NoService e) :: _ | (_, ListFailed e) :: _ => Raise e
  | (user_id, Listed events) :: rest =>
      combined_entries rest (all_events ++ map (entry_of user_id) events)
  end.

(** [all_events.sort(key=lambda x: x[1])]: a stable sort on the start text,
    compared as Python compares strings, character by character. *)
Fixpoint insert_entry (x : entry) (l : list entry) : list entry :=
  match l with
  | [] => [x]
  | y :: l' =>
      if String.leb (start_of x) (start_of y) then x :: l
      else y :: insert_entry x l'
  end.

Definition sort_entries (l : list entry) : list entry :=
  fold_right insert_entry [] l.

(** [f"[{u}] {s} - {t}"] *)
Definition entry_line (x : entry) : string :=
  let '(u, s, t) := x in "[" ++ u ++ "] " ++ s ++ " - " ++ t.

(** [text or 'No events found.'] *)
Definition or_default (text default : string) : string :=
  if String.eqb text "" then default else text.

Definition get_combined_events (calendars : list (string * listing))
  : result string :=
  all_events <- combined_entries calendars [] ;;
  Ok (or_default (join nl (map entry_line (sort_entries all_events)))
        "No events found.").

(** The events the gateway listed, in the order of the users. *)
Fixpoint listed_entries (calendars : list (string * listing)) : list entry :=
  match calendars with
  | [] => []
  | (user_id, Listed events) :: rest =>
      (map (entry_of user_id) events ++ listed_entries rest)%list
  | _ :: rest => listed_entries rest
  end.

End Listing.

(** * The agent workflow: [router] and [agent_node] *)

Module Agent.
Import Str.
Open Scope string_scope.

(** The messages of the conversation; [tool_calls] holds the ids of the
    calls an AI message asks for. *)
Inductive message : Type :=
| HumanMessage (content : string)
| AIMessage (content : string) (tool_calls : list string)
| ToolMessage (content : string) (tool_call_id : string)
| OtherMessage (content : string).

(** The dictionary [AgentState]; a key that is missing or holds [None] is
    [None] here, and [messages] is [state.get("messages", [])]. *)
Record agent_state : Type := mk_state {
  user_input : option string;
  messages : list message;
  output : option string;
  last_suggested_slot : option (Z * Z);
  last_summary : option string
}.

Inductive next : Type := ToAgent | ToTool | ToEnd.

(** [messages[-1]] of a non-empty list *)
Fixpoint last_message (l : list message) : option message :=
  match l with
  | [] => None
  | [m] => Some m
  | _ :: l' => last_message l'
  end.

(** [x] is a non-empty string. *)
Definition truthy (x : option string) : bool :=
  match x with
  | Some s => negb (String.eqb s "")
  | None => false
  end.

(** [isinstance(msg, ToolMessage) and msg.tool_call_id in tool_call_ids] *)
Definition answers (tool_call_ids : list string) (msg : message) : bool :=
  match msg with
  | ToolMessage _ id => existsb (String.eqb id) tool_call_ids
  | _ => false
  end.

(** The value under ["next"] of what [router] returns. *)
Definition router (state : agent_state) : next :=
  match last_message (messages state) with
  | None => ToAgent
  | Some last_msg =>
      match last_msg with
      | AIMessage _ [] => if truthy (output state) then ToEnd else ToAgent
      | AIMessage _ tool_calls =>
          if existsb (answers tool_calls) (rev (messages state))
          then ToAgent else ToTool
      | _ => ToAgent
      end
  end.

(** What [react_agent.invoke] returns: a dictionary with ["messages"], or
    anything else, of which [str(result)] is kept. *)
Inductive invoked : Type :=
| WithMessages (l : list message)
| Other (str : string).

Definition is_human_with (content : string) (m : option message) : bool :=
  match m with
  | Some (HumanMessage c) => String.eqb c content
  | _ => false
  end.

(** [agent_node], given what [react_agent.invoke] answers to a list of
    messages; an exception of [invoke] is raised again. *)
Definition agent_node (invoke : list message -> result invoked)
  (state : agent_state) : result agent_state :=
  let input := match user_input state with Some s => s | None => "" end in
  let messages :=
    if String.eqb input "" then messages state
    else if is_human_with input (last_message (messages state))
         then messages state
         else (messages state ++ [HumanMessage input])%list in
  match messages with
  | [] => Ok state
  | _ =>
      answer <- invoke messages ;;
      let messages :=
        match answer with
        | WithMessages l => (messages ++ l)%list
        | Other str => (messages ++ [AIMessage str []])%list
        end in
      let output :=
        match last_message messages with
        | Some (AIMessage content []) => content
        | _ => ""
        end in
      Ok {| user_input := None; messages := messages; output := Some output;
            last_suggested_slot := last_suggested_slot state;
            last_summary := last_summary state |}
  end.

End Agent.

(** * Theorems *)

(** ** The free/busy sweep *)

Module FreeBusyFacts.
Import FreeBusy.

Lemma fold_sweep_step (m end_ : Z) (busy : list interval) (st : sweep_state) :
  let st' := fold_left (sweep_step m) busy st in
  (if m <=? end_ - pointer st' then free st' ++ [(pointer st', end_)] else free st')
  = free st ++ emitted m (pointer st) end_ busy.
Proof.
  revert st. induction busy as [|[s e] rest IH]; intros st; simpl.
  - destruct (m <=? end_ - pointer st); [reflexivity | now rewrite app_nil_r].
  - rewrite IH. simpl.
    destruct (m <=? s - pointer st); simpl; [now rewrite <- app_assoc | reflexivity].
Qed.

Lemma sweep_emitted (m now end_ : Z) (busy : list interval) :
  sweep m now end_ busy = emitted m now end_ busy.
Proof.
  unfold sweep, sweep_loop. now rewrite fold_sweep_step.
Qed.

Lemma pointer_fold_le (m : Z) (busy : list interval) (st : sweep_state) :
  pointer st <= pointer (fold_left (sweep_step m) busy st).
Proof.
  revert st. induction busy as [|[s e] rest IH]; intros st; simpl; [lia|].
  etransitivity; [|apply IH]. simpl. lia.
Qed.

Lemma emitted_start (m p end_ : Z) (busy : list interval) (f : interval) :
  In f (emitted m p end_ busy) -> p <= fst f.
Proof.
  revert p. induction busy as [|[s e] rest IH]; intros p; simpl.
  - destruct (m <=? end_ - p); simpl; [|tauto].
    intros [<-|[]]; simpl; lia.
  - rewrite in_app_iff. intros [H|H].
    + destruct (m <=? s - p); simpl in H; [|tauto].
      destruct H as [<-|[]]; simpl; lia.
    + apply IH in H. lia.
Qed.

Lemma emitted_duration (m p end_ : Z) (busy : list interval) (f : interval) :
  In f (emitted m p end_ busy) -> m <= duration f.
Proof.
  revert p. induction busy as [|[s e] rest IH]; intros p; simpl.
  - destruct (m <=? end_ - p) eqn:E; simpl; [|tauto].
    intros [<-|[]]. unfold duration; simpl. lia.
  - rewrite in_app_iff. intros [H|H]; [|now apply IH in H].
    destruct (m <=? s - p) eqn:E; simpl in H; [|tauto].
    destruct H as [<-|[]]. unfold duration; simpl. lia.
Qed.

Lemma emitted_end (m p end_ : Z) (busy : list interval) (f : interval) :
  Forall (fun b => fst b <= end_) busy ->
  In f (emitted m p end_ busy) -> snd f <= end_.
Proof.
  revert p. induction busy as [|[s e] rest IH]; intros p Hb; simpl.
  - destruct (m <=? end_ - p); simpl; [|tauto].
    intros [<-|[]]; simpl; lia.
  - inversion Hb as [|? ? Hs Hrest]; subst. simpl in Hs.
    rewrite in_app_iff. intros [H|H]; [|now apply IH in H].
    destruct (m <=? s - p); simpl in H; [|tauto].
    destruct H as [<-|[]]; simpl; lia.
Qed.

Lemma start_le_trans : Relations_1.Transitive (fun a b : interval => fst a <= fst b).
Proof. intros a b c; lia. Qed.

Lemma sorted_by_start_inv (b : interval) (rest : list interval) :
  sorted_by_start (b :: rest) ->
  sorted_by_start rest /\ Forall (fun c => fst b <= fst c) rest.
Proof.
  intros H. apply (Sorted_StronglySorted start_le_trans) in H.
  apply StronglySorted_inv in H as [H1 H2].
  split; [now apply StronglySorted_Sorted | exact H2].
Qed.

(** No slot appended from a pointer [p] on meets a busy interval still to be
    scanned, nor any interval that ends at or before [p]. *)
Lemma emitted_no_overlap (m end_ : Z) (busy : list interval) :
  sorted_by_start busy ->
  forall p f b, In f (emitted m p end_ busy) -> In b busy -> ~ overlap f b.
Proof.
  induction busy as [|[s e] rest IH]; intros Hs p f b Hf Hb; [destruct Hb|].
  apply sorted_by_start_inv in Hs as [Hs Hall]. simpl in Hall.
  simpl in Hf. rewrite in_app_iff in Hf.
  intros (t & [Hf1 Hf2] & [Hb1 Hb2]).
  destruct Hf as [Hf|Hf].
  - destruct (m <=? s - p); simpl in Hf; [|tauto].
    destruct Hf as [<-|[]]. simpl in *.
    destruct Hb as [<-|Hb]; simpl in *; [lia|].
    rewrite Forall_forall in Hall. specialize (Hall _ Hb). lia.
  - destruct Hb as [<-|Hb]; simpl in *.
    + apply emitted_start in Hf. lia.
    + apply (IH Hs _ _ _ Hf Hb). exists t. unfold inside. lia.
Qed.

(** C3: for a busy list sorted by start, overlapping and nested intervals
    included, the pointer of the sweep never decreases during the scan (its
    value after a prefix of the scan is at most its value after any longer
    prefix, and never below [now]), and no free slot the sweep emits overlaps
    a busy interval. *)
Theorem sweep_pointer_monotone_no_overlap
  (min_duration now end_ : Z) (busy : list interval) :
  sorted_by_start busy ->
  (forall pre post, busy = pre ++ post ->
     now <= pointer (sweep_loop min_duration now pre)
     /\ pointer (sweep_loop min_duration now pre)
        <= pointer (sweep_loop min_duration now busy))
  /\ (forall f b, In f (sweep min_duration now end_ busy) -> In b busy ->
        ~ overlap f b).
Proof.
  intros Hs. split.
  - intros pre post ->. unfold sweep_loop. split.
    + apply (pointer_fold_le min_duration pre (mk_state now [])).
    + rewrite fold_left_app. apply pointer_fold_le.
  - intros f b Hf Hb. rewrite sweep_emitted in Hf.
    exact (emitted_no_overlap min_duration end_ busy Hs now f b Hf Hb).
Qed.

Lemma sweep_pointer_monotone_no_overlap_witness :
  let busy := [(0, 10 * HOUR); (2 * HOUR, 3 * HOUR); (2 * HOUR, 12 * HOUR)] in
  sorted_by_start busy
  /\ pointer (sweep_loop HOUR 0 [(0, 10 * HOUR); (2 * HOUR, 3 * HOUR)])
     <= pointer (sweep_loop HOUR 0 busy)
  /\ (forall f b, In f (sweep HOUR 0 (7 * DAY) busy) -> In b busy -> ~ overlap f b).
Proof.
  assert (Hs : sorted_by_start
                 [(0, 10 * HOUR); (2 * HOUR, 3 * HOUR); (2 * HOUR, 12 * HOUR)]).
  { repeat constructor; simpl; vm_compute; discriminate. }
  split; [exact Hs|]. split.
  - apply (proj1 (sweep_pointer_monotone_no_overlap HOUR 0 (7 * DAY) _ Hs)
             [(0, 10 * HOUR); (2 * HOUR, 3 * HOUR)] [(2 * HOUR, 12 * HOUR)] eq_refl).
  - apply (proj2 (sweep_pointer_monotone_no_overlap HOUR 0 (7 * DAY) _ Hs)).
Defined.

(** *** Sorted, pairwise disjoint busy lists *)

Lemma chain_of_hypotheses (now end_ : Z) (busy : list interval) :
  sorted_by_start busy -> well_formed busy -> non_overlapping busy ->
  within now end_ busy ->
  forall p, now <= p -> p <= end_ ->
  match busy with [] => True | b :: _ => p <= fst b end ->
  chain p busy end_.
Proof.
  induction busy as [|[s e] rest IH]; intros Hs Hw Hn Hi p Hp Hpe Hhd; simpl; [lia|].
  apply sorted_by_start_inv in Hs as [Hs Hall].
  inversion Hw as [|? ? Hse Hw']; subst.
  inversion Hn as [|? ? Hd Hn']; subst.
  inversion Hi as [|? ? [Hlo Hhi] Hi']; subst. simpl in *.
  repeat split; [lia | lia |].
  apply (IH Hs Hw' Hn' Hi'); [lia | lia |].
  destruct rest as [|[s' e'] rest']; [exact I|]. simpl.
  inversion Hall as [|? ? Hss _]; subst.
  inversion Hd as [|? ? Hov _]; subst.
  inversion Hw' as [|? ? Hse' _]; subst. simpl in *.
  destruct (Z_le_gt_dec e s') as [?|Hgt]; [assumption|].
  exfalso. apply Hov. exists s'. unfold inside; simpl. lia.
Qed.

Lemma chain_sort (p end_ : Z) (busy : list interval) :
  chain p busy end_ -> sort busy = busy.
Proof.
  revert p. induction busy as [|[s e] rest IH]; intros p H; [reflexivity|].
  destruct H as (_ & Hse & Hc). unfold sort in *. simpl.
  rewrite (IH _ Hc).
  destruct rest as [|[s' e'] rest']; [reflexivity|].
  destruct Hc as (Hes & _ & _). simpl. unfold tuple_le. simpl.
  replace (s <? s') with true by (symmetry; apply Z.ltb_lt; lia).
  reflexivity.
Qed.

Lemma chain_starts (p end_ : Z) (busy : list interval) :
  chain p busy end_ -> Forall (fun b => p <= fst b /\ snd b <= end_) busy.
Proof.
  revert p. induction busy as [|[s e] rest IH]; intros p H; [constructor|].
  destruct H as (Hps & Hse & Hc). specialize (IH _ Hc).
  assert (He : e <= end_).
  { destruct rest as [|[s' e'] r]; simpl in Hc; [lia|].
    inversion IH as [|? ? [_ H1] _]; subst; simpl in *. lia. }
  constructor; [simpl; lia|].
  eapply Forall_impl; [|exact IH]. simpl. intros b [? ?]. lia.
Qed.

Lemma emitted_complete (m end_ : Z) (busy : list interval) :
  forall p t, chain p busy end_ -> p <= t < end_ ->
  covered t busy \/ covered t (emitted m p end_ busy)
  \/ in_short_gap m p end_ busy t.
Proof.
  induction busy as [|[s e] rest IH]; intros p t Hc Ht; simpl.
  - right. destruct (m <=? end_ - p) eqn:E.
    + left. exists (p, end_). split; [now left | exact Ht].
    + right. exists p, end_. apply Z.leb_gt in E.
      split; [lia|]. split; [lia|]. split; now left.
  - destruct Hc as (Hps & Hse & Hc).
    destruct (Z_lt_ge_dec t s) as [Hts|Hts].
    { right. destruct (m <=? s - p) eqn:E.
      - left. exists (p, s). split; [now left | unfold inside; simpl; lia].
      - right. exists p, s. apply Z.leb_gt in E.
        split; [lia|]. split; [lia|]. split; [now left|].
        right. exists (s, e). split; [now left | reflexivity]. }
    destruct (Z_lt_ge_dec t e) as [Hte|Hte].
    { left. exists (s, e). split; [now left | unfold inside; simpl; lia]. }
    replace (Z.max p e) with e by lia.
    destruct (IH e t Hc ltac:(lia)) as [(b & Hb & Hin)|[(f & Hf & Hin)|Hgap]].
    + left. exists b. split; [now right | exact Hin].
    + right; left. exists f. split; [|exact Hin].
      apply in_or_app. now right.
    + right; right. destruct Hgap as (g & h & Hgh & Hshort & Hg & Hh).
      exists g, h. split; [lia|]. split; [lia|]. split.
      * right. destruct Hg as [->|(b & Hb & <-)].
        -- exists (s, e). split; [now left | reflexivity].
        -- exists b. split; [now right | reflexivity].
      * destruct Hh as [->|(b & Hb & <-)]; [now left|].
        right. exists b. split; [now right | reflexivity].
Qed.

(** C1, as the code has it: for a busy list sorted by start, pairwise
    non-overlapping and inside the window, every free slot of the sweep lasts
    at least the minimum duration, free slots and busy intervals stay inside
    the window, and every instant of the window is in a busy interval, in a
    free slot, or in a gap shorter than the minimum duration, which the sweep
    does not return. *)
Theorem free_slots_cover_window_up_to_short_gaps
  (min_duration now end_ : Z) (busy : list interval) :
  sorted_by_start busy -> well_formed busy -> non_overlapping busy ->
  within now end_ busy -> now <= end_ ->
  let free_list := free_slots min_duration now end_ busy in
  Forall (fun f => min_duration <= duration f) free_list
  /\ (forall t, covered t busy \/ covered t free_list -> now <= t < end_)
  /\ (forall t, now <= t < end_ ->
        covered t busy \/ covered t free_list
        \/ in_short_gap min_duration now end_ busy t).
Proof.
  intros Hs Hw Hn Hi Hle free_list.
  assert (Hc : chain now busy end_).
  { apply (chain_of_hypotheses now end_ busy Hs Hw Hn Hi); try lia.
    destruct busy as [|b r]; [exact I|].
    inversion Hi as [|? ? [H _] _]; subst; exact H. }
  assert (E : free_list = emitted min_duration now end_ busy).
  { unfold free_list, free_slots.
    rewrite (chain_sort _ _ _ Hc). apply sweep_emitted. }
  rewrite E. pose proof (chain_starts _ _ _ Hc) as Hb.
  rewrite Forall_forall in Hb. split; [|split].
  - apply Forall_forall. intros f Hf. now apply emitted_duration in Hf.
  - intros t [(b & Hin & Ht)|(f & Hf & Ht)]; unfold inside in Ht.
    + specialize (Hb _ Hin). lia.
    + pose proof (emitted_start _ _ _ _ _ Hf).
      assert (snd f <= end_); [|lia].
      apply (emitted_end min_duration now end_ busy f); [|exact Hf].
      apply Forall_forall. intros b Hin.
      specialize (Hb _ Hin). unfold well_formed in Hw.
      rewrite Forall_forall in Hw.
      specialize (Hw _ Hin). simpl in Hw. lia.
  - intros t Ht. now apply emitted_complete.
Qed.

Lemma half_hour_busy_hypotheses :
  let busy := [(30 * MINUTE, 60 * MINUTE)] in
  sorted_by_start busy /\ well_formed busy /\ non_overlapping busy
  /\ within 0 (7 * DAY) busy.
Proof.
  repeat split; repeat constructor; simpl; vm_compute; discriminate.
Qed.

Lemma free_slots_cover_window_up_to_short_gaps_witness :
  let busy := [(30 * MINUTE, 60 * MINUTE)] in
  let free_list := free_slots HOUR 0 (7 * DAY) busy in
  Forall (fun f => HOUR <= duration f) free_list
  /\ (forall t, covered t busy \/ covered t free_list -> 0 <= t < 7 * DAY)
  /\ (forall t, 0 <= t < 7 * DAY ->
        covered t busy \/ covered t free_list
        \/ in_short_gap HOUR 0 (7 * DAY) busy t).
Proof.
  destruct half_hour_busy_hypotheses as (H1 & H2 & H3 & H4).
  apply (free_slots_cover_window_up_to_short_gaps HOUR 0 (7 * DAY) _ H1 H2 H3 H4).
  vm_compute; discriminate.
Defined.

(** C1 as stated fails: with the single busy interval from minute 30 to
    minute 60 of a seven-day window and the default minimum of one hour, the
    list is sorted, non-overlapping and inside the window, but the instant 0
    of the window is in no busy interval and in no returned free slot. *)
Lemma free_slots_span_window_counterexample :
  let busy := [(30 * MINUTE, 60 * MINUTE)] in
  sorted_by_start busy /\ well_formed busy /\ non_overlapping busy
  /\ within 0 (7 * DAY) busy
  /\ ~ spans_window HOUR 0 (7 * DAY) busy.
Proof.
  destruct half_hour_busy_hypotheses as (H1 & H2 & H3 & H4).
  repeat split; try assumption.
  intros H. destruct (proj1 (H 0)) as [(b & Hin & Hb)|(f & Hin & Hf)].
  - vm_compute; split; [discriminate | reflexivity].
  - destruct Hin as [<-|[]]. revert Hb. unfold inside. vm_compute.
    intros [Hb _]. now apply Hb.
  - vm_compute in Hin. destruct Hin as [<-|[]]. revert Hf. unfold inside.
    vm_compute. intros [Hf _]. now apply Hf.
Qed.

(** *** The sort before the sweep *)

Lemma tuple_le_start (x y : interval) :
  (tuple_le x y = true -> fst x <= fst y)
  /\ (tuple_le x y = false -> fst y <= fst x).
Proof.
  unfold tuple_le. split; intros H.
  - apply orb_true_iff in H as [H|H]; [apply Z.ltb_lt in H; lia|].
    apply andb_true_iff in H as [H _]. apply Z.eqb_eq in H. lia.
  - apply orb_false_iff in H as [H _]. apply Z.ltb_ge in H. exact H.
Qed.

Lemma insert_in (x y : interval) (l : list interval) :
  In y (insert x l) <-> y = x \/ In y l.
Proof.
  induction l as [|z l IH]; simpl; [intuition congruence|].
  destruct (tuple_le x z); simpl; [intuition congruence|].
  rewrite IH. intuition congruence.
Qed.

Lemma sort_in (y : interval) (l : list interval) : In y (sort l) <-> In y l.
Proof.
  unfold sort. induction l as [|x l IH]; simpl; [tauto|].
  rewrite insert_in, IH. intuition congruence.
Qed.

Lemma insert_sorted (x : interval) (l : list interval) :
  StronglySorted (fun a b => fst a <= fst b) l ->
  StronglySorted (fun a b => fst a <= fst b) (insert x l).
Proof.
  induction 1 as [|z l Hs IH Hall]; simpl; [repeat constructor|].
  destruct (tuple_le x z) eqn:E.
  - apply tuple_le_start in E. constructor; [now constructor|].
    constructor; [exact E|].
    eapply Forall_impl; [|exact Hall]. simpl. intros b Hb. lia.
  - apply tuple_le_start in E. constructor; [exact IH|].
    apply Forall_forall. intros b Hb. apply insert_in in Hb as [->|Hb];
      [exact E|].
    rewrite Forall_forall in Hall. now apply Hall.
Qed.

Lemma sort_sorted_by_start (l : list interval) : sorted_by_start (sort l).
Proof.
  apply StronglySorted_Sorted. unfold sort.
  induction l as [|x l IH]; simpl; [constructor | now apply insert_sorted].
Qed.

(** With the sort of the code in front of it, the sweep needs no hypothesis:
    for any busy list, no free slot overlaps a busy interval. *)
Lemma free_slots_no_overlap (m now end_ : Z) (busy : list interval)
  (f b : interval) :
  In f (free_slots m now end_ busy) -> In b busy -> ~ overlap f b.
Proof.
  unfold free_slots. rewrite sweep_emitted. intros Hf Hb.
  apply (emitted_no_overlap m end_ (sort busy) (sort_sorted_by_start busy)
           now f b Hf).
  now apply sort_in.
Qed.

(** *** The reported slot *)

(** For a slot and a busy interval that both last some time, to be clear of
    one another is not to overlap. *)
Lemma clear_of_iff_no_overlap (g iv : interval) :
  fst g < snd g -> fst iv < snd iv -> (clear_of g iv <-> ~ overlap g iv).
Proof.
  unfold clear_of, overlap, inside. intros Hg Hiv. split.
  - intros H (t & H1 & H2). lia.
  - intros H.
    destruct (Z_le_gt_dec (snd iv) (fst g)) as [H1|H1]; [now left|].
    destruct (Z_le_gt_dec (snd g) (fst iv)) as [H2|H2]; [now right|].
    exfalso. apply H. exists (Z.max (fst g) (fst iv)). lia.
Qed.







(** The slot reported for the sample above: the first two hours. *)
Lemma find_conflict_free_slot_sample :
  find_conflict_free_slot 0
    [Listed [mk_cal_event (Some (2 * HOUR)) (Some (3 * HOUR))]; Listed []]
  = Ok (Suggested 0 (2 * HOUR)).
Proof. vm_compute; reflexivity. Qed.

End FreeBusyFacts.

(** ** The intent parser *)

Module ParserFacts.
Import Str Re Parser.
Open Scope string_scope.

(** C5, as the code has it: the attendee text "Akash and eliana@x.com"
    resolves to the single address [eliana@x.com], taken verbatim by the
    e-mail branch; the name "Akash" is dropped, since the static table is
    consulted only when the text holds no address.  The same holds when the
    text comes from a whole create query. *)
Theorem resolve_mixed_text_is_email_only :
  resolve (Text "Akash and eliana@x.com") = Ok ["eliana@x.com"]
  /\ parse_user_query "create a meeting with Akash and eliana@x.com at 5pm"
     = Ok {| p_summary := "Meeting"; p_time := Some "5pm"; p_old_time := None;
             p_attendees := ["eliana@x.com"]; p_is_first := false |}.
Proof. split; vm_compute; reflexivity. Qed.

(** C5 as stated fails: the text does not resolve to two attendees, and the
    address of the static table for "Akash" is not among the result. *)
Lemma resolve_mixed_text_counterexample :
  ~ (exists l, resolve (Text "Akash and eliana@x.com") = Ok l
               /\ List.length l = 2%nat
               /\ In "akashmehta556@gmail.com" l /\ In "eliana@x.com" l).
Proof.
  intros (l & E & Hlen & _).
  vm_compute in E. injection E as <-. discriminate Hlen.
Qed.

(** Without an address in the text, the names go through the static table. *)
Lemma resolve_names :
  resolve (Text "Akash and Eliana")
  = Ok ["akashmehta556@gmail.com"; "eliana@gocadre.ai"].
Proof. vm_compute; reflexivity. Qed.

Lemma is_first_set_is_first (d : query_dict) : is_first (set_is_first d) = true.
Proof. reflexivity. Qed.

Lemma first_match_none (ps : list regex) (query : string) :
  first_match ps query = None ->
  forall p, In p ps -> re_match p query = None.
Proof.
  induction ps as [|p0 ps IH]; intros H p Hin; [destruct Hin|].
  simpl in H. destruct (re_match p0 query) eqn:E; [discriminate|].
  destruct Hin as [<-|Hin]; [exact E | now apply IH].
Qed.

(** The flag of the parsed query is the flag of the dictionary. *)
Lemma parse_user_query_is_first (query : string) (p : parsed_query) :
  parse_user_query query = Ok p -> p_is_first p = is_first (apply_patterns query).
Proof.
  unfold parse_user_query.
  destruct (resolve (attendees (apply_patterns query))) as [l|e]; simpl;
    [|discriminate].
  intros E. injection E as <-. reflexivity.
Qed.

(** C6, as the code has it: for every query that contains "first" in any
    letter case and that one of the patterns matches, the dictionary after
    the pattern loop has [is_first] true, and so has the parsed query
    whenever [parse_user_query] returns one. *)
Theorem is_first_forced_when_a_pattern_matches (query : string) :
  contains "first" (lower query) = true ->
  (exists pattern, In pattern patterns /\ re_match pattern query <> None) ->
  is_first (apply_patterns query) = true
  /\ forall p, parse_user_query query = Ok p -> p_is_first p = true.
Proof.
  intros Hfirst (pattern & Hin & Hmatch).
  assert (H : is_first (apply_patterns query) = true).
  { unfold apply_patterns.
    destruct (first_match patterns query) as [[p m]|] eqn:E.
    - rewrite Hfirst. apply is_first_set_is_first.
    - elim Hmatch. exact (first_match_none _ _ E _ Hin). }
  split; [exact H|].
  intros p Hp. now rewrite (parse_user_query_is_first _ _ Hp).
Qed.

Lemma is_first_forced_when_a_pattern_matches_witness :
  let query := "reschedule first meeting with akash tomorrow to 5pm" in
  is_first (apply_patterns query) = true
  /\ parse_user_query query
     = Ok {| p_summary := "Meeting"; p_time := Some "5pm";
             p_old_time := Some "tomorrow";
             p_attendees := ["akashmehta556@gmail.com"]; p_is_first := true |}.
Proof.
  split.
  - apply (is_first_forced_when_a_pattern_matches
             "reschedule first meeting with akash tomorrow to 5pm").
    + vm_compute; reflexivity.
    + exists reschedule_pattern. split; [simpl; tauto|].
      vm_compute; discriminate.
  - vm_compute; reflexivity.
Defined.

(** C6 as stated fails: the query "first" contains the word and is matched
    by no pattern; the dictionary keeps [is_first] false, and no parsed query
    with the flag set comes out of [parse_user_query]. *)
Lemma is_first_without_match_counterexample :
  contains "first" (lower "first") = true
  /\ first_match patterns "first" = None
  /\ is_first (apply_patterns "first") = false
  /\ ~ (exists p, parse_user_query "first" = Ok p /\ p_is_first p = true).
Proof.
  repeat split; try (vm_compute; reflexivity).
  intros (p & E & _). vm_compute in E. discriminate E.
Qed.

(** When no pattern matches, the value under ["attendees"] is still the list
    of the initial dictionary, and [re.findall] refuses it. *)
Lemma parse_user_query_without_match (query : string) :
  first_match patterns query = None ->
  parse_user_query query
  = Raise (TypeError "expected string or bytes-like object, got 'list'").
Proof.
  intros H. unfold parse_user_query, apply_patterns. now rewrite H.
Qed.

End ParserFacts.

(** ** The event matcher *)

Module MatcherFacts.
Import Str Re Parser DateTime Actions Samples.
Open Scope string_scope.
Open Scope Z_scope.

(** C2, as the code has it: the scan of [reschedule_meeting] returns the
    first event, in the order of the list, that meets the primary criterion
    (its attendee addresses include every attendee of the intent and its
    summary equals the intent's, letter case aside, when the intent has one)
    or whose summary contains the address of an attendee of the intent; both
    tests are made on each event in turn, so every event before the returned
    one fails both, and no event is returned exactly when every event fails
    both. *)
Theorem find_target_first_qualifying
  (summary : option string) (attendees : list string)
  (events : list (string * event)) :
  match find_target summary attendees events with
  | Some ue =>
      exists before after,
        events = (before ++ ue :: after)%list
        /\ qualifies summary attendees (snd ue) = true
        /\ forall ue', In ue' before ->
             qualifies summary attendees (snd ue') = false
  | None =>
      forall ue, In ue events -> qualifies summary attendees (snd ue) = false
  end.
Proof.
  induction events as [|[uid ev] rest IH]; simpl.
  - intros ue [].
  - destruct (matches_attendees_and_summary summary attendees ev) eqn:E1.
    { exists [], rest. unfold qualifies. simpl. rewrite E1.
      repeat split. intros ue' []. }
    destruct (summary_names_attendee attendees ev) eqn:E2.
    { exists [], rest. unfold qualifies. simpl. rewrite E1, E2.
      repeat split. intros ue' []. }
    destruct (find_target summary attendees rest) as [ue|].
    + destruct IH as (before & after & -> & Hq & Hbefore).
      exists ((uid, ev) :: before), after. repeat split; [exact Hq|].
      intros ue' [<-|Hin]; [|now apply Hbefore].
      unfold qualifies. simpl. now rewrite E1, E2.
    + intros ue [<-|Hin]; [|now apply IH].
      unfold qualifies. simpl. now rewrite E1, E2.
Qed.

(** When two events qualify, the earlier of the list is the one returned. *)
Lemma find_target_earlier_wins
  (summary : option string) (attendees : list string)
  (before between after : list (string * event)) (ue1 ue2 : string * event) :
  (forall ue, In ue before -> qualifies summary attendees (snd ue) = false) ->
  qualifies summary attendees (snd ue1) = true ->
  find_target summary attendees (before ++ ue1 :: between ++ ue2 :: after)
  = Some ue1.
Proof.
  intros Hb H1. induction before as [|[uid ev] before IH]; simpl.
  - destruct ue1 as [uid ev]. unfold qualifies in H1. simpl in H1.
    destruct (matches_attendees_and_summary summary attendees ev);
      [reflexivity|].
    simpl in H1. now rewrite H1.
  - pose proof (Hb (uid, ev) (or_introl eq_refl)) as H.
    unfold qualifies in H. simpl in H. apply orb_false_iff in H as [-> ->].
    apply IH. intros ue Hin. apply Hb. now right.
Qed.

(** C2 as stated fails: the note quotes the address in its title and comes
    first; the meeting after it is the only event that meets the primary
    criterion, yet the scan returns the note. *)
Lemma find_target_priority_counterexample :
  let events := [("user1", note); ("user1", meeting)] in
  matches_attendees_and_summary (Some "Meeting") ["a@x.com"] note = false
  /\ matches_attendees_and_summary (Some "Meeting") ["a@x.com"] meeting = true
  /\ match_by_priority (Some "Meeting") ["a@x.com"] events
     = Some ("user1", meeting)
  /\ find_target (Some "Meeting") ["a@x.com"] events = Some ("user1", note)
  /\ find_target (Some "Meeting") ["a@x.com"] events
     <> match_by_priority (Some "Meeting") ["a@x.com"] events.
Proof.
  repeat split; try (vm_compute; reflexivity).
  vm_compute. discriminate.
Qed.

(** The same through [reschedule_meeting]: asked to move the meeting with
    [a@x.com], it rewrites the note. *)
Lemma reschedule_meeting_rewrites_note :
  fst (reschedule_meeting quiet_world "reschedule meeting with a@x.com to 5pm")
  = [Update "user1" "e1" note (friday + 15 * HOUR) (friday + 16 * HOUR)].
Proof. vm_compute; reflexivity. Qed.

End MatcherFacts.

(** ** The day-of-week correction *)

Module DateTimeFacts.
Import Str DateTime.
Open Scope string_scope.
Open Scope Z_scope.

(** The start after one adjustment to the weekday [i]. *)
Lemma correct_day_adjusts (ql day : string) (start i : Z) :
  contains day ql = true -> weekday start <> i -> 0 <= i < 7 ->
  0 <= start -> start + 6 * DAY < MAX ->
  let days_ahead := (i - weekday start + 7) mod 7 in
  correct_day ql start (i, day)
  = Ok (replace_second_microsecond (start + days_ahead * DAY))
  /\ 1 <= days_ahead <= 6.
Proof.
  intros Hc Hw Hi H0 Hmax days_ahead.
  assert (Hwd : 0 <= weekday start < 7)
    by (unfold weekday; apply Z.mod_pos_bound; lia).
  assert (Hk : 1 <= days_ahead <= 6).
  { unfold days_ahead.
    destruct (Z.eq_dec ((i - weekday start + 7) mod 7) 0) as [E|E].
    - exfalso. apply Hw. revert E. generalize (weekday start) Hwd.
      intros wd Hwd' E.
      apply Z.mod_divide in E; [|lia]. destruct E as [c E]. lia.
    - pose proof (Z.mod_pos_bound (i - weekday start + 7) 7 ltac:(lia)). lia. }
  split; [|exact Hk].
  unfold correct_day. rewrite Hc.
  replace (weekday start =? i) with false by (symmetry; apply Z.eqb_neq; exact Hw).
  cbn [andb negb]. fold days_ahead.
  replace (days_ahead =? 0) with false by (symmetry; apply Z.eqb_neq; lia).
  unfold add_timedelta.
  assert (HD : 0 < DAY) by reflexivity.
  replace (0 <=? start + days_ahead * DAY) with true
    by (symmetry; apply Z.leb_le; nia).
  replace (start + days_ahead * DAY <? MAX) with true
    by (symmetry; apply Z.ltb_lt; nia).
  reflexivity.
Qed.

Lemma correct_day_skips (ql day : string) (start i : Z) :
  contains day ql = false -> correct_day ql start (i, day) = Ok start.
Proof. intros H. unfold correct_day. now rewrite H. Qed.

Lemma enumerate_day_names :
  enumerate day_names
  = [(0, "monday"); (1, "tuesday"); (2, "wednesday"); (3, "thursday");
     (4, "friday"); (5, "saturday"); (6, "sunday")].
Proof. reflexivity. Qed.

(** *** Arithmetic of an adjustment *)

Lemma DAY_minutes : DAY = MINUTE * 1440. Proof. reflexivity. Qed.
Lemma HOUR_minutes : HOUR = MINUTE * 60. Proof. reflexivity. Qed.
Lemma MINUTE_seconds : MINUTE = SECOND * 60. Proof. reflexivity. Qed.
Lemma MINUTE_pos : 0 < MINUTE. Proof. reflexivity. Qed.
Lemma SECOND_pos : 0 < SECOND. Proof. reflexivity. Qed.

(** Dropping the seconds does not change a quotient by whole minutes. *)
Lemma floor_minute_div (y n : Z) :
  0 < n -> replace_second_microsecond y / (MINUTE * n) = y / (MINUTE * n).
Proof.
  intros Hn. pose proof MINUTE_pos as Hm. unfold replace_second_microsecond.
  rewrite <- !Z.div_div by lia.
  f_equal. rewrite Z.mod_eq by lia.
  replace (y - (y - MINUTE * (y / MINUTE))) with ((y / MINUTE) * MINUTE) by lia.
  apply Z.div_mul. lia.
Qed.

Lemma floor_minute_multiple (y : Z) :
  replace_second_microsecond y = MINUTE * (y / MINUTE).
Proof.
  unfold replace_second_microsecond. rewrite Z.mod_eq; [lia|].
  pose proof MINUTE_pos; lia.
Qed.

Lemma adjusted_date (start k : Z) :
  date (replace_second_microsecond (start + k * DAY)) = date start + k.
Proof.
  unfold date. rewrite DAY_minutes, floor_minute_div by lia.
  rewrite <- DAY_minutes. apply Z.div_add. discriminate.
Qed.

Lemma adjusted_hour (start k : Z) :
  hour (replace_second_microsecond (start + k * DAY)) = hour start.
Proof.
  unfold hour. rewrite HOUR_minutes, floor_minute_div by lia.
  rewrite <- HOUR_minutes.
  replace (k * DAY) with (k * 24 * HOUR) by (unfold DAY; lia).
  rewrite Z.div_add by discriminate.
  apply Z.mod_add. discriminate.
Qed.

Lemma adjusted_minute (start k : Z) :
  minute (replace_second_microsecond (start + k * DAY)) = minute start.
Proof.
  pose proof (floor_minute_div (start + k * DAY) 1 ltac:(lia)) as E.
  rewrite Z.mul_1_r in E. unfold minute. rewrite E.
  replace (k * DAY) with (k * 24 * 60 * MINUTE) by (unfold DAY, HOUR; lia).
  rewrite Z.div_add by discriminate.
  apply Z.mod_add. discriminate.
Qed.

Lemma floored_second (y : Z) : second (replace_second_microsecond y) = 0.
Proof.
  unfold second. rewrite floor_minute_multiple, MINUTE_seconds.
  replace (SECOND * 60 * (y / (SECOND * 60)))
    with (60 * (y / (SECOND * 60)) * SECOND) by lia.
  rewrite Z.div_mul by discriminate.
  rewrite Z.mul_comm. apply Z.mod_mul. discriminate.
Qed.

Lemma floored_microsecond (y : Z) :
  microsecond (replace_second_microsecond y) = 0.
Proof.
  unfold microsecond. rewrite floor_minute_multiple, MINUTE_seconds.
  replace (SECOND * 60 * (y / (SECOND * 60)))
    with (60 * (y / (SECOND * 60)) * SECOND) by lia.
  apply Z.mod_mul. discriminate.
Qed.

Lemma weekday_of_date (dt : Z) : weekday dt = date dt mod 7.
Proof. reflexivity. Qed.

(** The weekday [i] is reached after [(i - weekday + 7) mod 7] days and on
    no day before. *)
Lemma next_occurrence (d i : Z) :
  0 <= i < 7 ->
  let k := (i - d mod 7 + 7) mod 7 in
  (d + k) mod 7 = i
  /\ forall d', d < d' < d + k -> d' mod 7 <> i.
Proof.
  intros Hi k. subst k.
  pose proof (Z.mod_pos_bound d 7 ltac:(lia)) as Hd.
  split.
  - pose proof (Z.mod_pos_bound (i - d mod 7 + 7) 7 ltac:(lia)) as Hk.
    pose proof (Z.div_mod d 7 ltac:(lia)) as E1.
    pose proof (Z.div_mod (i - d mod 7 + 7) 7 ltac:(lia)) as E3.
    pose proof (Z.div_mod (d + (i - d mod 7 + 7) mod 7) 7 ltac:(lia)) as E4.
    pose proof (Z.mod_pos_bound (d + (i - d mod 7 + 7) mod 7) 7 ltac:(lia)).
    lia.
  - intros d' Hd' E.
    pose proof (Z.mod_pos_bound (i - d mod 7 + 7) 7 ltac:(lia)) as Hk.
    pose proof (Z.div_mod d 7 ltac:(lia)) as E1.
    pose proof (Z.div_mod d' 7 ltac:(lia)) as E2.
    pose proof (Z.div_mod (i - d mod 7 + 7) 7 ltac:(lia)) as E3.
    rewrite E in E2. lia.
Qed.

(** One step of the loop leaves the start alone or moves it one to seven
    whole days ahead, dropping the seconds. *)
Lemma correct_day_forward (ql : string) (start : Z) (iday : Z * string)
  (start' : Z) :
  correct_day ql start iday = Ok start' ->
  start' = start
  \/ exists k, 1 <= k <= 7
               /\ start' = replace_second_microsecond (start + k * DAY).
Proof.
  destruct iday as [i day]. unfold correct_day.
  destruct (contains day ql && negb (weekday start =? i));
    [|intros [= <-]; now left].
  set (d := (i - weekday start + 7) mod 7).
  assert (Hd : 0 <= d < 7) by (apply Z.mod_pos_bound; lia).
  destruct (d =? 0) eqn:E.
  - destruct (add_timedelta start (7 * DAY)) as [y|] eqn:Ey; simpl;
      [|discriminate].
    intros [= <-]. right. exists 7. split; [lia|].
    unfold add_timedelta in Ey.
    destruct ((0 <=? start + 7 * DAY) && (start + 7 * DAY <? MAX));
      [|discriminate].
    now injection Ey as <-.
  - apply Z.eqb_neq in E.
    destruct (add_timedelta start (d * DAY)) as [y|] eqn:Ey; simpl;
      [|discriminate].
    intros [= <-]. right. exists d. split; [lia|].
    unfold add_timedelta in Ey.
    destruct ((0 <=? start + d * DAY) && (start + d * DAY <? MAX));
      [|discriminate].
    now injection Ey as <-.
Qed.

Lemma floor_minute_shift (a k : Z) :
  replace_second_microsecond (replace_second_microsecond a + k * DAY)
  = replace_second_microsecond (a + k * DAY).
Proof.
  pose proof MINUTE_pos as Hm.
  rewrite !floor_minute_multiple.
  replace (MINUTE * (a / MINUTE) + k * DAY)
    with ((a / MINUTE + k * 1440) * MINUTE) by (rewrite DAY_minutes; lia).
  rewrite Z.div_mul by lia.
  replace (k * DAY) with (k * 1440 * MINUTE) by (rewrite DAY_minutes; lia).
  rewrite Z.div_add by lia. reflexivity.
Qed.

(** Whatever weekdays the query names, the correction never moves the start
    backward: it returns the start unchanged, or the start moved a positive
    number of whole days ahead with its seconds dropped. *)
Lemma day_of_week_correction_never_backward (query : string)
  (start start' : Z) :
  day_of_week_correction query start = Ok start' ->
  start' = start
  \/ exists k, 1 <= k
               /\ start' = replace_second_microsecond (start + k * DAY)
               /\ date start' = date start + k.
Proof.
  unfold day_of_week_correction. generalize (enumerate day_names) as days.
  assert (H : forall days s s',
            correct_days (lower query) s days = Ok s' ->
            s' = s \/ exists k, 1 <= k
                                /\ s' = replace_second_microsecond (s + k * DAY)).
  { induction days as [|iday days IH]; intros s s'; simpl.
    - intros [= <-]. now left.
    - destruct (correct_day (lower query) s iday) as [s1|] eqn:E1; simpl;
        [|discriminate].
      intros E2. apply correct_day_forward in E1. apply IH in E2.
      destruct E1 as [->|(k1 & Hk1 & ->)]; [exact E2|].
      destruct E2 as [->|(k2 & Hk2 & ->)]; right.
      + exists k1. split; [lia | reflexivity].
      + exists (k1 + k2). split; [lia|].
        rewrite floor_minute_shift. f_equal. lia. }
  intros days E. apply H in E. destruct E as [->|(k & Hk & ->)]; [now left|].
  right. exists k. split; [exact Hk|]. split; [reflexivity|].
  apply adjusted_date.
Qed.

(** C4, as the code has it: when the query names exactly one weekday, and
    the parsed start falls on another weekday, the start is moved forward by
    one to six whole days to the next occurrence of the named weekday; the
    hour and the minute are kept, the seconds and microseconds are set to
    zero.  ([i] is the position of the weekday in [day_names]; the start is a
    date of [datetime]'s range with six days to spare.) *)
Theorem day_of_week_correction_single_weekday
  (query : string) (start : Z) (i : nat) (day : string) :
  nth_error day_names i = Some day ->
  contains day (lower query) = true ->
  (forall j other, j <> i -> nth_error day_names j = Some other ->
     contains other (lower query) = false) ->
  weekday start <> Z.of_nat i ->
  0 <= start -> start + 6 * DAY < MAX ->
  exists days_ahead start',
    day_of_week_correction query start = Ok start'
    /\ 1 <= days_ahead <= 6
    /\ date start' = date start + days_ahead
    /\ weekday start' = Z.of_nat i
    /\ (forall d, date start < d < date start' -> d mod 7 <> Z.of_nat i)
    /\ hour start' = hour start /\ minute start' = minute start
    /\ second start' = 0 /\ microsecond start' = 0.
Proof.
  intros Hday Hnamed Hothers Hw H0 Hmax.
  assert (Hi : 0 <= Z.of_nat i < 7).
  { assert (i < List.length day_names)%nat as Hlt
      by (apply nth_error_Some; rewrite Hday; discriminate).
    simpl in Hlt. lia. }
  destruct (correct_day_adjusts (lower query) day start (Z.of_nat i)
              Hnamed Hw Hi H0 Hmax) as [Hstep Hk].
  set (days_ahead := (Z.of_nat i - weekday start + 7) mod 7) in *.
  exists days_ahead, (replace_second_microsecond (start + days_ahead * DAY)).
  assert (Hdate := adjusted_date start days_ahead).
  destruct (next_occurrence (date start) (Z.of_nat i) Hi) as [Hnext Hbefore].
  rewrite <- weekday_of_date in Hnext, Hbefore. fold days_ahead in Hnext, Hbefore.
  split; [|split; [lia|]; split; [exact Hdate|]; split; [|split; [|split; [|split; [|split]]]]].
  - unfold day_of_week_correction. rewrite enumerate_day_names.
    assert (Hskip : forall j other, j <> i -> nth_error day_names j = Some other ->
              forall s k, correct_day (lower query) s (k, other) = Ok s).
    { intros j other Hj Hn s k. apply correct_day_skips. eauto. }
    do 7 (destruct i as [|i];
          [ injection Hday as <-; cbn [correct_days];
            simpl (Z.of_nat _) in Hstep;
            repeat first
              [ rewrite Hstep; cbn [bind]
              | rewrite (Hskip 0%nat "monday") by (discriminate || reflexivity); cbn [bind]
              | rewrite (Hskip 1%nat "tuesday") by (discriminate || reflexivity); cbn [bind]
              | rewrite (Hskip 2%nat "wednesday") by (discriminate || reflexivity); cbn [bind]
              | rewrite (Hskip 3%nat "thursday") by (discriminate || reflexivity); cbn [bind]
              | rewrite (Hskip 4%nat "friday") by (discriminate || reflexivity); cbn [bind]
              | rewrite (Hskip 5%nat "saturday") by (discriminate || reflexivity); cbn [bind]
              | rewrite (Hskip 6%nat "sunday") by (discriminate || reflexivity); cbn [bind] ];
            reflexivity
          | ]).
    destruct i; discriminate Hday.
  - rewrite weekday_of_date, Hdate. exact Hnext.
  - intros d Hd. apply Hbefore. lia.
  - apply adjusted_hour.
  - apply adjusted_minute.
  - apply floored_second.
  - apply floored_microsecond.
Qed.

Lemma day_of_week_correction_single_weekday_witness :
  exists days_ahead start',
    day_of_week_correction "create a meeting with akash at 3pm saturday"
      (Samples.friday + 15 * HOUR) = Ok start'
    /\ 1 <= days_ahead <= 6
    /\ date start' = date (Samples.friday + 15 * HOUR) + days_ahead
    /\ weekday start' = Z.of_nat 5
    /\ (forall d, date (Samples.friday + 15 * HOUR) < d < date start' ->
          d mod 7 <> Z.of_nat 5)
    /\ hour start' = hour (Samples.friday + 15 * HOUR)
    /\ minute start' = minute (Samples.friday + 15 * HOUR)
    /\ second start' = 0 /\ microsecond start' = 0.
Proof.
  apply (day_of_week_correction_single_weekday
           "create a meeting with akash at 3pm saturday"
           (Samples.friday + 15 * HOUR) 5 "saturday").
  - reflexivity.
  - vm_compute; reflexivity.
  - intros j other Hj Hn.
    do 7 (destruct j as [|j];
          [ first [ now elim Hj
                  | injection Hn as <-; vm_compute; reflexivity ] | ]).
    destruct j; discriminate Hn.
  - vm_compute; discriminate.
  - vm_compute; discriminate.
  - vm_compute; reflexivity.
Defined.

(** A Friday 15:00 and a query that names Saturday: the next day, 15:00. *)
Lemma friday_to_saturday :
  day_of_week_correction "create a meeting with akash at 3pm saturday"
    (Samples.friday + 15 * HOUR)
  = Ok (Samples.friday + DAY + 15 * HOUR).
Proof. vm_compute; reflexivity. Qed.

(** C4 as stated fails in two ways.  A Friday 15:00:30 with a query that
    names Saturday becomes Saturday 15:00:00: the seconds are lost.  A
    Wednesday 15:00 with a query that names Monday and Friday is moved to the
    next Monday and from there to the Friday after it, nine days ahead: it
    lands neither on the named Monday nor on the next Friday. *)
Lemma day_of_week_correction_counterexample :
  (contains "saturday" (lower "create a meeting with akash at 3:00:30pm saturday") = true
   /\ weekday (Samples.friday + 15 * HOUR + 30 * SECOND) <> 5
   /\ day_of_week_correction "create a meeting with akash at 3:00:30pm saturday"
        (Samples.friday + 15 * HOUR + 30 * SECOND)
      = Ok (Samples.friday + DAY + 15 * HOUR)
   /\ ~ Samples.advanced_to_next
          "create a meeting with akash at 3:00:30pm saturday"
          (Samples.friday + 15 * HOUR + 30 * SECOND) 5)
  /\ (contains "monday" (lower "create a meeting with akash at 3pm monday or friday") = true
      /\ contains "friday" (lower "create a meeting with akash at 3pm monday or friday") = true
      /\ weekday (Samples.friday - 2 * DAY + 15 * HOUR) = 2
      /\ day_of_week_correction "create a meeting with akash at 3pm monday or friday"
           (Samples.friday - 2 * DAY + 15 * HOUR)
         = Ok (Samples.friday + 7 * DAY + 15 * HOUR)
      /\ ~ Samples.advanced_to_next
             "create a meeting with akash at 3pm monday or friday"
             (Samples.friday - 2 * DAY + 15 * HOUR) 0
      /\ ~ Samples.advanced_to_next
             "create a meeting with akash at 3pm monday or friday"
             (Samples.friday - 2 * DAY + 15 * HOUR) 4).
Proof.
  assert (E1 : day_of_week_correction
                 "create a meeting with akash at 3:00:30pm saturday"
                 (Samples.friday + 15 * HOUR + 30 * SECOND)
               = Ok (Samples.friday + DAY + 15 * HOUR))
    by (vm_compute; reflexivity).
  assert (E2 : day_of_week_correction
                 "create a meeting with akash at 3pm monday or friday"
                 (Samples.friday - 2 * DAY + 15 * HOUR)
               = Ok (Samples.friday + 7 * DAY + 15 * HOUR))
    by (vm_compute; reflexivity).
  assert (refute : forall query start v i,
            day_of_week_correction query start = Ok v ->
            (forall k, 1 <= k <= 6 -> v <> start + k * DAY) ->
            ~ Samples.advanced_to_next query start i).
  { intros query start v i Ev Hne (k & Hk & E & _).
    rewrite Ev in E. injection E as E. exact (Hne k Hk E). }
  split; [split; [|split; [|split]] | split; [|split; [|split; [|split; [|split]]]]].
  - vm_compute; reflexivity.
  - vm_compute; discriminate.
  - exact E1.
  - apply (refute _ _ _ _ E1). intros k Hk.
    unfold Samples.friday, DAY, HOUR, MINUTE, SECOND. lia.
  - vm_compute; reflexivity.
  - vm_compute; reflexivity.
  - vm_compute; reflexivity.
  - exact E2.
  - apply (refute _ _ _ _ E2). intros k Hk.
    unfold Samples.friday, DAY, HOUR, MINUTE, SECOND. lia.
  - apply (refute _ _ _ _ E2). intros k Hk.
    unfold Samples.friday, DAY, HOUR, MINUTE, SECOND. lia.
Qed.

End DateTimeFacts.

(** ** The scheduling actions *)

Module ActionsFacts.
Import Str Re Parser DateTime Actions Samples.
Open Scope string_scope.
Open Scope Z_scope.

(** *** Writes of a computation *)


Lemma pure_ret {A} (a : A) : pure (ret a).
Proof. reflexivity. Qed.

Lemma pure_raise {A} (e : exn) : pure (@raise A e).
Proof. reflexivity. Qed.

Lemma pure_lift {A} (r : result A) : pure (lift r).
Proof. reflexivity. Qed.

Lemma pure_bind {A B} (m : M A) (f : A -> M B) :
  pure m -> (forall a, snd m = Ok a -> pure (f a)) -> pure (mbind m f).
Proof.
  unfold pure, mbind. destruct m as [ws [a|e]]; simpl; intros -> H; [|reflexivity].
  specialize (H a eq_refl). destruct (f a) as [ws' r]. exact H.
Qed.

Lemma pure_single (P : write -> Prop) {A} (m : M A) : pure m -> single P m.
Proof. intros H. now left. Qed.

Lemma single_bind_l (P : write -> Prop) {A B} (m : M A) (f : A -> M B) :
  pure m -> (forall a, snd m = Ok a -> single P (f a)) -> single P (mbind m f).
Proof.
  unfold pure, single, mbind.
  destruct m as [ws [a|e]]; simpl; intros -> H; [|now left].
  specialize (H a eq_refl). destruct (f a) as [ws' r]. exact H.
Qed.

Lemma single_bind_r (P : write -> Prop) {A B} (m : M A) (f : A -> M B) :
  single P m -> (forall a, pure (f a)) -> single P (mbind m f).
Proof.
  unfold pure, single, mbind.
  destruct m as [ws [a|e]]; simpl; intros H Hf; [|exact H].
  specialize (Hf a). destruct (f a) as [ws' r]. simpl in Hf. subst ws'.
  now rewrite app_nil_r.
Qed.

Lemma single_try_except (P : write -> Prop) {A} (m : M A) (h : exn -> M A) :
  single P m -> (forall e, pure (h e)) -> single P (try_except m h).
Proof.
  unfold pure, single, try_except.
  destruct m as [ws [a|e]]; simpl; intros H Hh; [exact H|].
  specialize (Hh e). destruct (h e) as [ws' r]. simpl in Hh. subst ws'.
  now rewrite app_nil_r.
Qed.

Lemma single_attempt (P : write -> Prop) {A} (m : M A) :
  single P m -> single P (attempt m).
Proof. unfold single, attempt. now destruct m. Qed.

Lemma single_insert (P : write -> Prop) (w : world) (user : string)
  (body : new_event) :
  P (Insert user body) -> single P (insert w user body).
Proof.
  intros H. unfold single, insert.
  destruct (events_insert w user body); simpl; [right; eauto | now left].
Qed.

Lemma single_update (P : write -> Prop) (w : world) (user event_id : string)
  (body : event) (new_start new_end : Z) :
  P (Update user event_id body new_start new_end) ->
  single P (update w user event_id body new_start new_end).
Proof.
  intros H. unfold single, update.
  destruct (events_update w user event_id body new_start new_end); simpl;
    [right; eauto | now left].
Qed.

Lemma single_delete (P : write -> Prop) (w : world) (user event_id : string) :
  P (Delete user event_id) -> single P (delete w user event_id).
Proof.
  intros H. unfold single, delete.
  destruct (events_delete w user event_id); simpl; [right; eauto | now left].
Qed.

Lemma add_timedelta_ok (dt d r : Z) : add_timedelta dt d = Ok r -> r = dt + d.
Proof.
  unfold add_timedelta.
  destruct ((0 <=? dt + d) && (dt + d <? MAX)); [|discriminate].
  now intros [= <-].
Qed.

(** *** What each action may write *)


Ltac pure_steps :=
  repeat first
    [ apply pure_ret | apply pure_raise | apply pure_lift
    | apply pure_bind; [|intros ? _] ].

Lemma create_body_single (w : world) (query : string) :
  single (fun wr => is_insert wr /\ one_hour wr) (create_body w query).
Proof.
  unfold create_body.
  apply single_bind_l; [apply pure_lift|]. intros parsed _.
  destruct (p_time parsed) as [[|c time_str]|];
    try (apply pure_single, pure_ret).
  destruct (p_attendees parsed) as [|a attendees];
    [apply pure_single, pure_ret|].
  destruct (dateutil_parse w (String c time_str) None) as [start|[]];
    try (apply pure_single; first [apply pure_ret | apply pure_raise]).
  apply single_bind_l; [apply pure_lift|]. intros start' _.
  apply single_bind_l; [apply pure_lift|]. intros end_ Hend.
  apply add_timedelta_ok in Hend.
  apply single_bind_l; [apply pure_lift|]. intros _ _.
  apply single_bind_r.
  - apply single_attempt, single_insert. simpl. split; [exact I | exact Hend].
  - intros [created|e]; pure_steps.
Qed.

Lemma cancel_body_single (w : world) (query : string) :
  single is_delete (cancel_body w query).
Proof.
  unfold cancel_body.
  destruct (re_search cancel_id_pattern query) as [m_id|].
  - apply single_bind_l; [apply pure_lift|]. intros _ _.
    apply single_try_except; [|intros e; apply pure_ret].
    apply single_bind_l; [apply pure_lift|]. intros evt _.
    apply single_bind_r; [apply single_delete; exact I|].
    intros _. apply pure_ret.
  - apply single_bind_l; [apply pure_lift|]. intros parsed _.
    destruct (p_attendees parsed) as [|a attendees];
      [apply pure_single, pure_ret|].
    apply pure_single. reflexivity.
Qed.

Lemma new_times_one_hour (w : world) (now : Z) (time_str : string)
  (new_start new_end : Z) :
  (default <- add_timedelta now DAY ;;
   new_start <- dateutil_parse w time_str (Some default) ;;
   new_end <- add_timedelta new_start HOUR ;;
   Ok (new_start, new_end)) = Ok (new_start, new_end) ->
  new_end = new_start + HOUR.
Proof.
  destruct (add_timedelta now DAY) as [default|]; simpl; [|discriminate].
  destruct (dateutil_parse w time_str (Some default)) as [s|]; simpl;
    [|discriminate].
  destruct (add_timedelta s HOUR) as [e|] eqn:E; simpl; [|discriminate].
  intros [= <- <-]. now apply add_timedelta_ok.
Qed.

Lemma reschedule_by_id_single (w : world) (event_id : string)
  (new_start new_end : Z) :
  new_end = new_start + HOUR ->
  single (fun wr => is_update wr /\ one_hour wr)
    (reschedule_by_id w event_id new_start new_end).
Proof.
  intros H. unfold reschedule_by_id.
  apply single_bind_l; [apply pure_lift|]. intros _ _.
  apply single_try_except; [|intros e; apply pure_ret].
  apply single_bind_l; [apply pure_lift|]. intros ev _.
  apply single_bind_r; [apply single_update; simpl; auto|].
  intros updated. pure_steps.
Qed.

Lemma reschedule_by_search_single (w : world) (parsed : parsed_query)
  (now end_ new_start new_end : Z) :
  new_end = new_start + HOUR ->
  single (fun wr => is_update wr /\ one_hour wr)
    (reschedule_by_search w parsed now end_ new_start new_end).
Proof.
  intros H. unfold reschedule_by_search.
  apply single_bind_l; [apply pure_lift|]. intros [time_min time_max] _.
  apply single_bind_l; [apply pure_lift|]. intros events _.
  assert (Hupdate : forall target,
            single (fun wr => is_update wr /\ one_hour wr)
              match target with
              | None => ret (no_match_message (p_attendees parsed))
              | Some (user_id, target_event) =>
                  _ <~ lift (get_user_service w user_id) ;;
                  try_except
                    (updated <~ update w user_id (ev_id target_event)
                                  target_event new_start new_end ;;
                     link <~ lift (meet_link updated "No Google Meet link") ;;
                     attendees <~ lift (emails (match r_attendees updated with
                                                | Some l => l | None => [] end)) ;;
                     ret (rescheduled_message updated (ev_id target_event)
                            link attendees))
                    (fun e => ret ("Failed to reschedule event: " ++ str_exn e))
              end).
  { intros [[user_id target_event]|]; [|apply pure_single, pure_ret].
    apply single_bind_l; [apply pure_lift|]. intros _ _.
    apply single_try_except; [|intros e; apply pure_ret].
    apply single_bind_r; [apply single_update; simpl; auto|].
    intros updated. pure_steps. }
  destruct (p_is_first parsed); [|apply Hupdate].
  destruct (truthy (p_old_time parsed)); [|apply pure_single, pure_ret].
  destruct (dateutil_parse w (get_or (p_old_time parsed) "") (Some now))
    as [old_start|[]];
    try (apply pure_single; first [apply pure_ret | apply pure_raise]).
  apply single_bind_l; [apply pure_lift|]. intros target _. apply Hupdate.
Qed.

Lemma reschedule_at_single (w : world) (query : string)
  (parsed : parsed_query) (time_str : string) :
  single (fun wr => is_update wr /\ one_hour wr)
    (reschedule_at w query parsed time_str).
Proof.
  unfold reschedule_at.
  apply single_bind_l; [apply pure_lift|]. intros end_ _.
  destruct (default <- add_timedelta (now w) DAY ;;
            new_start <- dateutil_parse w time_str (Some default) ;;
            new_end <- add_timedelta new_start HOUR ;;
            Ok (new_start, new_end)) as [[new_start new_end]|[]] eqn:E;
    try (apply pure_single; first [apply pure_ret | apply pure_raise]).
  apply new_times_one_hour in E.
  destruct (re_search reschedule_id_pattern query) as [m|].
  - now apply reschedule_by_id_single.
  - now apply reschedule_by_search_single.
Qed.

Lemma reschedule_body_single (w : world) (query : string) :
  single (fun wr => is_update wr /\ one_hour wr) (reschedule_body w query).
Proof.
  unfold reschedule_body.
  apply single_bind_l; [apply pure_lift|]. intros parsed _.
  assert (Hnone :
    single (fun wr => is_update wr /\ one_hour wr)
      (if contains "whenever I'm free" (lower query)
       then free_slot <~ lift (find_conflict_free_slot_tool w) ;;
            if contains "No free slot" free_slot
            then ret "Failed to reschedule event: No free slots available this week."
            else reschedule_at w query parsed
                   (strip (replace "Suggested: " "" (before "to" free_slot)))
       else ret "Failed to reschedule event: No valid new time specified. Please provide a time like 'Thursday at 5pm'.")).
  { destruct (contains "whenever I'm free" (lower query));
      [|apply pure_single, pure_ret].
    apply single_bind_l; [apply pure_lift|]. intros free_slot _.
    destruct (contains "No free slot" free_slot);
      [apply pure_single, pure_ret | apply reschedule_at_single]. }
  destruct (p_time parsed) as [[|c time_str]|]; try exact Hnone.
  apply reschedule_at_single.
Qed.

Lemma fst_create_meeting (w : world) (query : string) :
  fst (create_meeting w query) = fst (create_body w query).
Proof. unfold create_meeting. now destruct (create_body w query) as [ws [s|e]]. Qed.

Lemma fst_cancel_meeting (w : world) (query : string) :
  fst (cancel_meeting w query) = fst (cancel_body w query).
Proof. unfold cancel_meeting. now destruct (cancel_body w query) as [ws [s|e]]. Qed.

Lemma fst_reschedule_meeting (w : world) (query : string) :
  fst (reschedule_meeting w query) = fst (reschedule_body w query).
Proof.
  unfold reschedule_meeting. now destruct (reschedule_body w query) as [ws [s|e]].
Qed.

(** Each action applies at most one write: an insert for [create_meeting], a
    delete for [cancel_meeting], an update for [reschedule_meeting]. *)
Lemma actions_write_at_most_once (w : world) (query : string) :
  (fst (create_meeting w query) = []
   \/ exists user body, fst (create_meeting w query) = [Insert user body])
  /\ (fst (cancel_meeting w query) = []
      \/ exists user id, fst (cancel_meeting w query) = [Delete user id])
  /\ (fst (reschedule_meeting w query) = []
      \/ exists user id ev s e,
           fst (reschedule_meeting w query) = [Update user id ev s e]).
Proof.
  rewrite fst_create_meeting, fst_cancel_meeting, fst_reschedule_meeting.
  split; [|split].
  - destruct (create_body_single w query) as [H|(wr & H & Hi & _)]; [now left|].
    right. destruct wr; try contradiction. eauto.
  - destruct (cancel_body_single w query) as [H|(wr & H & Hi)]; [now left|].
    right. destruct wr; try contradiction. eauto.
  - destruct (reschedule_body_single w query) as [H|(wr & H & Hi & _)];
      [now left|].
    right. destruct wr; try contradiction. eauto 6.
Qed.

(** C8: every event [create_meeting] inserts and every event
    [reschedule_meeting] rewrites ends exactly one hour after it starts,
    whatever the start and end the rescheduled event had: the duration of the
    original event is not kept. *)
Theorem written_events_last_one_hour (w : world) (query : string) :
  (forall user body,
     In (Insert user body) (fst (create_meeting w query)) ->
     ne_end body = ne_start body + HOUR)
  /\ (forall user event_id ev new_start new_end,
        In (Update user event_id ev new_start new_end)
           (fst (reschedule_meeting w query)) ->
        new_end = new_start + HOUR).
Proof.
  rewrite fst_create_meeting, fst_reschedule_meeting. split.
  - intros user body Hin.
    destruct (create_body_single w query) as [H|(wr & H & _ & Hh)];
      rewrite H in Hin; [destruct Hin|].
    destruct Hin as [E|[]]. subst wr. exact Hh.
  - intros user event_id ev new_start new_end Hin.
    destruct (reschedule_body_single w query) as [H|(wr & H & _ & Hh)];
      rewrite H in Hin; [destruct Hin|].
    destruct Hin as [E|[]]. subst wr. exact Hh.
Qed.

(** The meeting of the sample calendar lasts two hours, from 14:00 to 16:00;
    rescheduled, it lasts one. *)
Lemma written_events_last_one_hour_witness :
  (friday + 16 * HOUR = friday + 15 * HOUR + HOUR)
  /\ ev_end meeting = option_map (fun s => s + 2 * HOUR) (ev_start meeting)
  /\ fst (reschedule_meeting quiet_world "reschedule meeting with a@x.com to 5pm ID: e2")
     = [Update "user1" "e2" meeting (friday + 15 * HOUR) (friday + 16 * HOUR)]
  /\ fst (create_meeting quiet_world "create a meeting with a@x.com at 3pm")
     = [Insert "user1" {| ne_summary := "Meeting"; ne_start := friday + 15 * HOUR;
                          ne_end := friday + 16 * HOUR;
                          ne_attendees := ["a@x.com"] |}]
  /\ (friday + 16 * HOUR = friday + 15 * HOUR + HOUR).
Proof.
  split; [|split; [|split; [|split]]].
  - apply (proj2 (written_events_last_one_hour quiet_world
                    "reschedule meeting with a@x.com to 5pm ID: e2")
             "user1" "e2" meeting (friday + 15 * HOUR) (friday + 16 * HOUR)).
    vm_compute. left; reflexivity.
  - vm_compute; reflexivity.
  - vm_compute; reflexivity.
  - vm_compute; reflexivity.
  - apply (proj1 (written_events_last_one_hour quiet_world
                    "create a meeting with a@x.com at 3pm")
             "user1"
             {| ne_summary := "Meeting"; ne_start := friday + 15 * HOUR;
                ne_end := friday + 16 * HOUR; ne_attendees := ["a@x.com"] |}).
    vm_compute. left; reflexivity.
Defined.

(** C9: when the query holds no phrase "cancel event <id>", [cancel_meeting]
    applies no delete and returns a string that starts with "Failed to cancel
    event: "; the outcome does not depend on the gateway, which is never
    consulted; and when the query has attendees, the string is the message of
    the [NameError] raised for the name [pytz]. *)
Theorem cancel_without_id_never_deletes (w : world) (query : string) :
  re_search cancel_id_pattern query = None ->
  fst (cancel_meeting w query) = []
  /\ prefix "Failed to cancel event: " (snd (cancel_meeting w query)) = true
  /\ (forall w', cancel_meeting w' query = cancel_meeting w query)
  /\ (forall p, parse_user_query query = Ok p -> p_attendees p <> [] ->
        snd (cancel_meeting w query)
        = "Failed to cancel event: name 'pytz' is not defined").
Proof.
  intros H. unfold cancel_meeting, cancel_body. rewrite H.
  destruct (parse_user_query query) as [parsed|e]; simpl.
  - destruct (p_attendees parsed) as [|a attendees] eqn:Ea; simpl.
    + do 3 (split; [reflexivity|]).
      intros p [= <-] Hp. now elim Hp.
    + do 3 (split; [reflexivity|]). reflexivity.
  - split; [reflexivity|]. split; [now destruct (str_exn e)|].
    split; [reflexivity|]. intros p Hp. discriminate Hp.
Qed.

Lemma cancel_without_id_never_deletes_witness :
  let query := "cancel a meeting with akash on friday at 3pm" in
  fst (cancel_meeting quiet_world query) = []
  /\ prefix "Failed to cancel event: " (snd (cancel_meeting quiet_world query)) = true
  /\ (forall w', cancel_meeting w' query = cancel_meeting quiet_world query)
  /\ (forall p, parse_user_query query = Ok p -> p_attendees p <> [] ->
        snd (cancel_meeting quiet_world query)
        = "Failed to cancel event: name 'pytz' is not defined").
Proof.
  apply (cancel_without_id_never_deletes quiet_world
           "cancel a meeting with akash on friday at 3pm").
  vm_compute; reflexivity.
Defined.

(** With the phrase, the event is deleted. *)
Lemma cancel_by_id_deletes :
  cancel_meeting quiet_world "cancel event e2"
  = ([Delete "user1" "e2"], "Event 'Meeting' (ID: e2) canceled successfully.").
Proof. vm_compute; reflexivity. Qed.

(** C7 fails on the code: when the gateway applies the write and answers with
    conference data that lists no entry point, [create_meeting] and
    [reschedule_meeting] return a failure string although the insert or the
    update has been applied. *)
Theorem failure_reported_after_write :
  create_meeting lossy_world "create a meeting with a@x.com at 3pm"
  = ([Insert "user1" {| ne_summary := "Meeting"; ne_start := friday + 15 * HOUR;
                        ne_end := friday + 16 * HOUR;
                        ne_attendees := ["a@x.com"] |}],
     "Failed to create event: list index out of range")
  /\ reschedule_meeting lossy_world "reschedule meeting with a@x.com to 5pm ID: e2"
     = ([Update "user1" "e2" meeting (friday + 15 * HOUR) (friday + 16 * HOUR)],
        "Failed to reschedule event: list index out of range").
Proof. split; vm_compute; reflexivity. Qed.

(** What holds of the three actions on every input: a failing write call
    leaves no write behind. *)
Lemma create_meeting_failed_insert (w : world) (query : string) :
  (forall user body e, events_insert w user body <> Ok e) ->
  fst (create_meeting w query) = [].
Proof.
  intros Hfail. rewrite fst_create_meeting.
  destruct (create_body_single w query) as [H|(wr & H & _)]; [exact H|].
  exfalso. revert H. unfold create_body.
  unfold mbind, lift, attempt, insert, ret, raise.
  destruct (parse_user_query query) as [parsed|]; [|discriminate].
  destruct (p_time parsed) as [[|c time_str]|]; try discriminate.
  destruct (p_attendees parsed) as [|a attendees]; [discriminate|].
  destruct (dateutil_parse w (String c time_str) None) as [start|[]];
    try discriminate.
  destruct (day_of_week_correction query start) as [start'|]; [|discriminate].
  destruct (add_timedelta start' HOUR) as [end_|]; [|discriminate].
  destruct (get_user_service w "user1"); [|discriminate].
  destruct (events_insert w "user1" _) as [r|] eqn:E; [|discriminate].
  now elim (Hfail _ _ _ E).
Qed.

(** The branch "whenever I'm free" of [reschedule_meeting] is never taken:
    the lowered query holds no capital letter. *)
Lemma is_upper_lower_char (c : ascii) : is_upper (lower_char c) = false.
Proof.
  destruct c as [[] [] [] [] [] [] [] []]; vm_compute; reflexivity.
Qed.

Lemma prefix_head (c : ascii) (sub s : string) :
  prefix (String c sub) s = true -> exists s', s = String c s'.
Proof.
  destruct s as [|c' s']; simpl; [discriminate|].
  destruct (ascii_dec c c') as [<-|]; [eauto | discriminate].
Qed.

Lemma contains_upper_in_lower (pre : string) (c : ascii) (post s : string) :
  is_upper c = true -> contains (pre ++ String c post) (lower s) = false.
Proof.
  intros Hc. apply not_true_is_false. intros H.
  assert (Hp : forall pre t, prefix (pre ++ String c post) (lower t) <> true).
  { clear H. intros pre0. induction pre0 as [|c0 pre0 IH]; intros t Ht.
    - simpl in Ht. apply prefix_head in Ht as [t' E].
      destruct t as [|ct t'']; simpl in E; [discriminate|].
      injection E as E _. rewrite <- E, is_upper_lower_char in Hc.
      discriminate.
    - destruct t as [|ct t'']; simpl in Ht; [discriminate|].
      destruct (ascii_dec c0 (lower_char ct)); [|discriminate].
      exact (IH t'' Ht). }
  induction s as [|cs s IH]; simpl in H.
  - apply orb_true_iff in H as [H|H]; [|discriminate].
    exact (Hp pre "" H).
  - apply orb_true_iff in H as [H|H]; [|exact (IH H)].
    exact (Hp pre (String cs s) H).
Qed.

Lemma whenever_free_branch_dead (query : string) :
  contains "whenever I'm free" (lower query) = false.
Proof.
  exact (contains_upper_in_lower "whenever " "I" "'m free" query eq_refl).
Qed.

End ActionsFacts.

(** ** What a match says about the matched text *)

Module ReFacts.
Import Str Re ReSpec.
Open Scope string_scope.

Lemma append_nil_r (s : string) : s ++ "" = s.
Proof. induction s as [|a s IH]; simpl; [reflexivity | now rewrite IH]. Qed.

Lemma append_assoc (a b c : string) : (a ++ b) ++ c = a ++ (b ++ c).
Proof. induction a as [|x a IH]; simpl; [reflexivity | now rewrite IH]. Qed.

Lemma length_append (a b : string) :
  String.length (a ++ b) = (String.length a + String.length b)%nat.
Proof. induction a as [|x a IH]; simpl; [reflexivity | now rewrite IH]. Qed.

Lemma substring_prefix (a b : string) :
  substring 0 (String.length a) (a ++ b) = a.
Proof. induction a as [|x a IH]; simpl; [now destruct b | now rewrite IH]. Qed.

(** The text consumed between a position and a later one is what stands
    between them. *)
Lemma consumed_append (w s' : string) : consumed (w ++ s') s' = w.
Proof.
  unfold consumed. rewrite length_append.
  replace (String.length w + String.length s' - String.length s')%nat
    with (String.length w) by lia.
  apply substring_prefix.
Qed.

Lemma lookup_app (name : string) (ext c : captures) :
  lookup name (ext ++ c)%list
  = match lookup name ext with
    | Some v => Some v
    | None => lookup name c
    end.
Proof.
  induction ext as [|[n v] ext IH]; simpl; [reflexivity|].
  destruct (String.eqb n name); [reflexivity | exact IH].
Qed.

(** A successful match went through the continuation: it consumed a text of
    the language of the pattern from the front of the subject and pushed the
    groups it went through, the mandatory ones among them. *)
Lemma rmatch_sound {R : Type} (r : regex) :
  forall prev s c (k : option ascii -> string -> captures -> option R) x,
    rmatch r prev s c k = Some x ->
    exists w prev' s' ext,
      s = w ++ s' /\ lang r w /\ covers r ext
      /\ k prev' s' (ext ++ c)%list = Some x.
Proof.
  induction r as [|p|r1 IH1 r2 IH2|r1 IH1 r2 IH2|greedy r1 IH1|name r1 IH1| |];
    intros prev s c k x H; [simpl in H .. | | simpl in H | simpl in H | simpl in H].
  - exists "", prev, s, []. repeat split; try assumption. intros n; discriminate.
  - destruct s as [|a s']; [discriminate|].
    destruct (p a) eqn:Ep; [|discriminate].
    exists (String a ""), (Some a), s', []. repeat split; try assumption.
    + now exists a.
    + intros n; discriminate.
  - apply IH1 in H as (w1 & prev1 & s1 & ext1 & -> & L1 & C1 & H).
    apply IH2 in H as (w2 & prev2 & s2 & ext2 & -> & L2 & C2 & H).
    exists (w1 ++ w2), prev2, s2, (ext2 ++ ext1)%list.
    split; [now rewrite append_assoc|]. split; [now exists w1, w2|].
    split; [|now rewrite <- app_assoc].
    intros n Hn. simpl in Hn. rewrite lookup_app.
    apply orb_true_iff in Hn as [Hn|Hn].
    + specialize (C1 n Hn). destruct (lookup n ext2); [discriminate | exact C1].
    + specialize (C2 n Hn). destruct (lookup n ext2); [discriminate | congruence].
  - destruct (rmatch r1 prev s c k) as [x1|] eqn:E1.
    + injection H as <-.
      apply IH1 in E1 as (w & prev' & s' & ext & -> & L & C & H).
      exists w, prev', s', ext. repeat split; try assumption; [now left|].
      intros n Hn. simpl in Hn. apply andb_true_iff in Hn as [Hn _]. now apply C.
    + apply IH2 in H as (w & prev' & s' & ext & -> & L & C & H).
      exists w, prev', s', ext. repeat split; try assumption; [now right|].
      intros n Hn. simpl in Hn. apply andb_true_iff in Hn as [_ Hn]. now apply C.
  - pose (loop :=
            fix loop (fuel : nat) (prev : option ascii) (s : string)
              (c : captures) {struct fuel} : option R :=
              match fuel with
              | O => k prev s c
              | S fuel' =>
                  let again (_ : unit) :=
                    rmatch r1 prev s c
                      (fun prev' s' c' =>
                         if (String.length s' <? String.length s)%nat
                         then loop fuel' prev' s' c' else None) in
                  if greedy
                  then match again tt with
                       | Some x => Some x
                       | None => k prev s c
                       end
                  else match k prev s c with
                       | Some x => Some x
                       | None => again tt
                       end
              end).
    assert (Hstep : forall fuel prev s c,
              loop (S fuel) prev s c
              = if greedy
                then match rmatch r1 prev s c
                             (fun prev' s' c' =>
                                if (String.length s' <? String.length s)%nat
                                then loop fuel prev' s' c' else None) with
                     | Some x => Some x
                     | None => k prev s c
                     end
                else match k prev s c with
                     | Some x => Some x
                     | None =>
                         rmatch r1 prev s c
                           (fun prev' s' c' =>
                              if (String.length s' <? String.length s)%nat
                              then loop fuel prev' s' c' else None)
                     end) by reflexivity.
    assert (Hloop : forall fuel prev s c,
              loop fuel prev s c = Some x ->
              exists w prev' s' ext,
                s = w ++ s' /\ repeated (lang r1) w
                /\ k prev' s' (ext ++ c)%list = Some x).
    { clear H prev s c. induction fuel as [|fuel IHf]; intros prev s c H.
      - exists "", prev, s, []. repeat split; [constructor | exact H].
      - rewrite Hstep in H.
        assert (Hstop : k prev s c = Some x ->
                  exists w prev' s' ext,
                    s = w ++ s' /\ repeated (lang r1) w
                    /\ k prev' s' (ext ++ c)%list = Some x).
        { intros Hk. exists "", prev, s, []. repeat split;
            [constructor | exact Hk]. }
        assert (Hmore :
          rmatch r1 prev s c
            (fun prev' s' c' =>
               if (String.length s' <? String.length s)%nat
               then loop fuel prev' s' c' else None) = Some x ->
          exists w prev' s' ext,
            s = w ++ s' /\ repeated (lang r1) w
            /\ k prev' s' (ext ++ c)%list = Some x).
        { intros Hm.
          apply IH1 in Hm as (w1 & prev1 & s1 & ext1 & -> & L1 & _ & Hm).
          destruct (String.length s1 <? String.length (w1 ++ s1))%nat;
            [|discriminate].
          apply IHf in Hm as (w2 & prev2 & s2 & ext2 & -> & L2 & Hm).
          exists (w1 ++ w2), prev2, s2, (ext2 ++ ext1)%list.
          split; [now rewrite append_assoc|].
          split; [now constructor | now rewrite <- app_assoc]. }
        destruct greedy.
        + destruct (rmatch r1 prev s c _) as [x1|] eqn:E.
          * injection H as <-. now apply Hmore.
          * now apply Hstop.
        + destruct (k prev s c) as [x1|] eqn:E.
          * injection H as <-. now apply Hstop.
          * now apply Hmore. }
    destruct (Hloop (S (String.length s)) prev s c H)
      as (w & prev' & s' & ext & E & L & Hk).
    exists w, prev', s', ext. repeat split; try assumption.
    intros n; discriminate.
  - apply IH1 in H as (w & prev' & s' & ext & -> & L & C & H).
    exists w, prev', s', ((name, consumed (w ++ s') s') :: ext)%list.
    repeat split; try assumption.
    intros n Hn. simpl in Hn. simpl.
    destruct (String.eqb name n); [discriminate|]. now apply C.
  - assert (k prev s c = Some x) as Hk.
    { destruct s as [|a [|b s']]; try discriminate; [exact H|].
      destruct (Ascii.eqb a newline); [exact H | discriminate]. }
    exists "", prev, s, []. repeat split; try assumption. intros n; discriminate.
  - destruct (xorb (word_before prev) (word_after s)); [|discriminate].
    exists "", prev, s, []. repeat split; try assumption. intros n; discriminate.
Qed.

Lemma part_of_refl (s : string) : part_of s s.
Proof. exists "", "". simpl. now rewrite append_nil_r. Qed.

Lemma part_of_app_l (v w1 w2 : string) : part_of v w1 -> part_of v (w1 ++ w2).
Proof.
  intros (a & b & ->). exists a, (b ++ w2). now rewrite !append_assoc.
Qed.

Lemma part_of_app_r (v w1 w2 : string) : part_of v w2 -> part_of v (w1 ++ w2).
Proof.
  intros (a & b & ->). exists (w1 ++ a), b. now rewrite !append_assoc.
Qed.

Lemma part_of_trans (u v s : string) : part_of u v -> part_of v s -> part_of u s.
Proof.
  intros Hu (a & b & ->). apply part_of_app_r, part_of_app_l, Hu.
Qed.

(** The groups a successful match pushed hold texts that stand in the text
    it consumed. *)
Lemma rmatch_within {R : Type} (r : regex) :
  forall prev s c (k : option ascii -> string -> captures -> option R) x,
    rmatch r prev s c k = Some x ->
    exists w prev' s' ext,
      s = w ++ s'
      /\ (forall n v, In (n, v) ext -> part_of v w)
      /\ k prev' s' (ext ++ c)%list = Some x.
Proof.
  induction r as [|p|r1 IH1 r2 IH2|r1 IH1 r2 IH2|greedy r1 IH1|name r1 IH1| |];
    intros prev s c k x H; [simpl in H .. | | simpl in H | simpl in H | simpl in H].
  - exists "", prev, s, []. repeat split; try assumption. intros n v [].
  - destruct s as [|a s']; [discriminate|].
    destruct (p a) eqn:Ep; [|discriminate].
    exists (String a ""), (Some a), s', []. repeat split; try assumption.
    intros n v [].
  - apply IH1 in H as (w1 & prev1 & s1 & ext1 & -> & P1 & H).
    apply IH2 in H as (w2 & prev2 & s2 & ext2 & -> & P2 & H).
    exists (w1 ++ w2), prev2, s2, (ext2 ++ ext1)%list.
    split; [now rewrite append_assoc|]. split; [|now rewrite <- app_assoc].
    intros n v Hin. apply in_app_or in Hin as [Hin|Hin].
    + apply part_of_app_r. exact (P2 n v Hin).
    + apply part_of_app_l. exact (P1 n v Hin).
  - destruct (rmatch r1 prev s c k) as [x1|] eqn:E1.
    + injection H as <-. exact (IH1 _ _ _ _ _ E1).
    + exact (IH2 _ _ _ _ _ H).
  - pose (loop :=
            fix loop (fuel : nat) (prev : option ascii) (s : string)
              (c : captures) {struct fuel} : option R :=
              match fuel with
              | O => k prev s c
              | S fuel' =>
                  let again (_ : unit) :=
                    rmatch r1 prev s c
                      (fun prev' s' c' =>
                         if (String.length s' <? String.length s)%nat
                         then loop fuel' prev' s' c' else None) in
                  if greedy
                  then match again tt with
                       | Some x => Some x
                       | None => k prev s c
                       end
                  else match k prev s c with
                       | Some x => Some x
                       | None => again tt
                       end
              end).
    assert (Hstep : forall fuel prev s c,
              loop (S fuel) prev s c
              = if greedy
                then match rmatch r1 prev s c
                             (fun prev' s' c' =>
                                if (String.length s' <? String.length s)%nat
                                then loop fuel prev' s' c' else None) with
                     | Some x => Some x
                     | None => k prev s c
                     end
                else match k prev s c with
                     | Some x => Some x
                     | None =>
                         rmatch r1 prev s c
                           (fun prev' s' c' =>
                              if (String.length s' <? String.length s)%nat
                              then loop fuel prev' s' c' else None)
                     end) by reflexivity.
    assert (Hloop : forall fuel prev s c,
              loop fuel prev s c = Some x ->
              exists w prev' s' ext,
                s = w ++ s'
                /\ (forall n v, In (n, v) ext -> part_of v w)
                /\ k prev' s' (ext ++ c)%list = Some x).
    { clear H prev s c. induction fuel as [|fuel IHf]; intros prev s c H.
      - exists "", prev, s, []. repeat split; [intros n v [] | exact H].
      - rewrite Hstep in H.
        assert (Hstop : k prev s c = Some x ->
                  exists w prev' s' ext,
                    s = w ++ s'
                    /\ (forall n v, In (n, v) ext -> part_of v w)
                    /\ k prev' s' (ext ++ c)%list = Some x).
        { intros Hk. exists "", prev, s, []. repeat split;
            [intros n v [] | exact Hk]. }
        assert (Hmore :
          rmatch r1 prev s c
            (fun prev' s' c' =>
               if (String.length s' <? String.length s)%nat
               then loop fuel prev' s' c' else None) = Some x ->
          exists w prev' s' ext,
            s = w ++ s'
            /\ (forall n v, In (n, v) ext -> part_of v w)
            /\ k prev' s' (ext ++ c)%list = Some x).
        { intros Hm.
          apply IH1 in Hm as (w1 & prev1 & s1 & ext1 & -> & P1 & Hm).
          destruct (String.length s1 <? String.length (w1 ++ s1))%nat;
            [|discriminate].
          apply IHf in Hm as (w2 & prev2 & s2 & ext2 & -> & P2 & Hm).
          exists (w1 ++ w2), prev2, s2, (ext2 ++ ext1)%list.
          split; [now rewrite append_assoc|].
          split; [|now rewrite <- app_assoc].
          intros n v Hin. apply in_app_or in Hin as [Hin|Hin].
          - apply part_of_app_r. exact (P2 n v Hin).
          - apply part_of_app_l. exact (P1 n v Hin). }
        destruct greedy.
        + destruct (rmatch r1 prev s c _) as [x1|] eqn:E.
          * injection H as <-. now apply Hmore.
          * now apply Hstop.
        + destruct (k prev s c) as [x1|] eqn:E.
          * injection H as <-. now apply Hstop.
          * now apply Hmore. }
    exact (Hloop (S (String.length s)) prev s c H).
  - apply IH1 in H as (w & prev' & s' & ext & -> & P & H).
    exists w, prev', s', ((name, consumed (w ++ s') s') :: ext)%list.
    repeat split; try assumption.
    intros n v [[= <- <-]|Hin]; [|exact (P n v Hin)].
    rewrite consumed_append. apply part_of_refl.
  - assert (k prev s c = Some x) as Hk.
    { destruct s as [|a [|b s']]; try discriminate; [exact H|].
      destruct (Ascii.eqb a newline); [exact H | discriminate]. }
    exists "", prev, s, []. repeat split; try assumption. intros n v [].
  - destruct (xorb (word_before prev) (word_after s)); [|discriminate].
    exists "", prev, s, []. repeat split; try assumption. intros n v [].
Qed.

Lemma lookup_in (name v : string) (c : captures) :
  lookup name c = Some v -> In (name, v) c.
Proof.
  induction c as [|[n v'] c IH]; simpl; [discriminate|].
  destruct (String.eqb n name) eqn:E.
  - apply String.eqb_eq in E. subst n. intros [= <-]. now left.
  - intros H. right. exact (IH H).
Qed.

(** The text of a group of a match at the start of [s] stands in [s]. *)
Lemma re_match_group_part (r : regex) (s : string) (m : matched)
  (name v : string) :
  re_match r s = Some m -> lookup name (groups m) = Some v -> part_of v s.
Proof.
  unfold re_match, match_at. intros H Hl.
  apply rmatch_within in H as (w & prev' & s' & ext & -> & P & H).
  injection H as <-. cbn [groups] in Hl. rewrite app_nil_r in Hl.
  apply part_of_app_l. exact (P name v (lookup_in _ _ _ Hl)).
Qed.

Lemma match_at_sound (r : regex) (prev : option ascii) (s : string)
  (m : matched) :
  match_at r prev s = Some m ->
  s = text m ++ rest m /\ lang r (text m) /\ covers r (groups m).
Proof.
  unfold match_at. intros H.
  apply rmatch_sound in H as (w & prev' & s' & ext & -> & L & C & H).
  injection H as <-. simpl. rewrite consumed_append, app_nil_r. auto.
Qed.

Lemma search_from_sound (r : regex) (s : string) :
  forall prev skipped m,
    search_from r prev s = Some (skipped, m) ->
    s = skipped ++ text m ++ rest m /\ lang r (text m) /\ covers r (groups m).
Proof.
  induction s as [|a s IH]; intros prev skipped m H; simpl in H.
  - destruct (match_at r prev "") as [m0|] eqn:E; [|discriminate].
    injection H as <- <-. now apply match_at_sound in E.
  - destruct (match_at r prev (String a s)) as [m0|] eqn:E.
    + injection H as <- <-. now apply match_at_sound in E.
    + destruct (search_from r (Some a) s) as [[sk m0]|] eqn:E'; [|discriminate].
      injection H as <- <-. apply IH in E' as (-> & L & C). auto.
Qed.

(** Every text [re.findall] returns is a text of the pattern. *)
Lemma findall_lang (r : regex) (t : string) :
  forall fuel prev s, In t (findall_from fuel r prev s) -> lang r t.
Proof.
  induction fuel as [|fuel IH]; intros prev s H; simpl in H; [destruct H|].
  destruct (search_from r prev s) as [[skipped m]|] eqn:E; [|destruct H].
  apply search_from_sound in E as (_ & L & _).
  destruct (text m) as [|a t'] eqn:Et.
  - destruct (rest m) as [|b s'].
    + destruct H as [<-|[]]. exact L.
    + destruct H as [<-|H]; [exact L | exact (IH _ _ H)].
  - destruct H as [<-|H]; [exact L | exact (IH _ _ H)].
Qed.

(** Every text [re.findall] returns stands in the subject. *)
Lemma findall_part (r : regex) (t : string) :
  forall fuel prev s, In t (findall_from fuel r prev s) -> part_of t s.
Proof.
  induction fuel as [|fuel IH]; intros prev s H; simpl in H; [destruct H|].
  destruct (search_from r prev s) as [[skipped m]|] eqn:E; [|destruct H].
  apply search_from_sound in E as (-> & _ & _).
  assert (Hhere : part_of (text m) (skipped ++ text m ++ rest m))
    by now exists skipped, (rest m).
  assert (Hrest : forall u, part_of u (rest m) ->
                    part_of u (skipped ++ text m ++ rest m))
    by (intros u Hu; now apply part_of_app_r, part_of_app_r).
  destruct (text m) as [|a t'] eqn:Et.
  - destruct (rest m) as [|b s'] eqn:Er.
    + destruct H as [<-|[]]. exact Hhere.
    + destruct H as [<-|H]; [exact Hhere|].
      apply Hrest. apply (part_of_app_r _ (String b "") s'). exact (IH _ _ H).
  - destruct H as [<-|H]; [exact Hhere|]. apply Hrest. exact (IH _ _ H).
Qed.

(** Every text [re.split] returns stands in the subject. *)
Lemma split_part (r : regex) (t : string) :
  forall fuel prev s, In t (split_from fuel r prev s) -> part_of t s.
Proof.
  induction fuel as [|fuel IH]; intros prev s H; simpl in H.
  - destruct H as [<-|[]]. apply part_of_refl.
  - destruct (search_from r prev s) as [[skipped m]|] eqn:E;
      [|destruct H as [<-|[]]; apply part_of_refl].
    destruct (text m) as [|a t'] eqn:Et;
      [destruct H as [<-|[]]; apply part_of_refl|].
    apply search_from_sound in E as (-> & _ & _). rewrite Et.
    destruct H as [<-|H].
    + apply part_of_app_l, part_of_refl.
    + apply part_of_app_r, part_of_app_r. exact (IH _ _ H).
Qed.

Lemma contains_middle (sub a b : string) : contains sub (a ++ sub ++ b) = true.
Proof.
  assert (Hp : forall sub b, prefix sub (sub ++ b) = true).
  { clear. induction sub as [|x sub IH]; intros b; simpl; [now destruct b|].
    destruct (ascii_dec x x); [apply IH | congruence]. }
  induction a as [|x a IH]; simpl.
  - specialize (Hp sub b). destruct (sub ++ b); cbn [contains]; now rewrite Hp.
  - rewrite IH. apply orb_true_r.
Qed.

End ReFacts.

(** ** More on the intent parser *)

Module ParserMore.
Import Str Re Parser ReSpec ReFacts.
Open Scope string_scope.

(** A text of the e-mail shape holds the sign [@]. *)
Lemma email_shape_at (a : string) :
  lang email_pattern a -> contains "@" a = true.
Proof.
  intros (w1 & w2 & -> & _ & (w3 & w4 & -> & (c & -> & Hc) & _)).
  apply Ascii.eqb_eq in Hc. subst c.
  exact (contains_middle "@" w1 w4).
Qed.

Lemma mapped_in (key v : string) (table : list (string * string)) :
  mapped key table = Some v -> In v (map snd table).
Proof.
  induction table as [|[k v'] table IH]; simpl; [discriminate|].
  destruct (String.eqb k key); [intros [= <-]; now left | right; auto].
Qed.

Lemma map_names_table (parts : list string) (a : string) :
  In a (map_names parts) -> In a table_addresses.
Proof.
  induction parts as [|name parts IH]; cbn [map_names]; [intros []|].
  destruct (String.eqb (strip name) ""); [exact IH|].
  destruct (mapped (lower (strip name)) email_mapping) as [address|] eqn:E;
    [|exact IH].
  intros [<-|H]; [|exact (IH H)].
  exact (mapped_in _ _ _ E).
Qed.

(** An address [map_names] returns is what the static table gives for one of
    the parts, stripped and lowered. *)
Lemma map_names_from (parts : list string) (a : string) :
  In a (map_names parts) ->
  exists name, In name parts
               /\ mapped (lower (strip name)) email_mapping = Some a.
Proof.
  induction parts as [|name parts IH]; cbn [map_names]; [intros []|].
  assert (Hrest : In a (map_names parts) ->
            exists name0, In name0 (name :: parts)
                          /\ mapped (lower (strip name0)) email_mapping = Some a).
  { intros H. destruct (IH H) as (n & Hin & Hn). exists n. split; [now right | exact Hn]. }
  destruct (String.eqb (strip name) ""); [exact Hrest|].
  destruct (mapped (lower (strip name)) email_mapping) as [address|] eqn:E;
    [|exact Hrest].
  intros [<-|H]; [|exact (Hrest H)].
  exists name. split; [now left | exact E].
Qed.

(** Every attendee [resolve] returns is an address of the static table or a
    text of the e-mail shape. *)
Lemma resolve_addresses (raw : attendees_value) (l : list string) (a : string) :
  resolve raw = Ok l -> In a l ->
  In a table_addresses \/ lang email_pattern a.
Proof.
  destruct raw as [|s|]; simpl; try discriminate.
  destruct (re_findall email_pattern s) as [|e found] eqn:E.
  - intros [= <-] H. left. exact (map_names_table _ _ H).
  - intros [= <-] H. right. rewrite <- E in H.
    exact (findall_lang email_pattern a _ _ _ H).
Qed.

(** Every attendee [resolve] returns comes from the text: it is the address
    of the static table for a name that stands in the text, or a text of the
    e-mail shape that stands in it. *)
Lemma resolve_from_text (s : string) (l : list string) (a : string) :
  resolve (Text s) = Ok l -> In a l ->
  (exists name, part_of name s
                /\ mapped (lower (strip name)) email_mapping = Some a)
  \/ (lang email_pattern a /\ part_of a s).
Proof.
  cbn [resolve].
  destruct (re_findall email_pattern s) as [|e found] eqn:E.
  - intros [= <-] H. left.
    apply map_names_from in H as (name & Hin & Hn).
    exists name. split; [|exact Hn].
    exact (split_part separator_pattern name _ _ _ Hin).
  - intros [= <-] H. right. rewrite <- E in H. split.
    + exact (findall_lang email_pattern a _ _ _ H).
    + exact (findall_part email_pattern a _ _ _ H).
Qed.

Lemma first_match_some (ps : list regex) (query : string) (p : regex)
  (m : matched) :
  first_match ps query = Some (p, m) -> In p ps /\ re_match p query = Some m.
Proof.
  induction ps as [|p0 ps IH]; simpl; [discriminate|].
  destruct (re_match p0 query) as [m0|] eqn:E.
  - intros [= <- <-]. auto.
  - intros H. apply IH in H as [H1 H2]. auto.
Qed.

(** A match of a pattern of [front] decides the loop before it reaches the
    patterns after [front]. *)
Lemma first_match_front (front back : list regex) (query : string) :
  (exists p, In p front /\ re_match p query <> None) ->
  exists p m, first_match (front ++ back) query = Some (p, m)
              /\ In p front /\ re_match p query = Some m.
Proof.
  induction front as [|p0 front IH]; intros (p & Hin & Hm); [destruct Hin|].
  simpl. destruct (re_match p0 query) as [m0|] eqn:E.
  - exists p0, m0. auto.
  - destruct Hin as [<-|Hin]; [congruence|].
    destruct (IH (ex_intro _ p (conj Hin Hm))) as (p' & m' & H1 & H2 & H3).
    exists p', m'. auto.
Qed.

Lemma patterns_split : patterns = (attendee_patterns ++ [first_meeting_pattern])%list.
Proof. reflexivity. Qed.

(** After a match of one of the first four patterns the value under
    ["attendees"] is the text of the group. *)
Lemma attendees_after_match (p : regex) (query : string) (m : matched) :
  In p attendee_patterns -> re_match p query = Some m ->
  exists text, attendees (update initial (groupdict p m)) = Text text.
Proof.
  intros Hin Hm. apply match_at_sound in Hm as (_ & _ & C).
  assert (Hg : lookup "attendees" (groups m) <> None).
  { apply C. destruct Hin as [<-|[<-|[<-|[<-|[]]]]]; vm_compute; reflexivity. }
  destruct (lookup "attendees" (groups m)) as [v|] eqn:E; [|congruence].
  exists v. unfold groupdict.
  destruct Hin as [<-|[<-|[<-|[<-|[]]]]].
  - replace (group_names create_pattern) with ["attendees"; "time"; "summary"]
      by (vm_compute; reflexivity).
    simpl. now rewrite E.
  - replace (group_names reschedule_pattern)
      with ["attendees"; "old_time"; "time"; "summary"]
      by (vm_compute; reflexivity).
    simpl. now rewrite E.
  - replace (group_names cancel_pattern) with ["attendees"; "summary"]
      by (vm_compute; reflexivity).
    simpl. now rewrite E.
  - replace (group_names generic_pattern) with ["summary"; "attendees"; "time"]
      by (vm_compute; reflexivity).
    simpl. now rewrite E.
Qed.

(** After a match of the fifth pattern it is still the empty list. *)
Lemma attendees_after_first_meeting (m : matched) :
  attendees (update initial (groupdict first_meeting_pattern m)) = EmptyList.
Proof.
  unfold groupdict.
  replace (group_names first_meeting_pattern) with ["old_time"; "time"; "summary"]
    by (vm_compute; reflexivity).
  reflexivity.
Qed.

Lemma attendees_set_is_first (d : query_dict) :
  attendees (set_is_first d) = attendees d.
Proof. reflexivity. Qed.

Lemma attendees_apply_patterns (query : string) (p : regex) (m : matched) :
  first_match patterns query = Some (p, m) ->
  attendees (apply_patterns query) = attendees (update initial (groupdict p m)).
Proof.
  intros H. unfold apply_patterns. rewrite H.
  now destruct (contains "first" (lower query)).
Qed.

(** After a match of one of the first four patterns the value under
    ["attendees"] is the text of the group of that name. *)
Lemma attendees_group_after_match (p : regex) (query : string) (m : matched) :
  In p attendee_patterns -> re_match p query = Some m ->
  exists v, lookup "attendees" (groups m) = Some v
            /\ attendees (update initial (groupdict p m)) = Text v.
Proof.
  intros Hin Hm. apply match_at_sound in Hm as (_ & _ & C).
  assert (Hg : lookup "attendees" (groups m) <> None).
  { apply C. destruct Hin as [<-|[<-|[<-|[<-|[]]]]]; vm_compute; reflexivity. }
  destruct (lookup "attendees" (groups m)) as [v|] eqn:E; [|congruence].
  exists v. split; [reflexivity|]. unfold groupdict.
  destruct Hin as [<-|[<-|[<-|[<-|[]]]]].
  - replace (group_names create_pattern) with ["attendees"; "time"; "summary"]
      by (vm_compute; reflexivity).
    simpl. now rewrite E.
  - replace (group_names reschedule_pattern)
      with ["attendees"; "old_time"; "time"; "summary"]
      by (vm_compute; reflexivity).
    simpl. now rewrite E.
  - replace (group_names cancel_pattern) with ["attendees"; "summary"]
      by (vm_compute; reflexivity).
    simpl. now rewrite E.
  - replace (group_names generic_pattern) with ["summary"; "attendees"; "time"]
      by (vm_compute; reflexivity).
    simpl. now rewrite E.
Qed.

(** A text under ["attendees"] stands in the query. *)
Lemma attendees_text_part (query s : string) :
  attendees (apply_patterns query) = Text s -> part_of s query.
Proof.
  destruct (first_match patterns query) as [[pat m]|] eqn:E.
  - rewrite (attendees_apply_patterns _ _ _ E).
    apply first_match_some in E as [Hin Hm].
    rewrite patterns_split in Hin. apply in_app_or in Hin as [Hin|[<-|[]]].
    + destruct (attendees_group_after_match _ _ _ Hin Hm) as (v & Hl & ->).
      intros [= <-]. exact (re_match_group_part _ _ _ _ _ Hm Hl).
    + rewrite attendees_after_first_meeting. discriminate.
  - unfold apply_patterns. rewrite E. discriminate.
Qed.

(** X1: every attendee of a parsed query is an address that comes from the
    query: the address the static table gives for a name that stands in the
    query (stripped of white space and lowered), hence one of its six
    addresses, or a text of the e-mail shape that stands in the query.  In
    both cases it holds the sign [@]: no display name gets through. *)
Theorem parsed_attendees_are_addresses (query : string) (p : parsed_query)
  (a : string) :
  parse_user_query query = Ok p -> In a (p_attendees p) ->
  ((In a table_addresses
    /\ exists name, part_of name query
                    /\ mapped (lower (strip name)) email_mapping = Some a)
   \/ (lang email_pattern a /\ part_of a query))
  /\ contains "@" a = true.
Proof.
  unfold parse_user_query.
  destruct (resolve (attendees (apply_patterns query))) as [l|e] eqn:E;
    simpl; [|discriminate].
  intros [= <-] H. simpl in H.
  destruct (attendees (apply_patterns query)) as [|s|] eqn:Ea;
    try discriminate E.
  apply attendees_text_part in Ea.
  destruct (resolve_from_text _ _ _ E H) as [(name & Hn & Hm)|[Hl Hp]].
  - assert (Ht : In a table_addresses) by exact (mapped_in _ _ _ Hm).
    split.
    + left. split; [exact Ht|]. exists name.
      split; [exact (part_of_trans _ _ _ Hn Ea) | exact Hm].
    + unfold table_addresses in Ht. simpl in Ht.
      repeat (destruct Ht as [<-|Ht]; [vm_compute; reflexivity|]).
      destruct Ht.
  - split; [|now apply email_shape_at].
    right. split; [exact Hl | exact (part_of_trans _ _ _ Hp Ea)].
Qed.

Lemma parsed_attendees_are_addresses_witness :
  ((In "akashmehta556@gmail.com" table_addresses
    /\ exists name, part_of name "Team sync with Akash and Eliana at 2pm"
                    /\ mapped (lower (strip name)) email_mapping
                       = Some "akashmehta556@gmail.com")
   \/ (lang email_pattern "akashmehta556@gmail.com"
       /\ part_of "akashmehta556@gmail.com"
            "Team sync with Akash and Eliana at 2pm"))
  /\ contains "@" "akashmehta556@gmail.com" = true.
Proof.
  apply (parsed_attendees_are_addresses "Team sync with Akash and Eliana at 2pm"
           {| p_summary := "Team sync"; p_time := Some "2pm";
              p_old_time := None;
              p_attendees := ["akashmehta556@gmail.com"; "eliana@gocadre.ai"];
              p_is_first := false |}).
  - vm_compute; reflexivity.
  - simpl; tauto.
Defined.

Lemma parse_user_query_raises (query : string) :
  (forall pattern, In pattern attendee_patterns ->
     re_match pattern query = None) ->
  parse_user_query query
  = Raise (TypeError "expected string or bytes-like object, got 'list'").
Proof.
  intros Hnone. unfold parse_user_query.
  destruct (first_match patterns query) as [[pat m]|] eqn:E.
  - rewrite (attendees_apply_patterns _ _ _ E).
    apply first_match_some in E as [Hin Hm].
    rewrite patterns_split in Hin. apply in_app_or in Hin as [Hin|[<-|[]]].
    + rewrite (Hnone _ Hin) in Hm. discriminate Hm.
    + now rewrite attendees_after_first_meeting.
  - unfold apply_patterns. now rewrite E.
Qed.

(** X2: [parse_user_query] returns a parsed query exactly when one of its
    first four patterns matches the query.  A query that only the fifth
    pattern ("reschedule the first meeting <date> to <time>") matches, or
    that no pattern matches, makes it raise [TypeError]: the value under
    ["attendees"] is then the list of the initial dictionary, which
    [re.findall] refuses. *)
Theorem parse_user_query_returns_iff (query : string) :
  ((exists p, parse_user_query query = Ok p)
   <-> (exists pattern, In pattern attendee_patterns
                        /\ re_match pattern query <> None))
  /\ ((forall pattern, In pattern attendee_patterns ->
         re_match pattern query = None)
      -> parse_user_query query
         = Raise (TypeError "expected string or bytes-like object, got 'list'")).
Proof.
  split; [split|].
  - intros (p & Hp). unfold parse_user_query in Hp.
    destruct (first_match patterns query) as [[pat m]|] eqn:E.
    + rewrite (attendees_apply_patterns _ _ _ E) in Hp.
      apply first_match_some in E as [Hin Hm].
      rewrite patterns_split in Hin. apply in_app_or in Hin as [Hin|[<-|[]]].
      * exists pat. split; [exact Hin | congruence].
      * rewrite attendees_after_first_meeting in Hp. discriminate Hp.
    + unfold apply_patterns in Hp. rewrite E in Hp. discriminate Hp.
  - intros Hex.
    destruct (first_match_front attendee_patterns [first_meeting_pattern]
                query Hex) as (pat & m & E & Hin & Hm).
    rewrite <- patterns_split in E.
    destruct (attendees_after_match pat query m Hin Hm) as (text & Ht).
    unfold parse_user_query.
    rewrite (attendees_apply_patterns _ _ _ E), Ht. simpl.
    destruct (re_findall email_pattern text); eexists; reflexivity.
  - apply parse_user_query_raises.
Qed.

End ParserMore.

(** ** More on the free/busy sweep *)

Module FreeBusyMore.
Import FreeBusy FreeBusyFacts.

Lemma report_of_suggested (l : list interval) (a b : Z) :
  report_of l = Suggested a b -> In (a, b) l.
Proof.
  destruct l as [|[a' b'] rest]; simpl; [discriminate|].
  intros [= <- <-]. now left.
Qed.

(** X3: whatever the two calendars hold (events in any order, overlapping or
    nested), the slot [find_conflict_free_slot] suggests overlaps no event it
    read, starts at [now] or later and lasts at least one hour. *)
Theorem suggested_slot_is_free (now : Z) (calendars : list answer)
  (busy : list interval) (a b : Z) :
  collect_busy calendars [] = Ok busy ->
  find_conflict_free_slot now calendars = Ok (Suggested a b) ->
  now <= a /\ 60 * MINUTE <= b - a
  /\ forall iv, In iv busy -> ~ overlap (a, b) iv.
Proof.
  intros Hb. unfold find_conflict_free_slot. rewrite Hb.
  cbv beta iota delta [bind]. intros [= H].
  apply report_of_suggested in H.
  split; [|split].
  - unfold free_slots in H. rewrite sweep_emitted in H.
    exact (emitted_start _ _ _ _ _ H).
  - unfold free_slots in H. rewrite sweep_emitted in H.
    exact (emitted_duration _ _ _ _ _ H).
  - intros iv Hiv. exact (free_slots_no_overlap _ _ _ _ _ _ H Hiv).
Qed.

Lemma suggested_slot_is_free_witness :
  let busy := [(5 * HOUR, 6 * HOUR); (0, 3 * HOUR); (HOUR, 2 * HOUR)] in
  0 <= 3 * HOUR /\ 60 * MINUTE <= 5 * HOUR - 3 * HOUR
  /\ forall iv, In iv busy -> ~ overlap (3 * HOUR, 5 * HOUR) iv.
Proof.
  apply (suggested_slot_is_free 0
           [Listed [mk_cal_event (Some (5 * HOUR)) (Some (6 * HOUR))];
            Listed [mk_cal_event (Some 0) (Some (3 * HOUR));
                    mk_cal_event (Some HOUR) (Some (2 * HOUR))]]).
  - vm_compute; reflexivity.
  - vm_compute; reflexivity.
Defined.

Lemma sort_forall (P : interval -> Prop) (l : list interval) :
  Forall P l -> Forall P (sort l).
Proof.
  rewrite !Forall_forall. intros H x Hx. apply H. now apply sort_in.
Qed.

Lemma emitted_ordered (m end_ : Z) (busy : list interval) :
  Forall (fun b => fst b <= snd b) busy ->
  forall p, StronglySorted (fun f g => snd f <= fst g) (emitted m p end_ busy).
Proof.
  induction 1 as [|[s e] rest Hse Hrest IH]; intros p; simpl.
  - destruct (m <=? end_ - p); repeat constructor.
  - simpl in Hse. destruct (m <=? s - p); simpl; [|apply IH].
    constructor; [apply IH|].
    apply Forall_forall. intros g Hg. apply emitted_start in Hg. simpl. lia.
Qed.

(** X4: when every busy interval ends no earlier than it starts, the free
    slots come in chronological order and do not meet: each ends before the
    next starts; each starts at [now] or later and lasts at least the minimum
    duration. *)
Theorem free_slots_ordered (m now end_ : Z) (busy : list interval) :
  Forall (fun b => fst b <= snd b) busy ->
  StronglySorted (fun f g => snd f <= fst g) (free_slots m now end_ busy)
  /\ Forall (fun f => now <= fst f /\ m <= duration f)
       (free_slots m now end_ busy).
Proof.
  intros H. unfold free_slots. rewrite sweep_emitted. split.
  - apply emitted_ordered. now apply sort_forall.
  - apply Forall_forall. intros f Hf. split.
    + exact (emitted_start _ _ _ _ _ Hf).
    + exact (emitted_duration _ _ _ _ _ Hf).
Qed.

Lemma free_slots_ordered_witness :
  let busy := [(5 * HOUR, 6 * HOUR); (0, 3 * HOUR); (HOUR, 2 * HOUR)] in
  free_slots HOUR 0 (7 * DAY) busy = [(3 * HOUR, 5 * HOUR); (6 * HOUR, 7 * DAY)]
  /\ StronglySorted (fun f g => snd f <= fst g) (free_slots HOUR 0 (7 * DAY) busy)
  /\ Forall (fun f => 0 <= fst f /\ HOUR <= duration f)
       (free_slots HOUR 0 (7 * DAY) busy).
Proof.
  split; [vm_compute; reflexivity|].
  apply (free_slots_ordered HOUR 0 (7 * DAY)
           [(5 * HOUR, 6 * HOUR); (0, 3 * HOUR); (HOUR, 2 * HOUR)]).
  repeat constructor; simpl; vm_compute; discriminate.
Defined.

(** X5: when the busy intervals, none of which starts after the end of the
    window, cover every instant of the window, [find_conflict_free_slot]
    answers that there is no free slot. *)
Theorem fully_booked_no_slot (now : Z) (calendars : list answer)
  (busy : list interval) :
  collect_busy calendars [] = Ok busy ->
  Forall (fun b => fst b <= now + 7 * DAY) busy ->
  (forall t, now <= t < now + 7 * DAY -> covered t busy) ->
  find_conflict_free_slot now calendars = Ok NoSlot.
Proof.
  intros Hb Hstart Hcov. unfold find_conflict_free_slot. rewrite Hb.
  cbv beta iota delta [bind].
  destruct (free_slots (3600 * SECOND) now (now + 7 * DAY) busy)
    as [|f rest] eqn:E; [reflexivity|].
  exfalso.
  assert (Hf : In f (free_slots (3600 * SECOND) now (now + 7 * DAY) busy))
    by (rewrite E; now left).
  assert (Hd : 3600 * SECOND <= duration f).
  { unfold free_slots in Hf. rewrite sweep_emitted in Hf.
    exact (emitted_duration _ _ _ _ _ Hf). }
  assert (Hs : now <= fst f).
  { unfold free_slots in Hf. rewrite sweep_emitted in Hf.
    exact (emitted_start _ _ _ _ _ Hf). }
  assert (He : snd f <= now + 7 * DAY).
  { unfold free_slots in Hf. rewrite sweep_emitted in Hf.
    apply (emitted_end _ _ _ _ _ (sort_forall _ _ Hstart) Hf). }
  assert (Hpos : 0 < 3600 * SECOND) by reflexivity.
  unfold duration in Hd.
  assert (Hw : now <= fst f < now + 7 * DAY) by lia.
  destruct (Hcov (fst f) Hw) as (b & Hin & Hb').
  apply (free_slots_no_overlap _ _ _ _ f b Hf Hin).
  exists (fst f). split; [unfold inside; lia | exact Hb'].
Qed.

Lemma fully_booked_no_slot_witness :
  find_conflict_free_slot 0
    [Listed [mk_cal_event (Some 0) (Some (4 * DAY))];
     Listed [mk_cal_event (Some (3 * DAY)) (Some (7 * DAY))]]
  = Ok NoSlot.
Proof.
  apply (fully_booked_no_slot 0 _ [(0, 4 * DAY); (3 * DAY, 7 * DAY)]).
  - vm_compute; reflexivity.
  - repeat constructor; simpl; vm_compute; discriminate.
  - intros t Ht. destruct (Z_lt_ge_dec t (4 * DAY)) as [H|H].
    + exists (0, 4 * DAY). split; [now left | unfold inside; cbn [fst snd]; lia].
    + exists (3 * DAY, 7 * DAY). split; [right; now left|].
      unfold inside; cbn [fst snd]. revert H Ht.
      unfold DAY, HOUR, MINUTE, SECOND. lia.
Defined.

(** *** Datetimes of either kind *)

Lemma dt_insert_in (x y : dt_interval) (l : list dt_interval) :
  In y (dt_insert x l) <-> y = x \/ In y l.
Proof.
  induction l as [|z l IH]; simpl; [intuition congruence|].
  destruct (tuple_le (instants x) (instants z)); simpl; [intuition congruence|].
  rewrite IH. intuition congruence.
Qed.

Lemma dt_sorted_in (y : dt_interval) (l : list dt_interval) :
  In y (fold_right dt_insert [] l) <-> In y l.
Proof.
  induction l as [|x l IH]; simpl; [tauto|].
  rewrite dt_insert_in, IH. intuition congruence.
Qed.

Lemma dt_insert_instants (x : dt_interval) (l : list dt_interval) :
  map instants (dt_insert x l) = insert (instants x) (map instants l).
Proof.
  induction l as [|z l IH]; simpl; [reflexivity|].
  destruct (tuple_le (instants x) (instants z)); simpl;
    [reflexivity | now rewrite IH].
Qed.

Lemma dt_sorted_instants (l : list dt_interval) :
  map instants (fold_right dt_insert [] l) = sort (map instants l).
Proof.
  unfold sort. induction l as [|x l IH]; simpl; [reflexivity|].
  now rewrite dt_insert_instants, IH.
Qed.

Lemma both_aware_inv (b : dt_interval) :
  both_aware b = true ->
  exists s e, b = (Aware s, Aware e).
Proof.
  destruct b as [[s|s] [e|e]]; try discriminate. intros _. now exists s, e.
Qed.

(** Aware datetimes can always be compared. *)
Lemma clashing_aware (l : list dt_interval) :
  Forall (fun b => both_aware b = true) l -> clashing l = false.
Proof.
  induction 1 as [|x l Hx Hl IH]; [reflexivity|].
  cbn [clashing]. rewrite IH, orb_false_r.
  apply both_aware_inv in Hx as (s & e & ->).
  clear IH. induction Hl as [|y l Hy Hl IH]; [reflexivity|].
  cbn [existsb]. rewrite IH, orb_false_r.
  apply both_aware_inv in Hy as (s' & e' & ->).
  unfold tuple_clash, naive_aware. cbn. now rewrite andb_false_r.
Qed.

(** The state of the loop on datetimes, seen as a state of the loop on
    instants. *)
Lemma dt_loop_aware (busy : list dt_interval) :
  Forall (fun b => both_aware b = true) busy ->
  forall st, is_aware (dt_pointer st) = true ->
  exists st',
    dt_loop busy st = Ok st'
    /\ is_aware (dt_pointer st') = true
    /\ {| pointer := instant (dt_pointer st');
          free := map instants (dt_free st') |}
       = fold_left (sweep_step (3600 * SECOND)) (map instants busy)
           {| pointer := instant (dt_pointer st);
              free := map instants (dt_free st) |}.
Proof.
  induction 1 as [|b busy Hb _ IH]; intros st Hp.
  - exists st. now repeat split.
  - apply both_aware_inv in Hb as (s & e & ->).
    destruct st as [[p|p] fr]; [|discriminate]. cbn [dt_pointer dt_free] in *.
    cbn [dt_loop dt_sub dt_max naive_aware is_aware Bool.eqb negb bind instant
         dt_pointer dt_free].
    destruct (IH {| dt_pointer := if p <? e then Aware e else Aware p;
                    dt_free := if 3600 * SECOND <=? s - p
                               then fr ++ [(Aware p, Aware s)] else fr |})
      as (st' & E & Ha & Hst); [cbn [dt_pointer]; now destruct (p <? e)|].
    exists st'. split; [exact E|]. split; [exact Ha|].
    rewrite Hst. cbn [map fold_left dt_pointer dt_free].
    f_equal. unfold sweep_step, instants. cbn [fst snd pointer free instant].
    f_equal.
    + destruct (Z.ltb_spec p e); cbn [instant]; lia.
    + destruct (3600 * SECOND <=? s - p); [|reflexivity].
      now rewrite map_app.
Qed.

(** On aware datetimes, the sort and the sweep are those of the instants. *)
Lemma dt_sweep_aware (now : Z) (busy : list dt_interval) :
  Forall (fun b => both_aware b = true) busy ->
  dt_sweep now busy
  = Ok (report_of (free_slots (3600 * SECOND) now (now + 7 * DAY)
                     (map instants busy))).
Proof.
  intros Hb. unfold dt_sweep, dt_sort. rewrite (clashing_aware _ Hb).
  cbn [bind].
  destruct (dt_loop_aware (fold_right dt_insert [] busy)) with
    (st := {| dt_pointer := Aware now; dt_free := [] |})
    as (st' & E & Ha & Hst); [|reflexivity|].
  { apply Forall_forall. intros b Hin.
    rewrite Forall_forall in Hb. exact (Hb b (proj1 (dt_sorted_in b busy) Hin)). }
  rewrite E. cbn [bind]. destruct st' as [[p|p] fr]; [|discriminate].
  cbn [dt_pointer dt_free dt_sub naive_aware is_aware Bool.eqb negb bind
       instant] in *.
  f_equal. f_equal. unfold free_slots, sweep, sweep_loop.
  rewrite <- dt_sorted_instants. cbn [map] in Hst. rewrite <- Hst.
  cbn [pointer free].
  destruct (3600 * SECOND <=? now + 7 * DAY - p); [|reflexivity].
  now rewrite map_app.
Qed.

Lemma instants_aware_pair (l : list interval) :
  map instants (map aware_pair l) = l.
Proof.
  induction l as [|[a b] l IH]; [reflexivity|]. simpl. now rewrite IH.
Qed.

Lemma aware_pair_aware (l : list interval) :
  Forall (fun b => both_aware b = true) (map aware_pair l).
Proof. induction l; constructor; auto. Qed.

Lemma append_parsed_aware (events : list cal_event) :
  forall busy,
    append_parsed (map raw_of_event events) (map aware_pair busy)
    = (map aware_pair (fst (append_events events busy)),
       snd (append_events events busy)).
Proof.
  induction events as [|ev events IH]; intros busy; [reflexivity|].
  cbn [map append_parsed append_events raw_of_event start_parsed end_parsed].
  destruct (start_dateTime ev) as [s|]; [|reflexivity].
  destruct (end_dateTime ev) as [e|]; [|reflexivity].
  cbn [option_map parser_parse parse_dateTime].
  rewrite <- IH. f_equal. now rewrite map_app.
Qed.

Lemma collect_parsed_aware (calendars : list answer) :
  forall busy,
    collect_parsed (map raw_of calendars) (map aware_pair busy)
    = match collect_busy calendars busy with
      | Ok l => Ok (map aware_pair l)
      | Raise e => Raise e
      end.
Proof.
  induction calendars as [|[e|e|events] rest IH]; intros busy;
    cbn [map raw_of collect_parsed collect_busy]; auto.
  rewrite append_parsed_aware. cbn [fst]. apply IH.
Qed.

(** On answers whose datetimes are all aware, [find_conflict_free_slot] on
    datetimes of either kind is [find_conflict_free_slot] on instants. *)
Lemma find_conflict_free_slot_tz_aware (now : Z) (calendars : list answer) :
  find_conflict_free_slot_tz now (map raw_of calendars)
  = find_conflict_free_slot now calendars.
Proof.
  unfold find_conflict_free_slot_tz, find_conflict_free_slot.
  change (@nil dt_interval) with (map aware_pair []).
  rewrite (collect_parsed_aware calendars []).
  destruct (collect_busy calendars []) as [busy|e]; [|reflexivity].
  cbn [bind]. rewrite dt_sweep_aware by apply aware_pair_aware.
  now rewrite instants_aware_pair.
Qed.

(** With an aware pointer, the loop raises at the first tuple that holds a
    naive datetime: at the subtraction for its start, at [max] for its
    end. *)
Lemma dt_loop_naive (busy : list dt_interval) :
  Exists (fun b => both_aware b = false) busy ->
  forall st, is_aware (dt_pointer st) = true ->
  exists msg,
    (msg = "can't compare offset-naive and offset-aware datetimes"%string
     \/ msg = "can't subtract offset-naive and offset-aware datetimes"%string)
    /\ dt_loop busy st = Raise (TypeError msg).
Proof.
  induction busy as [|[s e] busy IH]; intros Hex st Hp;
    [inversion Hex|].
  destruct st as [[p|p] fr]; [|discriminate].
  cbn [dt_loop dt_pointer dt_free].
  destruct s as [s|s]; [|eexists; split; [right; reflexivity | reflexivity]].
  destruct e as [e|e]; [|eexists; split; [left; reflexivity | reflexivity]].
  cbn [dt_sub dt_max naive_aware is_aware Bool.eqb negb bind instant].
  apply IH; [|cbn [dt_pointer]; now destruct (p <? e)].
  inversion Hex as [? ? H|? ? H]; subst; [discriminate H | exact H].
Qed.

(** A naive datetime among the tuples makes the sort or the loop raise. *)
Lemma dt_sweep_naive (now : Z) (busy : list dt_interval) :
  Exists (fun b => both_aware b = false) busy ->
  exists msg,
    (msg = "can't compare offset-naive and offset-aware datetimes"%string
     \/ msg = "can't subtract offset-naive and offset-aware datetimes"%string)
    /\ dt_sweep now busy = Raise (TypeError msg).
Proof.
  intros Hex. unfold dt_sweep, dt_sort.
  destruct (clashing busy); [eexists; split; [left; reflexivity | reflexivity]|].
  cbn [bind].
  destruct (dt_loop_naive (fold_right dt_insert [] busy)) with
    (st := {| dt_pointer := Aware now; dt_free := [] |})
    as (msg & Hmsg & E); [|reflexivity|].
  { apply Exists_exists in Hex as (b & Hin & Hb).
    apply Exists_exists. exists b.
    split; [exact (proj2 (dt_sorted_in b busy) Hin) | exact Hb]. }
  exists msg. split; [exact Hmsg|]. now rewrite E.
Qed.

(** What [find_common_free_slot] read, when it read all of it, is what
    [find_conflict_free_slot] reads, by its instants. *)
Lemma append_event_times_parsed (events : list raw_event) :
  forall busy l dts,
    append_event_times events busy = Ok l ->
    exists new,
      append_parsed events dts = ((dts ++ new)%list, None)
      /\ l = (busy ++ map instants new)%list
      /\ forallb both_aware new
         = forallb (fun ev => with_offset (start_parsed ev)
                              && with_offset (end_parsed ev)) events.
Proof.
  induction events as [|ev events IH]; intros busy l dts H.
  - injection H as <-. exists []. now rewrite !app_nil_r.
  - destruct ev as [[s|] [e|]];
      cbn [append_event_times append_parsed start_parsed end_parsed
           parse_event_time parser_parse bind] in *; try discriminate.
    destruct (IH _ _ (dts ++ [(s, e)])%list H) as (new & E & -> & Hall).
    exists ((s, e) :: new). rewrite E, <- !app_assoc. cbn [app map].
    split; [reflexivity|]. split.
    + f_equal. f_equal. now destruct s, e.
    + cbn [forallb start_parsed end_parsed]. rewrite Hall.
      now destruct s, e.
Qed.

Lemma collect_busy_strict_parsed (calendars : list raw_answer) :
  forall busy l dts,
    collect_busy_strict calendars busy = Ok l ->
    exists new,
      collect_parsed calendars dts = Ok (dts ++ new)%list
      /\ l = (busy ++ map instants new)%list
      /\ forallb both_aware new = all_with_offset calendars.
Proof.
  induction calendars as [|[e|e|events] rest IH]; intros busy l dts H;
    cbn [collect_busy_strict collect_parsed] in *; try discriminate.
  - injection H as <-. exists []. now rewrite !app_nil_r.
  - destruct (append_event_times events busy) as [busy'|e] eqn:E;
      [|discriminate]. cbn [bind] in H.
    destruct (append_event_times_parsed events busy busy' dts E)
      as (new1 & E1 & -> & H1).
    rewrite E1. cbn [fst].
    destruct (IH _ _ (dts ++ new1)%list H) as (new2 & E2 & -> & H2).
    exists (new1 ++ new2)%list. rewrite E2, <- !app_assoc, map_app.
    repeat split. rewrite forallb_app, H1, H2. reflexivity.
Qed.

(** X6: when [find_common_free_slot], called with its defaults, returns,
    [find_conflict_free_slot] suggests the same slot (or none as well) for
    the same clock and the same answers of the gateway, provided that every
    [dateTime] listed has an offset.  When some [dateTime] has none,
    [find_common_free_slot] has read it as UTC, whereas
    [find_conflict_free_slot] raises a [TypeError]: it keeps the datetime
    naive and cannot compare it with, or subtract it from, an aware one.
    (The two functions wrap the slot in different texts.) *)
Theorem common_and_conflict_free_slot (now : Z) (calendars : list raw_answer)
  (r : report) :
  FindConflictFreeSlot now calendars = Ok r ->
  (all_with_offset calendars = true ->
   find_conflict_free_slot_tz now calendars = Ok r)
  /\ (all_with_offset calendars = false ->
      exists msg,
        (msg = "can't compare offset-naive and offset-aware datetimes"%string
         \/ msg = "can't subtract offset-naive and offset-aware datetimes"%string)
        /\ find_conflict_free_slot_tz now calendars = Raise (TypeError msg)).
Proof.
  unfold FindConflictFreeSlot, find_common_free_slot, find_conflict_free_slot_tz.
  destruct (collect_busy_strict calendars []) as [busy|e] eqn:E;
    cbn [bind]; [|discriminate].
  destruct (collect_busy_strict_parsed calendars [] busy [] E)
    as (new & E' & -> & Hall).
  cbn [app] in *. rewrite E'. cbn [bind]. intros [= <-]. split; intros Ho.
  - rewrite Ho in Hall. rewrite dt_sweep_aware.
    + now change (60 * 60 * SECOND) with (3600 * SECOND).
    + apply Forall_forall. intros b Hb.
      rewrite forallb_forall in Hall. now apply Hall.
  - apply dt_sweep_naive. rewrite Ho in Hall.
    apply Exists_exists.
    clear -Hall. induction new as [|b new IH]; [discriminate|].
    cbn [forallb] in Hall. apply andb_false_iff in Hall as [H|H].
    + exists b. split; [now left | exact H].
    + destruct (IH H) as (b' & Hin & Hb'). exists b'. split; [now right | exact Hb'].
Qed.

Lemma common_and_conflict_free_slot_witness :
  let with_offsets :=
    [RawListed [mk_raw_event (Some (Aware (2 * HOUR))) (Some (Aware (3 * HOUR)))];
     RawListed []] in
  let without :=
    [RawListed [mk_raw_event (Some (Naive (2 * HOUR))) (Some (Naive (3 * HOUR)))];
     RawListed []] in
  find_conflict_free_slot_tz 0 with_offsets = Ok (Suggested 0 (2 * HOUR))
  /\ FindConflictFreeSlot 0 without = Ok (Suggested 0 (2 * HOUR))
  /\ exists msg,
       (msg = "can't compare offset-naive and offset-aware datetimes"%string
        \/ msg = "can't subtract offset-naive and offset-aware datetimes"%string)
       /\ find_conflict_free_slot_tz 0 without = Raise (TypeError msg).
Proof.
  split; [|split].
  - apply (proj1 (common_and_conflict_free_slot 0
             [RawListed [mk_raw_event (Some (Aware (2 * HOUR)))
                                      (Some (Aware (3 * HOUR)))];
              RawListed []]
             (Suggested 0 (2 * HOUR)) eq_refl)).
    reflexivity.
  - reflexivity.
  - apply (proj2 (common_and_conflict_free_slot 0
             [RawListed [mk_raw_event (Some (Naive (2 * HOUR)))
                                      (Some (Naive (3 * HOUR)))];
              RawListed []]
             (Suggested 0 (2 * HOUR)) eq_refl)).
    reflexivity.
Defined.

(** *** All-day events *)

Lemma collect_busy_app (before calendars : list answer) :
  forall busy,
    collect_busy (before ++ calendars) busy
    = match collect_busy before busy with
      | Ok b => collect_busy calendars b
      | Raise e => Raise e
      end.
Proof.
  induction before as [|[e|e|events] before IH]; intros busy;
    cbn [app collect_busy]; auto.
Qed.

Lemma append_events_ignores_rest (pre post post' : list cal_event)
  (ev : cal_event) :
  start_dateTime ev = None \/ end_dateTime ev = None ->
  forall busy,
    append_events (pre ++ ev :: post) busy
    = append_events (pre ++ ev :: post') busy.
Proof.
  intros Hev. induction pre as [|e0 pre IH]; intros busy; simpl.
  - destruct (start_dateTime ev) as [s|]; simpl; [|auto].
    destruct (end_dateTime ev) as [e|]; simpl; [|auto].
    destruct Hev; discriminate.
  - destruct (start_dateTime e0) as [s|]; simpl; [|auto].
    destruct (end_dateTime e0) as [e|]; simpl; [|auto].
    apply IH.
Qed.

(** The reading of [find_common_free_slot] raises nothing but the
    [TypeError] of an absent [dateTime]. *)
Lemma append_event_times_raises (events : list raw_event) :
  forall busy e,
    append_event_times events busy = Raise e ->
    e = TypeError "Parser must be a string or character stream, not NoneType".
Proof.
  induction events as [|ev events IH]; intros busy e; [discriminate|].
  cbn [append_event_times].
  destruct (start_parsed ev) as [s|]; cbn [parse_event_time parser_parse bind];
    [|now intros [= <-]].
  destruct (end_parsed ev) as [e'|]; cbn [parser_parse bind];
    [|now intros [= <-]].
  apply IH.
Qed.

Lemma append_event_times_all_day (pre post : list raw_event) (ev : raw_event) :
  start_parsed ev = None \/ end_parsed ev = None ->
  forall busy,
    append_event_times (pre ++ ev :: post) busy
    = Raise (TypeError "Parser must be a string or character stream, not NoneType").
Proof.
  intros Hev. induction pre as [|e0 pre IH]; intros busy;
    cbn [app append_event_times].
  - destruct (start_parsed ev) as [s|];
      cbn [parse_event_time parser_parse bind]; [|reflexivity].
    destruct (end_parsed ev) as [e|]; cbn [parser_parse bind]; [|reflexivity].
    destruct Hev; discriminate.
  - destruct (start_parsed e0) as [s|];
      cbn [parse_event_time parser_parse bind]; [|reflexivity].
    destruct (end_parsed e0) as [e|]; cbn [parser_parse bind]; [|reflexivity].
    apply IH.
Qed.

Lemma collect_busy_strict_all_day (before : list raw_answer)
  (pre post : list raw_event) (ev : raw_event) (rest : list raw_answer) :
  start_parsed ev = None \/ end_parsed ev = None ->
  Forall (fun c => exists events, c = RawListed events) before ->
  forall busy,
    collect_busy_strict (before ++ RawListed (pre ++ ev :: post) :: rest) busy
    = Raise (TypeError "Parser must be a string or character stream, not NoneType").
Proof.
  intros Hev. induction 1 as [|c before (events & ->) _ IH]; intros busy;
    cbn [app collect_busy_strict].
  - now rewrite append_event_times_all_day.
  - destruct (append_event_times events busy) as [busy'|e] eqn:E; cbn [bind].
    + apply IH.
    + now rewrite (append_event_times_raises _ _ _ E).
Qed.

(** X7: an event without [dateTime] (an all-day event) ends the reading of
    its calendar, whichever user it belongs to.  [find_conflict_free_slot]
    ignores every event the gateway lists after it for that user, so its
    answer is the same whatever those events are; [find_common_free_slot]
    raises [TypeError], once the calendars read before it were listed. *)
Theorem all_day_event_hides_later_events (now : Z) :
  (forall (before : list answer) (pre post post' : list cal_event)
          (ev : cal_event) (rest : list answer),
     start_dateTime ev = None \/ end_dateTime ev = None ->
     find_conflict_free_slot now (before ++ Listed (pre ++ ev :: post) :: rest)
     = find_conflict_free_slot now (before ++ Listed (pre ++ ev :: post') :: rest))
  /\ (forall (before : list raw_answer) (pre post : list raw_event)
             (ev : raw_event) (rest : list raw_answer),
        start_parsed ev = None \/ end_parsed ev = None ->
        Forall (fun c => exists events, c = RawListed events) before ->
        FindConflictFreeSlot now (before ++ RawListed (pre ++ ev :: post) :: rest)
        = Raise (TypeError "Parser must be a string or character stream, not NoneType")).
Proof.
  split.
  - intros before pre post post' ev rest Hev.
    unfold find_conflict_free_slot. rewrite !collect_busy_app.
    destruct (collect_busy before []) as [busy|e]; [|reflexivity].
    cbn [collect_busy].
    now rewrite (append_events_ignores_rest pre post post' ev Hev busy).
  - intros before pre post ev rest Hev Hb.
    unfold FindConflictFreeSlot, find_common_free_slot.
    now rewrite (collect_busy_strict_all_day before pre post ev rest Hev Hb).
Qed.

Lemma all_day_event_hides_later_events_witness :
  let all_day := mk_cal_event None None in
  let meeting := mk_cal_event (Some 0) (Some (7 * DAY)) in
  let lunch := mk_cal_event (Some HOUR) (Some (2 * HOUR)) in
  find_conflict_free_slot 0 [Listed [lunch]; Listed [all_day; meeting]]
  = find_conflict_free_slot 0 [Listed [lunch]; Listed [all_day]]
  /\ find_conflict_free_slot 0 [Listed [lunch]; Listed [all_day; meeting]]
     = Ok (Suggested 0 HOUR)
  /\ FindConflictFreeSlot 0
       [RawListed [mk_raw_event (Some (Aware HOUR)) (Some (Aware (2 * HOUR)))];
        RawListed [mk_raw_event None None;
                   mk_raw_event (Some (Aware 0)) (Some (Aware (7 * DAY)))]]
     = Raise (TypeError "Parser must be a string or character stream, not NoneType").
Proof.
  split; [|split].
  - apply (proj1 (all_day_event_hides_later_events 0)
             [Listed [mk_cal_event (Some HOUR) (Some (2 * HOUR))]] []
             [mk_cal_event (Some 0) (Some (7 * DAY))] []
             (mk_cal_event None None) [] (or_introl eq_refl)).
  - vm_compute; reflexivity.
  - apply (proj2 (all_day_event_hides_later_events 0)
             [RawListed [mk_raw_event (Some (Aware HOUR)) (Some (Aware (2 * HOUR)))]]
             [] [mk_raw_event (Some (Aware 0)) (Some (Aware (7 * DAY)))]
             (mk_raw_event None None) [] (or_introl eq_refl)).
    repeat constructor. now exists [mk_raw_event (Some (Aware HOUR)) (Some (Aware (2 * HOUR)))].
Defined.

End FreeBusyMore.
(** ** More on the day-of-week correction *)

Module DateTimeMore.
Import Str DateTime DateTimeFacts.
Open Scope string_scope.
Open Scope Z_scope.

(** After the step for a weekday the query names, the start falls on that
    weekday. *)
Lemma correct_day_lands (ql day : string) (start i start' : Z) :
  correct_day ql start (i, day) = Ok start' ->
  contains day ql = true -> 0 <= i < 7 -> weekday start' = i.
Proof.
  intros H Hc Hi. unfold correct_day in H. rewrite Hc in H.
  destruct (weekday start =? i) eqn:Ew; cbn [andb negb] in H.
  - injection H as <-. now apply Z.eqb_eq.
  - apply Z.eqb_neq in Ew.
    assert (Hwd : 0 <= weekday start < 7)
      by (unfold weekday; apply Z.mod_pos_bound; lia).
    set (d := (i - weekday start + 7) mod 7) in H.
    assert (Hd : d <> 0).
    { unfold d. intros E. apply Ew.
      apply Z.mod_divide in E; [|lia]. destruct E as [c E]. lia. }
    replace (d =? 0) with false in H by (symmetry; now apply Z.eqb_neq).
    destruct (add_timedelta start (d * DAY)) as [y|] eqn:Ey; simpl in H;
      [|discriminate].
    injection H as <-.
    unfold add_timedelta in Ey.
    destruct ((0 <=? start + d * DAY) && (start + d * DAY <? MAX));
      [|discriminate].
    injection Ey as <-.
    rewrite weekday_of_date, adjusted_date.
    exact (proj1 (next_occurrence (date start) i Hi)).
Qed.

Lemma correct_days_skip_all (ql : string) (days : list (Z * string)) :
  (forall iday, In iday days -> contains (snd iday) ql = false) ->
  forall start start', correct_days ql start days = Ok start' -> start' = start.
Proof.
  induction days as [|[i day] days IH]; intros Hskip start start';
    cbn [correct_days].
  - now intros [= <-].
  - rewrite correct_day_skips by exact (Hskip (i, day) (or_introl eq_refl)).
    cbn [bind]. apply IH. intros iday Hin. apply Hskip. now right.
Qed.

Lemma correct_days_last (ql day : string) (i : Z)
  (pre post : list (Z * string)) :
  contains day ql = true -> 0 <= i < 7 ->
  (forall iday, In iday post -> contains (snd iday) ql = false) ->
  forall start start',
    correct_days ql start (pre ++ (i, day) :: post) = Ok start' ->
    weekday start' = i.
Proof.
  intros Hc Hi Hpost. induction pre as [|iday pre IH]; intros start start';
    cbn [app correct_days].
  - destruct (correct_day ql start (i, day)) as [s1|] eqn:E; cbn [bind];
      [|discriminate].
    intros H. apply (correct_days_skip_all _ _ Hpost) in H. subst start'.
    exact (correct_day_lands _ _ _ _ _ E Hc Hi).
  - destruct (correct_day ql start iday) as [s1|]; cbn [bind]; [|discriminate].
    apply IH.
Qed.

(** X8: when the correction returns, the start it returns falls on the last
    weekday, in the order Monday to Sunday, that the query names: every named
    weekday triggers its own shift, so with several names the ones before the
    last are overridden. *)
Theorem day_of_week_correction_last_named
  (query : string) (start start' : Z) (i : nat) (day : string) :
  day_of_week_correction query start = Ok start' ->
  nth_error day_names i = Some day ->
  contains day (lower query) = true ->
  (forall j other, (i < j)%nat -> nth_error day_names j = Some other ->
     contains other (lower query) = false) ->
  weekday start' = Z.of_nat i.
Proof.
  intros H Hday Hnamed Hlater.
  unfold day_of_week_correction in H. rewrite enumerate_day_names in H.
  assert (Hi : 0 <= Z.of_nat i < 7).
  { assert (i < List.length day_names)%nat as Hlt
      by (apply nth_error_Some; rewrite Hday; discriminate).
    simpl in Hlt. lia. }
  assert (Hsplit : exists pre post,
            [(0, "monday"); (1, "tuesday"); (2, "wednesday"); (3, "thursday");
             (4, "friday"); (5, "saturday"); (6, "sunday")]
            = (pre ++ (Z.of_nat i, day) :: post)%list
            /\ forall iday, In iday post ->
                 exists j, (i < j)%nat
                           /\ nth_error day_names j = Some (snd iday)).
  { do 7 (destruct i as [|i];
          [ injection Hday as <-;
            match goal with
            | |- exists pre post, ?l = _ /\ _ =>
                first
                  [ exists (firstn 0 l), (skipn 1 l); split; [reflexivity|]
                  | exists (firstn 1 l), (skipn 2 l); split; [reflexivity|]
                  | exists (firstn 2 l), (skipn 3 l); split; [reflexivity|]
                  | exists (firstn 3 l), (skipn 4 l); split; [reflexivity|]
                  | exists (firstn 4 l), (skipn 5 l); split; [reflexivity|]
                  | exists (firstn 5 l), (skipn 6 l); split; [reflexivity|]
                  | exists (firstn 6 l), (skipn 7 l); split; [reflexivity|] ]
            end;
            cbn [skipn]; intros iday Hin;
            repeat (destruct Hin as [<-|Hin];
                    [ first [ exists 1%nat; split; [lia | reflexivity]
                            | exists 2%nat; split; [lia | reflexivity]
                            | exists 3%nat; split; [lia | reflexivity]
                            | exists 4%nat; split; [lia | reflexivity]
                            | exists 5%nat; split; [lia | reflexivity]
                            | exists 6%nat; split; [lia | reflexivity] ] | ]);
            destruct Hin
          | ]).
    destruct i; discriminate Hday. }
  destruct Hsplit as (pre & post & E & Hpost). rewrite E in H.
  apply (correct_days_last (lower query) day (Z.of_nat i) pre post Hnamed Hi)
    with (start := start); [|exact H].
  intros iday Hin. destruct (Hpost iday Hin) as (j & Hj & Hn).
  exact (Hlater j (snd iday) Hj Hn).
Qed.

Lemma day_of_week_correction_last_named_witness :
  weekday (Samples.friday + 7 * DAY + 15 * HOUR) = Z.of_nat 4.
Proof.
  apply (day_of_week_correction_last_named
           "create a meeting with akash at 3pm monday or friday"
           (Samples.friday - 2 * DAY + 15 * HOUR)
           (Samples.friday + 7 * DAY + 15 * HOUR) 4 "friday").
  - vm_compute; reflexivity.
  - reflexivity.
  - vm_compute; reflexivity.
  - intros j other Hj Hn.
    do 7 (destruct j as [|j];
          [ first [ lia | injection Hn as <-; vm_compute; reflexivity ] | ]).
    destruct j; discriminate Hn.
Defined.

(** X9: whatever weekdays the query names, the correction never moves the
    start backward.  It returns the start as it is, or a start on a later day
    with the same hour and minute and with seconds and microseconds zero. *)
Theorem correction_keeps_or_moves_forward (query : string) (start start' : Z) :
  day_of_week_correction query start = Ok start' ->
  start' = start
  \/ (date start < date start'
      /\ hour start' = hour start /\ minute start' = minute start
      /\ second start' = 0 /\ microsecond start' = 0).
Proof.
  intros H. apply day_of_week_correction_never_backward in H.
  destruct H as [->|(k & Hk & -> & Hdate)]; [now left|].
  right. split; [lia|]. split; [apply adjusted_hour|].
  split; [apply adjusted_minute|].
  split; [apply floored_second | apply floored_microsecond].
Qed.

Lemma correction_keeps_or_moves_forward_witness :
  Samples.friday + 7 * DAY + 15 * HOUR = Samples.friday - 2 * DAY + 15 * HOUR
  \/ (date (Samples.friday - 2 * DAY + 15 * HOUR)
      < date (Samples.friday + 7 * DAY + 15 * HOUR)
      /\ hour (Samples.friday + 7 * DAY + 15 * HOUR)
         = hour (Samples.friday - 2 * DAY + 15 * HOUR)
      /\ minute (Samples.friday + 7 * DAY + 15 * HOUR)
         = minute (Samples.friday - 2 * DAY + 15 * HOUR)
      /\ second (Samples.friday + 7 * DAY + 15 * HOUR) = 0
      /\ microsecond (Samples.friday + 7 * DAY + 15 * HOUR) = 0).
Proof.
  apply (correction_keeps_or_moves_forward
           "create a meeting with akash at 3pm monday or friday").
  vm_compute; reflexivity.
Defined.

End DateTimeMore.

(** ** More on the scheduling actions *)

Module ActionsMore.
Import Str Re Parser DateTime Actions Samples ReSpec ActionsSpec ReFacts
  ParserMore ActionsFacts.
Open Scope string_scope.
Open Scope Z_scope.

(** *** Queries that do not parse *)

(** X10: a query that none of the first four patterns matches makes every
    action fail with the [TypeError] of [parse_user_query], without a write
    and whatever the gateway holds: this is the fate of "reschedule the
    first meeting <date> to <time>", the phrasing of the fifth pattern.
    ([cancel_meeting] still obeys a phrase "cancel event <id>".) *)
Theorem unparsed_query_fails (w : world) (query : string) :
  (forall pattern, In pattern attendee_patterns ->
     re_match pattern query = None) ->
  create_meeting w query
  = ([], "Failed to create event: expected string or bytes-like object, got 'list'")
  /\ reschedule_meeting w query
     = ([], "Failed to reschedule event: expected string or bytes-like object, got 'list'. Please check the event details or try again.")
  /\ (re_search cancel_id_pattern query = None ->
      cancel_meeting w query
      = ([], "Failed to cancel event: expected string or bytes-like object, got 'list'")).
Proof.
  intros H. apply parse_user_query_raises in H.
  unfold create_meeting, create_body, reschedule_meeting, reschedule_body,
    cancel_meeting, cancel_body.
  rewrite H. split; [reflexivity|]. split; [reflexivity|].
  intros Hid. rewrite Hid. reflexivity.
Qed.

Lemma unparsed_query_fails_witness :
  let query := "reschedule the first meeting tomorrow to 5pm" in
  create_meeting quiet_world query
  = ([], "Failed to create event: expected string or bytes-like object, got 'list'")
  /\ reschedule_meeting quiet_world query
     = ([], "Failed to reschedule event: expected string or bytes-like object, got 'list'. Please check the event details or try again.")
  /\ (re_search cancel_id_pattern query = None ->
      cancel_meeting quiet_world query
      = ([], "Failed to cancel event: expected string or bytes-like object, got 'list'")).
Proof.
  apply (unparsed_query_fails quiet_world
           "reschedule the first meeting tomorrow to 5pm").
  intros pattern Hin.
  destruct Hin as [<-|[<-|[<-|[<-|[]]]]]; vm_compute; reflexivity.
Defined.

(** X11: when the parsed query has no time, [reschedule_meeting] applies no
    write and asks for a time, also when the query says "whenever I'm free":
    the test for that phrase is made on the lowered query, which cannot hold
    its capital I, so the free-slot search is never started. *)
Theorem reschedule_without_time (w : world) (query : string)
  (p : parsed_query) :
  parse_user_query query = Ok p -> falsy (p_time p) = true ->
  reschedule_meeting w query
  = ([], "Failed to reschedule event: No valid new time specified. Please provide a time like 'Thursday at 5pm'.").
Proof.
  intros Hp Ht. unfold reschedule_meeting, reschedule_body. rewrite Hp.
  unfold lift, mbind. rewrite whenever_free_branch_dead.
  destruct (p_time p) as [[|c t]|]; try reflexivity. discriminate Ht.
Qed.

Lemma reschedule_without_time_witness :
  reschedule_meeting quiet_world "cancel a meeting with akash whenever I'm free"
  = ([], "Failed to reschedule event: No valid new time specified. Please provide a time like 'Thursday at 5pm'.").
Proof.
  apply (reschedule_without_time quiet_world
           "cancel a meeting with akash whenever I'm free"
           {| p_summary := "whenever I'm free"; p_time := None;
              p_old_time := None;
              p_attendees := ["akashmehta556@gmail.com"];
              p_is_first := false |}).
  - vm_compute; reflexivity.
  - reflexivity.
Defined.

(** *** Cancelling by id *)

(** X12: with a phrase "cancel event <id>", [cancel_meeting] looks the id up
    in the calendar of ["user1"] only, without parsing the rest of the query.
    When that calendar does not give the event, the action returns
    "Failed to cancel event by ID: <the gateway's message>" and applies no
    write; when it does and the delete succeeds, the one write is the delete
    of that id in that calendar. *)
Theorem cancel_by_id_outcomes (w : world) (query : string) (m : matched) :
  re_search cancel_id_pattern query = Some m ->
  get_user_service w "user1" = Ok tt ->
  (forall e, events_get w "user1" (group1 m) = Raise e ->
     cancel_meeting w query
     = ([], "Failed to cancel event by ID: " ++ str_exn e))
  /\ (forall evt, events_get w "user1" (group1 m) = Ok evt ->
        events_delete w "user1" (group1 m) = Ok tt ->
        cancel_meeting w query
        = ([Delete "user1" (group1 m)],
           "Event '" ++ get_or (ev_summary evt) "<no title>" ++ "' (ID: "
             ++ group1 m ++ ") canceled successfully."))
  /\ (forall evt e, events_get w "user1" (group1 m) = Ok evt ->
        events_delete w "user1" (group1 m) = Raise e ->
        cancel_meeting w query
        = ([], "Failed to cancel event by ID: " ++ str_exn e)).
Proof.
  intros Hm Hs. unfold cancel_meeting, cancel_body. rewrite Hm, Hs.
  unfold lift, mbind, try_except, delete, ret, raise.
  split; [|split].
  - intros e He. now rewrite He.
  - intros evt He Hd. now rewrite He, Hd.
  - intros evt e He Hd. now rewrite He, Hd.
Qed.

Lemma cancel_by_id_outcomes_witness :
  cancel_meeting quiet_world "please cancel event e9 now"
  = ([], "Failed to cancel event by ID: Not Found")
  /\ cancel_meeting quiet_world "cancel event e2"
     = ([Delete "user1" "e2"], "Event 'Meeting' (ID: e2) canceled successfully.").
Proof.
  split.
  - destruct (re_search cancel_id_pattern "please cancel event e9 now")
      as [m|] eqn:E; [|vm_compute in E; discriminate E].
    assert (Hg : group1 m = "e9").
    { vm_compute in E. injection E as <-. reflexivity. }
    pose proof (proj1 (cancel_by_id_outcomes quiet_world
                         "please cancel event e9 now" m E eq_refl)
                  (HttpError "Not Found")) as H.
    rewrite Hg in H. exact (H eq_refl).
  - destruct (re_search cancel_id_pattern "cancel event e2")
      as [m|] eqn:E; [|vm_compute in E; discriminate E].
    assert (Hg : group1 m = "e2").
    { vm_compute in E. injection E as <-. reflexivity. }
    pose proof (proj1 (proj2 (cancel_by_id_outcomes quiet_world
                                "cancel event e2" m E eq_refl))
                  meeting) as H.
    rewrite Hg in H. exact (H eq_refl eq_refl).
Defined.

(** *** Where the events of a write come from *)

Lemma collect_events_in (w : world) (time_min time_max : Z)
  (users : list string) :
  forall events l,
    collect_events w time_min time_max users events = Ok l ->
    forall uid ev, In (uid, ev) l ->
      In (uid, ev) events
      \/ (In uid users
          /\ exists items, events_list w uid time_min time_max = Ok items
                           /\ In ev items).
Proof.
  induction users as [|u users IH]; intros events l; cbn [collect_events].
  - intros [= <-] uid ev H. now left.
  - destruct (get_user_service w u); cbn [bind]; [|discriminate].
    destruct (events_list w u time_min time_max) as [items|] eqn:E;
      intros H uid ev Hin;
      destruct (IH _ _ H uid ev Hin) as [Hacc|(Hu & Hitems)].
    + apply in_app_or in Hacc as [Hacc|Hacc]; [now left|].
      apply in_map_iff in Hacc as (ev' & [= <- <-] & Hev).
      right. split; [now left | eauto].
    + right. split; [now right | exact Hitems].
    + now left.
    + right. split; [now right | exact Hitems].
Qed.

Lemma find_target_in (summary : option string) (attendees : list string)
  (events : list (string * event)) (ue : string * event) :
  find_target summary attendees events = Some ue -> In ue events.
Proof.
  induction events as [|[uid ev] rest IH]; simpl; [discriminate|].
  destruct (matches_attendees_and_summary summary attendees ev);
    [intros [= <-]; now left|].
  destruct (summary_names_attendee attendees ev); [intros [= <-]; now left|].
  intros H. right. exact (IH H).
Qed.

Lemma find_first_on_date_in (old_start : Z) (events : list (string * event))
  (ue : string * event) :
  find_first_on_date old_start events = Ok (Some ue) -> In ue events.
Proof.
  induction events as [|[uid ev] rest IH]; simpl; [discriminate|].
  destruct (ev_start ev) as [t|]; simpl; [|discriminate].
  destruct (date t =? date old_start); [intros [= <-]; now left|].
  intros H. right. exact (IH H).
Qed.

Lemma cancel_body_deletes (w : world) (query : string) :
  single (fun wr => exists m, re_search cancel_id_pattern query = Some m
                              /\ wr = Delete "user1" (group1 m))
    (cancel_body w query).
Proof.
  unfold cancel_body.
  destruct (re_search cancel_id_pattern query) as [m_id|].
  - apply single_bind_l; [apply pure_lift|]. intros _ _.
    apply single_try_except; [|intros e; apply pure_ret].
    apply single_bind_l; [apply pure_lift|]. intros evt _.
    apply single_bind_r; [apply single_delete; eauto|].
    intros _. apply pure_ret.
  - apply single_bind_l; [apply pure_lift|]. intros parsed _.
    destruct (p_attendees parsed) as [|a attendees];
      [apply pure_single, pure_ret|].
    apply pure_single. reflexivity.
Qed.

Lemma create_body_inserts (w : world) (query : string) :
  single (fun wr =>
            exists p time_str parsed_start start,
              parse_user_query query = Ok p
              /\ p_time p = Some time_str
              /\ dateutil_parse w time_str None = Ok parsed_start
              /\ day_of_week_correction query parsed_start = Ok start
              /\ p_attendees p <> []
              /\ wr = Insert "user1"
                        {| ne_summary := p_summary p; ne_start := start;
                           ne_end := start + HOUR;
                           ne_attendees := p_attendees p |})
    (create_body w query).
Proof.
  unfold create_body.
  apply single_bind_l; [apply pure_lift|]. intros parsed Hp.
  unfold lift in Hp; cbn [snd] in Hp.
  destruct (p_time parsed) as [[|c time_str]|] eqn:Et;
    try (apply pure_single, pure_ret).
  destruct (p_attendees parsed) as [|a attendees] eqn:Ea;
    [apply pure_single, pure_ret|].
  destruct (dateutil_parse w (String c time_str) None) as [start|[]] eqn:Ed;
    try (apply pure_single; first [apply pure_ret | apply pure_raise]).
  apply single_bind_l; [apply pure_lift|]. intros start' Hc.
  unfold lift in Hc; cbn [snd] in Hc.
  apply single_bind_l; [apply pure_lift|]. intros end_ Hend.
  unfold lift in Hend; cbn [snd] in Hend.
  apply add_timedelta_ok in Hend. subst end_.
  apply single_bind_l; [apply pure_lift|]. intros _ _.
  apply single_bind_r.
  - apply single_attempt, single_insert.
    exists parsed, (String c time_str), start, start'.
    rewrite Ea. repeat split; try assumption. discriminate.
  - intros [created|e]; pure_steps.
Qed.

Lemma reschedule_by_id_reads (w : world) (query : string) (m : matched)
  (new_start new_end : Z) :
  re_search reschedule_id_pattern query = Some m ->
  single (updates_what_was_read w query)
    (reschedule_by_id w (group1 m) new_start new_end).
Proof.
  intros Hm. unfold reschedule_by_id.
  apply single_bind_l; [apply pure_lift|]. intros _ _.
  apply single_try_except; [|intros e; apply pure_ret].
  apply single_bind_l; [apply pure_lift|]. intros ev Hev.
  unfold lift in Hev; cbn [snd] in Hev.
  apply single_bind_r; [|intros updated; pure_steps].
  apply single_update. cbn [updates_what_was_read]. left. exists m. auto.
Qed.

Lemma reschedule_by_search_reads (w : world) (query : string)
  (parsed : parsed_query) (now end_ new_start new_end : Z) :
  re_search reschedule_id_pattern query = None ->
  single (updates_what_was_read w query)
    (reschedule_by_search w parsed now end_ new_start new_end).
Proof.
  intros Hnone. unfold reschedule_by_search.
  apply single_bind_l; [apply pure_lift|]. intros [time_min time_max] _.
  apply single_bind_l; [apply pure_lift|]. intros events Hev.
  unfold lift in Hev; cbn [snd] in Hev.
  assert (Hupdate : forall target,
            (forall ue, target = Some ue -> In ue events) ->
            single (updates_what_was_read w query)
              match target with
              | None => ret (no_match_message (p_attendees parsed))
              | Some (user_id, target_event) =>
                  _ <~ lift (get_user_service w user_id) ;;
                  try_except
                    (updated <~ update w user_id (ev_id target_event)
                                  target_event new_start new_end ;;
                     link <~ lift (meet_link updated "No Google Meet link") ;;
                     attendees <~ lift (emails (match r_attendees updated with
                                                | Some l => l | None => [] end)) ;;
                     ret (rescheduled_message updated (ev_id target_event)
                            link attendees))
                    (fun e => ret ("Failed to reschedule event: " ++ str_exn e))
              end).
  { intros [[user_id target_event]|] Hin; [|apply pure_single, pure_ret].
    specialize (Hin _ eq_refl).
    destruct (collect_events_in _ _ _ _ _ _ Hev _ _ Hin) as [[]|(Hu & Hitems)].
    apply single_bind_l; [apply pure_lift|]. intros _ _.
    apply single_try_except; [|intros e; apply pure_ret].
    apply single_bind_r; [|intros updated; pure_steps].
    apply single_update. cbn [updates_what_was_read]. right.
    split; [exact Hnone|]. split; [reflexivity|]. split.
    - destruct Hu as [<-|[<-|[]]]; auto.
    - destruct Hitems as (items & H1 & H2). eauto. }
  destruct (p_is_first parsed).
  - destruct (truthy (p_old_time parsed)); [|apply pure_single, pure_ret].
    destruct (dateutil_parse w (get_or (p_old_time parsed) "") (Some now))
      as [old_start|[]];
      try (apply pure_single; first [apply pure_ret | apply pure_raise]).
    apply single_bind_l; [apply pure_lift|]. intros target Ht.
  unfold lift in Ht; cbn [snd] in Ht.
    apply Hupdate. intros ue ->. exact (find_first_on_date_in _ _ _ Ht).
  - apply Hupdate. intros ue Hue. exact (find_target_in _ _ _ _ Hue).
Qed.

Lemma reschedule_body_reads (w : world) (query : string) :
  single (updates_what_was_read w query) (reschedule_body w query).
Proof.
  assert (Hat : forall parsed time_str,
            single (updates_what_was_read w query)
              (reschedule_at w query parsed time_str)).
  { intros parsed time_str. unfold reschedule_at.
    apply single_bind_l; [apply pure_lift|]. intros end_ _.
    destruct (default <- add_timedelta (now w) DAY ;;
              new_start <- dateutil_parse w time_str (Some default) ;;
              new_end <- add_timedelta new_start HOUR ;;
              Ok (new_start, new_end)) as [[new_start new_end]|[]];
      try (apply pure_single; first [apply pure_ret | apply pure_raise]).
    destruct (re_search reschedule_id_pattern query) as [m|] eqn:Em.
    - now apply reschedule_by_id_reads.
    - now apply reschedule_by_search_reads. }
  unfold reschedule_body.
  apply single_bind_l; [apply pure_lift|]. intros parsed _.
  assert (Hnone :
    single (updates_what_was_read w query)
      (if contains "whenever I'm free" (lower query)
       then free_slot <~ lift (find_conflict_free_slot_tool w) ;;
            if contains "No free slot" free_slot
            then ret "Failed to reschedule event: No free slots available this week."
            else reschedule_at w query parsed
                   (strip (replace "Suggested: " "" (before "to" free_slot)))
       else ret "Failed to reschedule event: No valid new time specified. Please provide a time like 'Thursday at 5pm'.")).
  { destruct (contains "whenever I'm free" (lower query));
      [|apply pure_single, pure_ret].
    apply single_bind_l; [apply pure_lift|]. intros free_slot _.
    destruct (contains "No free slot" free_slot);
      [apply pure_single, pure_ret | apply Hat]. }
  destruct (p_time parsed) as [[|c time_str]|]; try exact Hnone.
  apply Hat.
Qed.

(** X13: on every input each action applies at most one write, of its own
    kind and in a fixed place: [create_meeting] an insert into the calendar
    of ["user1"]; [cancel_meeting] the delete, in the calendar of ["user1"],
    of the id spelled in the phrase "cancel event <id>" of the query;
    [reschedule_meeting] an update in the calendar of ["user1"] or
    ["user2"]. *)
Theorem writes_of_the_actions (w : world) (query : string) :
  (fst (create_meeting w query) = []
   \/ exists body, fst (create_meeting w query) = [Insert "user1" body])
  /\ (fst (cancel_meeting w query) = []
      \/ exists m, re_search cancel_id_pattern query = Some m
                   /\ fst (cancel_meeting w query)
                      = [Delete "user1" (group1 m)])
  /\ (fst (reschedule_meeting w query) = []
      \/ exists user event_id ev new_start new_end,
           fst (reschedule_meeting w query)
           = [Update user event_id ev new_start new_end]
           /\ (user = "user1" \/ user = "user2")).
Proof.
  rewrite fst_create_meeting, fst_cancel_meeting, fst_reschedule_meeting.
  split; [|split].
  - destruct (create_body_inserts w query)
      as [H|(wr & H & p & t & s0 & s1 & _ & _ & _ & _ & _ & ->)];
      [now left | right; eauto].
  - destruct (cancel_body_deletes w query) as [H|(wr & H & m & Hm & ->)];
      [now left | right; eauto].
  - destruct (reschedule_body_reads w query) as [H|(wr & H & Hr)];
      [now left | right].
    destruct wr as [| user event_id ev s e |]; try contradiction.
    exists user, event_id, ev, s, e. split; [exact H|].
    destruct Hr as [(m & _ & _ & -> & _)|(_ & _ & Hu & _)]; auto.
Qed.

Lemma p_summary_nonempty (query : string) (p : parsed_query) :
  parse_user_query query = Ok p -> p_summary p <> "".
Proof.
  unfold parse_user_query.
  destruct (resolve (attendees (apply_patterns query))); simpl; [|discriminate].
  intros [= <-]. simpl.
  destruct (summary (apply_patterns query)) as [s|]; [|discriminate].
  destruct (String.eqb s "") eqn:E; [discriminate|].
  now apply String.eqb_neq.
Qed.

Lemma parsed_attendees_at (query : string) (p : parsed_query) :
  parse_user_query query = Ok p ->
  Forall (fun a => contains "@" a = true) (p_attendees p).
Proof.
  unfold parse_user_query.
  destruct (resolve (attendees (apply_patterns query))) as [l|e] eqn:E;
    simpl; [|discriminate].
  intros [= <-]. simpl. apply Forall_forall. intros a H.
  destruct (resolve_addresses _ _ _ E H) as [Ht|Hl];
    [|now apply email_shape_at].
  unfold table_addresses in Ht. simpl in Ht.
  repeat (destruct Ht as [<-|Ht]; [vm_compute; reflexivity|]).
  destruct Ht.
Qed.

(** X14: an event [create_meeting] inserts goes to the calendar of
    ["user1"]; its summary is the non-empty summary of the parsed query, its
    attendees are the parsed attendees, at least one and each with the sign
    [@], and its start is what [dateutil] made of the parsed time text,
    after the day-of-week correction. *)
Theorem inserted_event_comes_from_the_query (w : world) (query : string)
  (user : string) (body : new_event) :
  In (Insert user body) (fst (create_meeting w query)) ->
  user = "user1"
  /\ exists p time_str parsed_start,
       parse_user_query query = Ok p
       /\ ne_summary body = p_summary p /\ ne_summary body <> ""
       /\ ne_attendees body = p_attendees p /\ ne_attendees body <> []
       /\ Forall (fun a => contains "@" a = true) (ne_attendees body)
       /\ p_time p = Some time_str
       /\ dateutil_parse w time_str None = Ok parsed_start
       /\ day_of_week_correction query parsed_start = Ok (ne_start body).
Proof.
  rewrite fst_create_meeting. intros Hin.
  destruct (create_body_inserts w query)
    as [H|(wr & H & p & t & s0 & s1 & Hp & Ht & Hd & Hc & Ha & ->)];
    rewrite H in Hin; [destruct Hin|].
  destruct Hin as [[= <- <-]|[]]. split; [reflexivity|].
  exists p, t, s0. simpl.
  repeat split; try assumption.
  - exact (p_summary_nonempty _ _ Hp).
  - exact (parsed_attendees_at _ _ Hp).
Qed.

Lemma inserted_event_comes_from_the_query_witness :
  "user1" = "user1"
  /\ exists p time_str parsed_start,
       parse_user_query "create a meeting with Akash at 3pm on saturday" = Ok p
       /\ "on saturday" = p_summary p /\ "on saturday" <> ""
       /\ ["akashmehta556@gmail.com"] = p_attendees p
       /\ ["akashmehta556@gmail.com"] <> []
       /\ Forall (fun a => contains "@" a = true) ["akashmehta556@gmail.com"]
       /\ p_time p = Some time_str
       /\ dateutil_parse quiet_world time_str None = Ok parsed_start
       /\ day_of_week_correction
            "create a meeting with Akash at 3pm on saturday" parsed_start
          = Ok (friday + DAY + 15 * HOUR).
Proof.
  apply (inserted_event_comes_from_the_query quiet_world
           "create a meeting with Akash at 3pm on saturday" "user1"
           {| ne_summary := "on saturday"; ne_start := friday + DAY + 15 * HOUR;
              ne_end := friday + DAY + 16 * HOUR;
              ne_attendees := ["akashmehta556@gmail.com"] |}).
  vm_compute. left; reflexivity.
Defined.

(** X15: an event [reschedule_meeting] rewrites is one the gateway gave it.
    When the query spells an id ("ID: <id>"), the event is rewritten under
    that id in the calendar of ["user1"], and it is the event the gateway
    gave for that id in that calendar.  When the query spells no id, the
    event is one listed for ["user1"] or ["user2"], rewritten under its own
    id in the calendar it was listed for. *)
Theorem rescheduled_event_was_read (w : world) (query : string)
  (user event_id : string) (ev : event) (new_start new_end : Z) :
  In (Update user event_id ev new_start new_end)
     (fst (reschedule_meeting w query)) ->
  (exists m, re_search reschedule_id_pattern query = Some m
             /\ event_id = group1 m
             /\ user = "user1"
             /\ events_get w "user1" event_id = Ok ev)
  \/ (re_search reschedule_id_pattern query = None
      /\ event_id = ev_id ev
      /\ (user = "user1" \/ user = "user2")
      /\ exists time_min time_max items,
           events_list w user time_min time_max = Ok items /\ In ev items).
Proof.
  rewrite fst_reschedule_meeting. intros Hin.
  destruct (reschedule_body_reads w query) as [H|(wr & H & Hr)];
    rewrite H in Hin; [destruct Hin|].
  destruct Hin as [E|[]]. subst wr. exact Hr.
Qed.

Lemma rescheduled_event_was_read_witness :
  let query := "reschedule meeting with a@x.com to 5pm" in
  (exists m, re_search reschedule_id_pattern query = Some m
             /\ "e1" = group1 m
             /\ "user1" = "user1"
             /\ events_get quiet_world "user1" "e1" = Ok note)
  \/ (re_search reschedule_id_pattern query = None
      /\ "e1" = ev_id note
      /\ ("user1" = "user1" \/ "user1" = "user2")
      /\ exists time_min time_max items,
           events_list quiet_world "user1" time_min time_max = Ok items
           /\ In note items).
Proof.
  apply (rescheduled_event_was_read quiet_world
           "reschedule meeting with a@x.com to 5pm" "user1" "e1" note
           (friday + 15 * HOUR) (friday + 16 * HOUR)).
  vm_compute. left; reflexivity.
Defined.

(** X16: the scan of the branch "first meeting" of [reschedule_meeting]
    returns the first event of the list that starts on the date asked for,
    in the order of the list and not of the start times; it returns [None]
    when every event is timed and none starts on that date; and it raises a
    [TypeError] when an event without [dateTime] (an all-day event) stands
    before any event of that date. *)
Theorem find_first_on_date_spec (old_start : Z)
  (events : list (string * event)) :
  match find_first_on_date old_start events with
  | Ok (Some (uid, ev)) =>
      exists before after t,
        events = (before ++ (uid, ev) :: after)%list
        /\ off_date old_start before
        /\ ev_start ev = Some t /\ date t = date old_start
  | Ok None => off_date old_start events
  | Raise e =>
      e = TypeError "Parser must be a string or character stream, not NoneType"
      /\ exists before uid ev after,
           events = (before ++ (uid, ev) :: after)%list
           /\ off_date old_start before
           /\ ev_start ev = None
  end.
Proof.
  induction events as [|[uid ev] rest IH]; cbn [find_first_on_date].
  - constructor.
  - destruct (ev_start ev) as [t|] eqn:Es; cbn [bind].
    + destruct (date t =? date old_start) eqn:Ed.
      * apply Z.eqb_eq in Ed. exists [], rest, t.
        repeat split; try assumption. constructor.
      * apply Z.eqb_neq in Ed.
        assert (Hoff : forall before, off_date old_start before ->
                  off_date old_start ((uid, ev) :: before)).
        { intros before Hb. constructor; [|exact Hb]. exists t. now split. }
        destruct (find_first_on_date old_start rest) as [[[u e]|]|e].
        -- destruct IH as (before & after & t' & -> & Hb & Ht & Hd).
           exists ((uid, ev) :: before), after, t'. repeat split; auto.
        -- now apply Hoff.
        -- destruct IH as (-> & before & u & e' & after & -> & Hb & Hn).
           split; [reflexivity|].
           exists ((uid, ev) :: before), u, e', after. repeat split; auto.
    + split; [reflexivity|]. exists [], uid, ev, rest.
      repeat split; try assumption. constructor.
Qed.

Lemma collect_events_acc (w : world) (time_min time_max : Z)
  (users : list string) :
  forall acc,
    collect_events w time_min time_max users acc
    = match collect_events w time_min time_max users [] with
      | Ok events => Ok (acc ++ events)%list
      | Raise e => Raise e
      end.
Proof.
  induction users as [|uid rest IH]; intros acc; cbn [collect_events].
  - now rewrite app_nil_r.
  - destruct (get_user_service w uid); cbn [bind]; [|reflexivity].
    destruct (events_list w uid time_min time_max) as [items|e].
    + rewrite (IH (acc ++ map (pair uid) items)%list),
        (IH ([] ++ map (pair uid) items)%list).
      destruct (collect_events w time_min time_max rest []);
        [now rewrite app_assoc | reflexivity].
    + apply IH.
Qed.

(** X17: the events [reschedule_meeting] searches are collected calendar by
    calendar, in the order of the users: when the service of every user is
    obtained, the collection is the events listed for each user, tagged with
    the user, those of an earlier user before those of a later one, and a
    listing that fails adds nothing; when the service of some user is not
    obtained, the collection raises, whatever was listed. *)
Theorem collect_events_spec (w : world) (time_min time_max : Z)
  (users : list string) :
  (Forall (fun uid => exists s, get_user_service w uid = Ok s) users ->
   collect_events w time_min time_max users []
   = Ok (flat_map (listed w time_min time_max) users))
  /\ (Exists (fun uid => exists e, get_user_service w uid = Raise e) users ->
      exists e, collect_events w time_min time_max users [] = Raise e).
Proof.
  split.
  - induction 1 as [|uid rest (s & Hs) _ IH]; [reflexivity|].
    cbn [collect_events flat_map]. rewrite Hs. cbn [bind]. unfold listed at 1.
    destruct (events_list w uid time_min time_max) as [items|e].
    + rewrite collect_events_acc, IH. reflexivity.
    + exact IH.
  - induction 1 as [uid rest (e & He)|uid rest _ (e & IH)].
    + exists e. cbn [collect_events]. now rewrite He.
    + cbn [collect_events].
      destruct (get_user_service w uid) as [s|e']; [|now exists e'].
      cbn [bind].
      destruct (events_list w uid time_min time_max) as [items|e'];
        [|now exists e].
      rewrite collect_events_acc, IH. now exists e.
Qed.

End ActionsMore.

(** ** The listings of events *)

Module ListingFacts.
Import Str Actions Listing.
Open Scope string_scope.

Lemma join_empty_iff (sep : string) (l : list string) :
  Forall (fun x => x <> "") l -> (join sep l = "" <-> l = []).
Proof.
  intros H. split; [|intros ->; reflexivity].
  destruct l as [|x l]; [reflexivity|].
  inversion H as [|? ? Hx _]; subst.
  destruct x as [|c x]; [now elim Hx|].
  destruct l; simpl; discriminate.
Qed.

Lemma event_line_nonempty (uid : string) (e : listed_event) :
  event_line uid e <> "".
Proof. unfold event_line. simpl. discriminate. Qed.

Lemma entry_line_nonempty (x : entry) : entry_line x <> "".
Proof. destruct x as [[u s] t]. simpl. discriminate. Qed.

Lemma multi_user_lines_spec (calendars : list (string * listing)) :
  forall acc,
    (Forall (fun c => forall e, snd c <> NoService e) calendars ->
     exists lines,
       multi_user_lines calendars acc = Ok lines
       /\ (Forall (fun x => x <> "") acc -> Forall (fun x => x <> "") lines)
       /\ (lines = [] <->
           acc = [] /\ forall uid events,
                         In (uid, Listed events) calendars -> events = []))
    /\ (forall lines, multi_user_lines calendars acc = Ok lines ->
          Forall (fun c => forall e, snd c <> NoService e) calendars).
Proof.
  induction calendars as [|[uid [e|e|events]] rest IH]; intros acc; simpl.
  - split; [|constructor]. intros _. exists acc. split; [reflexivity|].
    split; [auto|]. split; [intros ->; split; [reflexivity | intros ? ? []]|].
    now intros [-> _].
  - split; [|discriminate].
    intros H. inversion H as [|? ? Hc _]; subst. now elim (Hc e).
  - destruct (IH acc) as [IH1 IH2]. split.
    + intros H. inversion H as [|? ? _ Hrest]; subst.
      destruct (IH1 Hrest) as (lines & E & Hne & Hnil).
      exists lines. split; [exact E|]. split; [exact Hne|].
      rewrite Hnil. split; intros [Ha Hev]; (split; [exact Ha|]).
      * intros u evs [[=]|Hin]. exact (Hev u evs Hin).
      * intros u evs Hin. apply (Hev u evs). now right.
    + intros lines E. constructor; [intros e'; discriminate | exact (IH2 _ E)].
  - destruct (IH (acc ++ map (event_line uid) events)%list) as [IH1 IH2]. split.
    + intros H. inversion H as [|? ? _ Hrest]; subst.
      destruct (IH1 Hrest) as (lines & E & Hne & Hnil).
      exists lines. split; [exact E|]. split.
      * intros Hacc. apply Hne. apply Forall_app. split; [exact Hacc|].
        apply Forall_forall. intros x Hx.
        apply in_map_iff in Hx as (ev & <- & _). apply event_line_nonempty.
      * rewrite Hnil. split.
        -- intros [Happ Hev]. apply app_eq_nil in Happ as [-> Hmap].
           apply map_eq_nil in Hmap. subst events.
           split; [reflexivity|]. intros u evs [[= <- <-]|Hin];
             [reflexivity | exact (Hev u evs Hin)].
        -- intros [-> Hev]. rewrite (Hev uid events (or_introl eq_refl)).
           split; [reflexivity|]. intros u evs Hin. apply (Hev u evs). now right.
    + intros lines E. constructor; [intros e'; discriminate | exact (IH2 _ E)].
Qed.

(** X18: [get_multi_user_events] returns a text exactly when
    [get_user_service] succeeds for every user, whether the [list] calls
    succeed or not (a user whose [list] call fails is left out; a failing
    [get_user_service] is raised to the caller).  The text it returns is
    empty exactly when no calendar listed an event: there is no placeholder
    for an empty listing. *)
Theorem get_multi_user_events_returns (calendars : list (string * listing)) :
  ((exists text, get_multi_user_events calendars = Ok text)
   <-> Forall (fun c => forall e, snd c <> NoService e) calendars)
  /\ (forall text, get_multi_user_events calendars = Ok text ->
        (text = "" <->
         forall uid events, In (uid, Listed events) calendars -> events = [])).
Proof.
  destruct (multi_user_lines_spec calendars []) as [H1 H2].
  unfold get_multi_user_events. split; [split|].
  - intros (text & E).
    destruct (multi_user_lines calendars []) as [lines|] eqn:El;
      [|discriminate].
    exact (H2 lines eq_refl).
  - intros H. destruct (H1 H) as (lines & E & _). rewrite E. simpl. eauto.
  - intros text E.
    destruct (multi_user_lines calendars []) as [lines|] eqn:El;
      [|discriminate].
    simpl in E. injection E as <-.
    destruct (H1 (H2 lines eq_refl)) as (lines' & E' & Hne & Hnil).
    injection E' as <-.
    rewrite (join_empty_iff nl lines (Hne (Forall_nil _))), Hnil.
    split; [now intros [_ H] | now split].
Qed.

Lemma combined_entries_spec (calendars : list (string * listing)) :
  forall acc l,
    combined_entries calendars acc = Ok l ->
    l = (acc ++ listed_entries calendars)%list.
Proof.
  induction calendars as [|[uid [e|e|events]] rest IH]; intros acc l; simpl;
    try discriminate.
  - intros [= <-]. now rewrite app_nil_r.
  - intros H. apply IH in H. now rewrite <- app_assoc in H.
Qed.

Lemma insert_entry_perm (x : entry) (l : list entry) :
  Permutation (insert_entry x l) (x :: l).
Proof.
  induction l as [|y l IH]; simpl; [reflexivity|].
  destruct (String.leb (start_of x) (start_of y)); [reflexivity|].
  rewrite IH. apply perm_swap.
Qed.

Lemma sort_entries_perm (l : list entry) : Permutation (sort_entries l) l.
Proof.
  induction l as [|x l IH]; simpl; [reflexivity|].
  rewrite insert_entry_perm. now constructor.
Qed.

Lemma insert_entry_sorted (x : entry) (l : list entry) :
  Sorted (fun a b => String.leb (start_of a) (start_of b) = true) l ->
  Sorted (fun a b => String.leb (start_of a) (start_of b) = true)
    (insert_entry x l).
Proof.
  induction 1 as [|y l Hs IH Hhd]; simpl; [repeat constructor|].
  destruct (String.leb (start_of x) (start_of y)) eqn:E.
  - constructor; [now constructor | now constructor].
  - constructor; [exact IH|].
    assert (Hyx : String.leb (start_of y) (start_of x) = true).
    { destruct (String.leb_total (start_of x) (start_of y)); congruence. }
    destruct l as [|z l]; simpl; [now constructor|].
    destruct (String.leb (start_of x) (start_of z)); constructor;
      [exact Hyx | now inversion Hhd].
Qed.

Lemma sort_entries_sorted (l : list entry) :
  Sorted (fun a b => String.leb (start_of a) (start_of b) = true)
    (sort_entries l).
Proof.
  induction l as [|x l IH]; simpl; [constructor | now apply insert_entry_sorted].
Qed.

(** X19: when [get_combined_events] returns, its lines are the events of all
    the calendars, each once, ordered by their start text as Python compares
    strings (an all-day event has the empty start and comes first); it
    answers "No events found." exactly when there is no event. *)
Theorem get_combined_events_sorted (calendars : list (string * listing))
  (text : string) :
  get_combined_events calendars = Ok text ->
  exists sorted,
    Permutation sorted (listed_entries calendars)
    /\ Sorted (fun a b => String.leb (start_of a) (start_of b) = true) sorted
    /\ ((sorted = [] /\ text = "No events found.")
        \/ (sorted <> [] /\ text = join nl (map entry_line sorted)))
    /\ (text = "No events found." <-> listed_entries calendars = []).
Proof.
  unfold get_combined_events.
  destruct (combined_entries calendars []) as [all_events|] eqn:E;
    simpl; [|discriminate].
  apply combined_entries_spec in E. simpl in E. subst all_events.
  intros [= <-].
  set (sorted := sort_entries (listed_entries calendars)).
  assert (Hperm : Permutation sorted (listed_entries calendars))
    by apply sort_entries_perm.
  exists sorted. split; [exact Hperm|]. split; [apply sort_entries_sorted|].
  assert (Hjoin : join nl (map entry_line sorted) = "" <-> sorted = []).
  { rewrite join_empty_iff.
    - split; [apply map_eq_nil | now intros ->].
    - apply Forall_forall. intros x Hx.
      apply in_map_iff in Hx as (y & <- & _). apply entry_line_nonempty. }
  unfold or_default.
  destruct (String.eqb (join nl (map entry_line sorted)) "") eqn:Eq.
  - apply String.eqb_eq in Eq. apply Hjoin in Eq.
    split; [left; now split|].
    split; [intros _ | reflexivity].
    rewrite Eq in Hperm. now apply Permutation_nil in Hperm.
  - apply String.eqb_neq in Eq.
    assert (Hne : sorted <> []) by (intros H; apply Eq; now apply Hjoin).
    split; [right; now split|].
    split.
    + intros H. exfalso. destruct sorted as [|[[u s] t] rest]; [now elim Hne|].
      destruct rest; simpl in H; discriminate H.
    + intros H. exfalso. apply Hne. rewrite H in Hperm.
      now apply Permutation_nil.
Qed.

Lemma get_combined_events_sorted_witness :
  let calendars :=
    [("user1", Listed [mk_listed "a" (Some "Review") (Some "2025-07-19T10:00:00Z") None]);
     ("user2", Listed [mk_listed "b" (Some "Holiday") None None;
                       mk_listed "c" (Some "Standup") (Some "2025-07-18T09:00:00Z") None])] in
  exists sorted,
    Permutation sorted (listed_entries calendars)
    /\ Sorted (fun a b => String.leb (start_of a) (start_of b) = true) sorted
    /\ ((sorted = []
         /\ "[user2]  - Holiday" ++ nl ++ "[user2] 2025-07-18T09:00:00Z - Standup"
              ++ nl ++ "[user1] 2025-07-19T10:00:00Z - Review"
            = "No events found.")
        \/ (sorted <> []
            /\ "[user2]  - Holiday" ++ nl ++ "[user2] 2025-07-18T09:00:00Z - Standup"
                 ++ nl ++ "[user1] 2025-07-19T10:00:00Z - Review"
               = join nl (map entry_line sorted)))
    /\ ("[user2]  - Holiday" ++ nl ++ "[user2] 2025-07-18T09:00:00Z - Standup"
          ++ nl ++ "[user1] 2025-07-19T10:00:00Z - Review"
        = "No events found." <-> listed_entries calendars = []).
Proof.
  apply (get_combined_events_sorted
           [("user1", Listed [mk_listed "a" (Some "Review") (Some "2025-07-19T10:00:00Z") None]);
            ("user2", Listed [mk_listed "b" (Some "Holiday") None None;
                              mk_listed "c" (Some "Standup") (Some "2025-07-18T09:00:00Z") None])]).
  vm_compute; reflexivity.
Defined.

End ListingFacts.

(** ** The agent workflow *)

Module AgentFacts.
Import Str Agent.
Open Scope string_scope.

Lemma last_message_app (l : list message) (m : message) :
  last_message (l ++ [m]) = Some m.
Proof.
  induction l as [|x l IH]; [reflexivity|].
  simpl. destruct (l ++ [m])%list eqn:E; [now destruct l | exact IH].
Qed.

Lemma last_message_none (l : list message) : last_message l = None -> l = [].
Proof.
  induction l as [|x l IH]; [reflexivity|].
  simpl. destruct l; [discriminate|]. intros H. discriminate (IH H).
Qed.

(** What [agent_node] leaves in the state it builds: the output is the
    content of the last message when that is an AI message without tool
    calls, and empty otherwise. *)
Lemma agent_node_output (invoke : list message -> result invoked)
  (state state' : agent_state) :
  agent_node invoke state = Ok state' ->
  state' = state /\ messages state = []
  \/ (messages state' <> []
      /\ output state'
         = Some match last_message (messages state') with
                | Some (AIMessage content []) => content
                | _ => ""
                end).
Proof.
  unfold agent_node.
  set (input := match user_input state with Some s => s | None => "" end).
  set (msgs := if String.eqb input "" then messages state
               else if is_human_with input (last_message (messages state))
                    then messages state
                    else (messages state ++ [HumanMessage input])%list).
  destruct msgs as [|m0 msgs'] eqn:Em.
  - intros [= <-]. left. split; [reflexivity|].
    unfold msgs in Em. destruct (String.eqb input ""); [exact Em|].
    destruct (is_human_with input (last_message (messages state)));
      [exact Em | now destruct (messages state)].
  - destruct (invoke (m0 :: msgs')) as [[l|str]|]; simpl; [| |discriminate];
      intros [= <-]; right; simpl; split; try reflexivity; discriminate.
Qed.

(** X20: after a step of [agent_node], [router] ends the workflow exactly
    when the last message is an AI message without tool calls and with a
    non-empty content, and that content is the output of the state.  An AI
    message without tool calls and with an empty content does not end the
    workflow: it goes back to the agent. *)
Theorem router_after_agent_node (invoke : list message -> result invoked)
  (state state' : agent_state) :
  agent_node invoke state = Ok state' ->
  (router state' = ToEnd <->
   exists content, content <> ""
     /\ last_message (messages state') = Some (AIMessage content [])
     /\ output state' = Some content)
  /\ (last_message (messages state') = Some (AIMessage "" []) ->
      router state' = ToAgent).
Proof.
  intros H. apply agent_node_output in H.
  destruct H as [[-> Hnil]|[Hne Hout]].
  - unfold router. rewrite Hnil. simpl. split.
    + split; [discriminate|]. intros (c & _ & Hl & _). discriminate Hl.
    + discriminate.
  - unfold router. rewrite Hout.
    destruct (last_message (messages state')) as [[c|c [|tc tcs]|c id|c]|] eqn:El.
    + split; [|discriminate]. split; [discriminate|].
      intros (c' & _ & Hl & _). discriminate Hl.
    + simpl. destruct (String.eqb c "") eqn:Ec; simpl.
      * apply String.eqb_eq in Ec. subst c. split; [|reflexivity].
        split; [discriminate|]. intros (c' & Hc' & [= <-] & _). now elim Hc'.
      * apply String.eqb_neq in Ec. split; [|intros [= ->]; now elim Ec].
        split; [|reflexivity]. intros _. exists c. auto.
    + split; [|discriminate]. split.
      * destruct (existsb (answers (tc :: tcs)) (rev (messages state')));
          discriminate.
      * intros (c' & _ & Hl & _). discriminate Hl.
    + split; [|discriminate]. split; [discriminate|].
      intros (c' & _ & Hl & _). discriminate Hl.
    + split; [|discriminate]. split; [discriminate|].
      intros (c' & _ & Hl & _). discriminate Hl.
    + split; [|discriminate]. split; [discriminate|].
      intros (c' & _ & Hl & _). discriminate Hl.
Qed.

Lemma router_after_agent_node_witness :
  let state' := mk_state None [HumanMessage "hello"; AIMessage "" []]
                  (Some "") None None in
  (router state' = ToEnd <->
   exists content, content <> ""
     /\ last_message (messages state') = Some (AIMessage content [])
     /\ output state' = Some content)
  /\ (last_message (messages state') = Some (AIMessage "" []) ->
      router state' = ToAgent).
Proof.
  apply (router_after_agent_node (fun _ : list message => Ok (Other ""))
           (mk_state (Some "hello") [] None None None)).
  reflexivity.
Defined.

(** X21: [agent_node] never drops a message: the messages of the state it
    returns start with the messages it was given.  When there is a user
    input, the state it returns holds it as a human message; when it already
    is the last message it is not added again: the agent is invoked on the
    messages as they are, and what it answers is appended.  The state
    returned is the state given or has no user input any more. *)
Theorem agent_node_keeps_history (invoke : list message -> result invoked)
  (state state' : agent_state) :
  agent_node invoke state = Ok state' ->
  (exists added, messages state' = (messages state ++ added)%list)
  /\ (forall input, user_input state = Some input -> input <> "" ->
        In (HumanMessage input) (messages state')
        /\ (last_message (messages state) = Some (HumanMessage input) ->
            exists answer, invoke (messages state) = Ok answer
              /\ messages state'
                 = (messages state
                    ++ match answer with
                       | WithMessages l => l
                       | Other str => [AIMessage str []]
                       end)%list))
  /\ (state' = state \/ user_input state' = None).
Proof.
  unfold agent_node.
  set (input := match user_input state with Some s => s | None => "" end).
  set (msgs := if String.eqb input "" then messages state
               else if is_human_with input (last_message (messages state))
                    then messages state
                    else (messages state ++ [HumanMessage input])%list).
  assert (Hpre : exists extra, msgs = (messages state ++ extra)%list).
  { unfold msgs. destruct (String.eqb input "");
      [exists []; now rewrite app_nil_r|].
    destruct (is_human_with input (last_message (messages state)));
      [exists []; now rewrite app_nil_r | eauto]. }
  assert (Hin : forall i, user_input state = Some i -> i <> "" ->
            In (HumanMessage i) msgs
            /\ (last_message (messages state) = Some (HumanMessage i) ->
                msgs = messages state)).
  { intros i Hi Hne. unfold msgs, input. rewrite Hi.
    apply String.eqb_neq in Hne. rewrite Hne.
    destruct (last_message (messages state)) as [[c| | |]|] eqn:El; simpl;
      try (split; [apply in_or_app; right; now left | discriminate]).
    destruct (String.eqb c i) eqn:Ec.
    - apply String.eqb_eq in Ec. subst c. split; [|reflexivity].
      clear -El. induction (messages state) as [|x l IH]; [discriminate|].
      simpl in El. destruct l; [injection El as ->; now left|].
      right. exact (IH El).
    - split; [apply in_or_app; right; now left|].
      intros [= ->]. rewrite String.eqb_refl in Ec. discriminate. }
  destruct msgs as [|m0 msgs'] eqn:Em.
  - intros [= <-]. split; [exists []; now rewrite app_nil_r|].
    split; [|now left].
    intros i Hi Hne. destruct (Hin i Hi Hne) as [[] _].
  - destruct Hpre as (extra & Hpre).
    destruct (invoke (m0 :: msgs')) as [[l|str]|] eqn:Ei; cbn [bind];
      [| |discriminate]; intros [= <-]; cbn [messages user_input].
    + split; [exists (extra ++ l)%list; now rewrite app_assoc, <- Hpre|].
      split; [|now right].
      intros i Hi Hne. destruct (Hin i Hi Hne) as [H1 H2]. split.
      * exact (in_or_app (m0 :: msgs') _ _ (or_introl H1)).
      * intros Hl. rewrite <- (H2 Hl), Ei. eexists. split; reflexivity.
    + split; [exists (extra ++ [AIMessage str []])%list;
              now rewrite app_assoc, <- Hpre|].
      split; [|now right].
      intros i Hi Hne. destruct (Hin i Hi Hne) as [H1 H2]. split.
      * exact (in_or_app (m0 :: msgs') _ _ (or_introl H1)).
      * intros Hl. rewrite <- (H2 Hl), Ei. eexists. split; reflexivity.
Qed.

Lemma agent_node_keeps_history_witness :
  let invoke := fun _ : list message => Ok (Other "Done.") in
  let state := mk_state (Some "hello") [HumanMessage "hello"] None None None in
  let state' := mk_state None [HumanMessage "hello"; AIMessage "Done." []]
                  (Some "Done.") None None in
  (exists added, messages state' = (messages state ++ added)%list)
  /\ (forall input, user_input state = Some input -> input <> "" ->
        In (HumanMessage input) (messages state')
        /\ (last_message (messages state) = Some (HumanMessage input) ->
            exists answer, invoke (messages state) = Ok answer
              /\ messages state'
                 = (messages state
                    ++ match answer with
                       | WithMessages l => l
                       | Other str => [AIMessage str []]
                       end)%list))
  /\ (state' = state \/ user_input state' = None).
Proof.
  apply (agent_node_keeps_history (fun _ : list message => Ok (Other "Done."))).
  reflexivity.
Defined.

End AgentFacts.

